(** * cpycvt: COBOL copybook converter

    A shallow embedding of [lexer.py], [picture.py] and [copybook.py], and
    the properties of the rule-based lexer, the PICTURE decoder, the copybook
    tokenizer and parser, and the level-number tree builder.

    Conventions of the embedding:
    - a Python [str] is a [string] of one-byte characters; [\d],
      [str.isspace], [str.rstrip] and [int] are as Python has them on these
      characters; [str.upper] is modelled on ASCII letters only, and the
      statements that go through it for every text take an ASCII text;
    - a Python [int] is a [Z]; list indices and lengths are [nat];
    - a raised exception is a value [Raise e]; the message of an exception is
      kept as a constructor with the values formatted into it;
    - objects mutated in place (the lexer inside a [PictureDecoder], the
      [TreeNode]s) are threaded as explicit state; [TreeNode]s live in a
      store indexed by handles. *)

From Stdlib Require Import ZArith Ascii String Sorted.
From stdpp Require Import base list strings gmap.

Local Open Scope Z_scope.

(** ** Outcomes of Python code *)

Inductive CopybookMessage : Type :=
| UnhandledState
| ExpectedLevelNumber (text : string) (line col : Z)
| ExpectedIdentifier (text : string) (line col : Z)
| UnexpectedUsage (line col : Z)
| ExpectedClause (text : string) (line col : Z)
| ExpectedOccursCount (text : string) (line col : Z)
| ExpectedPicture (text : string) (line col : Z)
| ValueWithoutPicture (line col : Z)
| InvalidIndexedBy (line col : Z)
| CouldNotFindParent (node_name : string) (node_level : Z) (ptr_name : string) (ptr_level : Z).

(** [ParserError] is [lexer.ParserError] with the message of [Lexer.parse]:
    'String at (line:col) did not match any rules / Token starts with ...'. *)
Inductive exn : Type :=
| ParserError (line col : Z) (starts_with : string)
| CopybookException (message : CopybookMessage)
| TypeError
| ValueError
| IndexError
| AttributeError.

(** [Stuck] is not a Python outcome: it marks an exhausted iteration budget
    (a loop that has not ended within the budget) or a handle outside
    the store.  The totality lemmas below show where it cannot occur. *)
Inductive result (A : Type) : Type :=
| Return (a : A)
| Raise (e : exn)
| Stuck.
Arguments Return {A} a.
Arguments Raise {A} e.
Arguments Stuck {A}.

#[global] Instance result_ret : MRet result := fun A a => Return a.

#[global] Instance result_bind : MBind result := fun A B k r =>
  match r with
  | Return a => k a
  | Raise e => Raise e
  | Stuck => Stuck
  end.

(** ** Python strings *)
Module Py.

Definition len (s : string) : nat := String.length s.

(** [s[n:]] *)
Fixpoint drop (n : nat) (s : string) : string :=
  match n, s with
  | O, _ => s
  | S n', String _ r => drop n' r
  | S _, EmptyString => EmptyString
  end.

(** [s[:n]] *)
Fixpoint take (n : nat) (s : string) : string :=
  match n, s with
  | S n', String c r => String c (take n' r)
  | _, _ => EmptyString
  end.

Definition is_digit (c : ascii) : bool :=
  let n := nat_of_ascii c in (48 <=? n)%nat && (n <=? 57)%nat.

Definition is_lower (c : ascii) : bool :=
  let n := nat_of_ascii c in (97 <=? n)%nat && (n <=? 122)%nat.

Definition is_upper (c : ascii) : bool :=
  let n := nat_of_ascii c in (65 <=? n)%nat && (n <=? 90)%nat.

(** [str.isspace] on one-byte characters: tab to carriage return, the four
    separators 28 to 31, the space, and the code points 133 and 160. *)
Definition is_space (c : ascii) : bool :=
  let n := nat_of_ascii c in
  ((9 <=? n)%nat && (n <=? 13)%nat) || ((28 <=? n)%nat && (n <=? 32)%nat)
  || (n =? 133)%nat || (n =? 160)%nat.

(** The white space that [int] skips around a literal.  [int] turns the
    white space from code point 128 on into a space and then skips what the
    C library calls a space, so the separators 28 to 31 are not skipped. *)
Definition is_int_space (c : ascii) : bool :=
  let n := nat_of_ascii c in
  ((9 <=? n)%nat && (n <=? 13)%nat) || (n =? 32)%nat || (n =? 133)%nat || (n =? 160)%nat.

Definition upper_char (c : ascii) : ascii :=
  if is_lower c then ascii_of_nat (nat_of_ascii c - 32) else c.

(** [s.upper()] of an ASCII text.  From code point 128 on the characters
    are left as they are, which is not what [str.upper] does with the
    lower-case letters there; see [is_ascii]. *)
Fixpoint upper (s : string) : string :=
  match s with
  | EmptyString => EmptyString
  | String c r => String (upper_char c) (upper r)
  end.

(** [s.isascii()] *)
Fixpoint is_ascii (s : string) : bool :=
  match s with
  | EmptyString => true
  | String c r => (nat_of_ascii c <? 128)%nat && is_ascii r
  end.

(** The longest prefix whose characters satisfy [p], and the rest. *)
Fixpoint span (p : ascii -> bool) (s : string) : string * string :=
  match s with
  | EmptyString => (EmptyString, EmptyString)
  | String c r =>
      if p c then let '(a, b) := span p r in (String c a, b)
      else (EmptyString, s)
  end.

Fixpoint rev_onto (s acc : string) : string :=
  match s with
  | EmptyString => acc
  | String c r => rev_onto r (String c acc)
  end.

Definition lstrip (s : string) : string := snd (span is_space s).
Definition strip (s : string) : string :=
  rev_onto (lstrip (rev_onto (lstrip s) EmptyString)) EmptyString.

Definition digit_value (c : ascii) : Z := Z.of_nat (nat_of_ascii c) - 48.

(** The digit part of an [int] literal: decimal digits, single underscores
    only between digits. *)
Fixpoint int_digits (s : string) (acc : Z) (after_digit : bool) : option Z :=
  match s with
  | EmptyString => if after_digit then Some acc else None
  | String c r =>
      if is_digit c then int_digits r (10 * acc + digit_value c) true
      else if Ascii.eqb c "_" && after_digit then int_digits r acc false
      else None
  end.

(** The number of decimal digits of a literal. *)
Fixpoint count_digits (s : string) : nat :=
  match s with
  | EmptyString => O
  | String c r => if is_digit c then S (count_digits r) else count_digits r
  end.

(** [sys.get_int_max_str_digits()], as CPython sets it. *)
Definition int_max_str_digits : nat := 4300.

(** The literal without the white space that [int] skips at both ends. *)
Definition int_strip (s : string) : string :=
  rev_onto (snd (span is_int_space (rev_onto (snd (span is_int_space s)) EmptyString)))
           EmptyString.

(** [int(s)]: surrounding white space is skipped, one sign is accepted, a
    literal of more than [int_max_str_digits] digits raises [ValueError],
    and so does anything else that is not a decimal literal. *)
Definition int (s : string) : result Z :=
  let t := int_strip s in
  let '(sign, body) :=
    match t with
    | String "-" r => (-1, r)
    | String "+" r => (1, r)
    | _ => (1, t)
    end in
  if (int_max_str_digits <? count_digits body)%nat then Raise ValueError
  else
    match int_digits body 0 false with
    | Some v => Return (sign * v)
    | None => Raise ValueError
    end.

End Py.

(** ** Regular expressions

    A compiled pattern is its [match] function on the text at the current
    position: [None] for no match, else group 0 and the captured groups. *)
Module Re.

Record Match : Type := mkMatch { whole : string; captures : list string }.

Definition Pattern : Type := string -> option Match.

(** [m.group(i)]; a group the pattern does not have raises [IndexError]. *)
Definition group (m : Match) (i : nat) : result string :=
  match (whole m :: captures m) !! i with
  | Some g => Return g
  | None => Raise IndexError
  end.

(** [c+] for a character class [c]. *)
Definition plus (p : ascii -> bool) : Pattern := fun s =>
  match Py.span p s with
  | (EmptyString, _) => None
  | (w, _) => Some (mkMatch w [])
  end.

(** A one-character literal. *)
Definition lit (c : ascii) : Pattern := fun s =>
  match s with
  | String d _ => if Ascii.eqb c d then Some (mkMatch (String c EmptyString) []) else None
  | EmptyString => None
  end.

(** [open (class+) close] with one capture group around [class+], for a
    class that contains neither delimiter: [\((\d+)\)] and [\'([^']+)\']. *)
Definition delimited (o : ascii) (p : ascii -> bool) (c : ascii) : Pattern := fun s =>
  match s with
  | String d r =>
      if Ascii.eqb o d then
        match Py.span p r with
        | (EmptyString, _) => None
        | (inner, String e _) =>
            if Ascii.eqb c e
            then Some (mkMatch (String o (inner +:+ String c EmptyString)) [inner])
            else None
        | (_, EmptyString) => None
        end
      else None
  | EmptyString => None
  end.

End Re.

(** ** lexer.py *)
Module Lexer.
Section WithEnum.
Context {E : Type}.

(** [regex] is the source text of the pattern and [matcher] what
    [re.compile(regex, flags)] matches. *)
Record Rule : Type := mkRule {
  enum : E;
  regex : string;
  matcher : Re.Pattern;
  group : nat;
  is_ws : bool;
  is_eof : bool;
  is_comment : bool
}.

(** [Rule.compile]: a rule with an empty regex has no pattern. *)
Definition pattern (r : Rule) : option Re.Pattern :=
  match regex r with
  | EmptyString => None
  | _ => Some (matcher r)
  end.

Record Range : Type := mkRange { line_number : Z; start : Z; end_ : Z }.

Record Token : Type := mkToken { t_enum : E; text : string; line : Z; col : Z }.

(** The fields of a [Lexer] object that [parse] assigns. *)
Record State : Type := mkState { data : option string; tokens : list Token }.

(** [Lexer(data=None)] *)
Definition new : State := mkState None [].

(** [add_rule] over the whole rule list: the last end-marker rule. *)
Definition eof_rule (rules : list Rule) : option Rule :=
  last (filter (fun r => is_eof r = true) rules).

(** [break_lines]: [index] is the offset of the next character, [cur_line]
    and [cur_start] describe [lines[-1]]. *)
Fixpoint break_lines_from (cur_line cur_start index : Z) (s : string) : list Range :=
  match s with
  | EmptyString => [mkRange cur_line cur_start (index - 1)]
  | String c r =>
      if Ascii.eqb c "010"
      then mkRange cur_line cur_start index
             :: break_lines_from (cur_line + 1) (index + 1) (index + 1) r
      else break_lines_from cur_line cur_start (index + 1) r
  end.

Definition break_lines (d : string) : list Range := break_lines_from 1 0 0 d.

Fixpoint find_line_col (lines : list Range) (pos : Z) : option (Z * Z) :=
  match lines with
  | [] => None
  | l :: rest =>
      if (start l <=? pos) && (pos <=? end_ l)
      then Some (line_number l, pos - start l + 1)
      else find_line_col rest pos
  end.

(** The list [matched]: every rule with a pattern that matches [rest]. *)
Definition matches (rules : list Rule) (rest : string) : list (Rule * Re.Match) :=
  omap (fun r =>
          match pattern r with
          | None => None
          | Some p => match p rest with
                      | Some m => Some (r, m)
                      | None => None
                      end
          end) rules.

(** The loop that finds the longest match: [i] runs over [matched], [ln]
    and [index] are the loop's variables. *)
Fixpoint longest_from (matched : list (Rule * Re.Match)) (i ln index : nat) : nat :=
  match matched with
  | [] => index
  | (_, m) :: rest =>
      if (ln <? Py.len (Re.whole m))%nat
      then longest_from rest (S i) (Py.len (Re.whole m)) i
      else longest_from rest (S i) ln index
  end.

Definition longest (matched : list (Rule * Re.Match)) : nat := longest_from matched 0 0 0.

(** One pass of the body of the inner loop, up to the update of
    [curr_pos]: the new token list and the new position, or the exception
    with the token list as it is then. *)
Definition step (rules : list Rule) (lines : list Range) (d : string)
    (curr_pos : nat) (toks : list Token) : result (list Token * nat) :=
  let matched := matches rules (Py.drop curr_pos d) in
  match find_line_col lines (Z.of_nat curr_pos) with
  | None => Raise TypeError
  | Some (ln, cl) =>
      match matched with
      | [] => Raise (ParserError ln cl (Py.take 10 (Py.drop curr_pos d)))
      | _ =>
          match matched !! longest matched with
          | None => Raise IndexError
          | Some (rule, m) =>
              toks' ← (if is_ws rule || is_comment rule then Return toks
                       else t ← Re.group m (group rule);
                            Return (toks ++ [mkToken (enum rule) t ln cl]));
              Return (toks', (curr_pos + Py.len (Re.whole m))%nat)
          end
      end
  end.

(** The inner [while True] loop.  The result is paired with [self.tokens]
    as the loop leaves it. *)
Fixpoint scan (fuel : nat) (rules : list Rule) (lines : list Range) (d : string)
    (curr_pos : nat) (toks : list Token) : result unit * list Token :=
  match fuel with
  | O => (Stuck, toks)
  | S fuel' =>
      match step rules lines d curr_pos toks with
      | Raise e => (Raise e, toks)
      | Stuck => (Stuck, toks)
      | Return (toks', pos') =>
          if (Py.len d <=? pos')%nat then
            match eof_rule rules, find_line_col lines (Z.of_nat curr_pos) with
            | Some r, Some (ln, cl) =>
                (Return tt, toks' ++ [mkToken (enum r) "<EOF>" ln cl])
            | _, _ => (Return tt, toks')
            end
          else scan fuel' rules lines d pos' toks'
      end
  end.

(** [parse(data)]: the returned value ([None] when the outer loop is not
    entered) and the lexer afterwards.  A match of at least one character
    per pass ends the scan within [len(data)] passes. *)
Definition parse (rules : list Rule) (lx : State) (arg : string)
  : result (option (list Token)) * State :=
  let lx1 := match arg with
             | EmptyString => lx
             | _ => mkState (Some arg) []
             end in
  match data lx1 with
  | None => (Raise TypeError, lx1)
  | Some d =>
      let lines := break_lines d in
      if (0 <? Py.len d)%nat then
        let '(r, toks) := scan (Py.len d) rules lines d 0 (tokens lx1) in
        (_ ← r; Return (Some toks), mkState (Some d) toks)
      else (Return None, lx1)
  end.

End WithEnum.
Arguments Rule : clear implicits.
Arguments Token : clear implicits.
Arguments State : clear implicits.
End Lexer.

(** ** lexer.py: the [Parser] class *)
Module Parser.
Section WithEnum.
Context {E : Type} `{EqDecision E}.

Abbreviation Token := (Lexer.Token E).

(** The messages of the [ParserError]s that [Parser] raises: 'unexpected end
    of input' of [match_token], and the two messages of [report]. *)
Inductive Message : Type :=
| UnexpectedEndOfInput
| ExpectedString (match_ : string) (expected_enum : E) (actual_token : Token)
| ExpectedToken (expected_enum : E) (actual_token : Token).

(** A method either returns or raises; the [Parser] object is mutated in
    place, so its fields after the call are there in both cases. *)
Inductive outcome (A : Type) : Type :=
| Ok (a : A)
| Err (m : Message).
Arguments Ok {A} a.
Arguments Err {A} m.

Record State : Type := mkState {
  tokens : list Token;
  token_ptr : nat;
  curr_token : option Token;
  next_token : option Token
}.

(** [Parser(lexer)] *)
Definition new : State := mkState [] 0 None None.

Definition has_next (p : State) : bool :=
  match next_token p with
  | Some _ => true
  | None => false
  end.

(** [advance_token]: the returned token and the parser afterwards. *)
Definition advance_token (p : State) : option Token * State :=
  let curr := next_token p in
  if (token_ptr p <? List.length (tokens p))%nat then
    (curr, mkState (tokens p) (S (token_ptr p)) curr (tokens p !! token_ptr p))
  else
    (curr, mkState (tokens p) (token_ptr p) curr None).

(** [report]: always raises. *)
Definition report (expected_enum : E) (actual_token : Token) (match_ : option string)
  : Message :=
  match match_ with
  | Some (String c r) => ExpectedString (String c r) expected_enum actual_token
  | _ => ExpectedToken expected_enum actual_token
  end.

(** [match_token(enum, match, required)]; an empty [match] is falsy, as is
    [None]. *)
Definition match_token (p : State) (enum : E) (match_ : option string) (required : bool)
  : outcome bool * State :=
  match next_token p with
  | Some nt =>
      if bool_decide (Lexer.t_enum nt = enum)
         && match match_ with
            | Some (String c r) => String.eqb (Lexer.text nt) (String c r)
            | _ => true
            end
      then (Ok true, snd (advance_token p))
      else if required then (Err (report enum nt match_), p)
           else (Ok false, p)
  | None => (Err UnexpectedEndOfInput, p)
  end.

(** The [for] loop of [match_token_stream]; [ta] may hold [None] as far as
    the code goes, since it appends [self.curr_token]. *)
Fixpoint stream_loop (p : State) (enum_list : list E) (required : bool)
    (ta : list (option Token)) (mark : nat) (_ct _nt : option Token)
  : outcome (list (option Token)) * State :=
  match enum_list with
  | [] => (Ok ta, p)
  | enum :: rest =>
      match match_token p enum None required with
      | (Ok true, p') => stream_loop p' rest required (ta ++ [curr_token p']) mark _ct _nt
      | (Ok false, p') => (Ok [], mkState (tokens p') mark _ct _nt)
      | (Err m, p') => (Err m, p')
      end
  end.

Definition match_token_stream (p : State) (enum_list : list E) (required : bool)
  : outcome (list (option Token)) * State :=
  stream_loop p enum_list required [] (token_ptr p) (curr_token p) (next_token p).

(** [start(data)]: the parser and the lexer afterwards.  [len(self.tokens)]
    of [None] raises [TypeError]. *)
Definition start (rules : list (Lexer.Rule E)) (lx : Lexer.State E) (p : State)
    (data : string) : result State * Lexer.State E :=
  let '(r, lx') := Lexer.parse rules lx data in
  (toks ← r;
   match toks with
   | None => Raise TypeError
   | Some ts =>
       Return (snd (advance_token (mkState ts (token_ptr p) (curr_token p) (next_token p))))
   end, lx').

End WithEnum.
Arguments Message : clear implicits.
Arguments State : clear implicits.
Arguments outcome : clear implicits.
Arguments UnexpectedEndOfInput {E}.
Arguments ExpectedString {E} match_ expected_enum actual_token.
Arguments ExpectedToken {E} expected_enum actual_token.
Arguments Ok {E A} a.
Arguments Err {E A} m.
Arguments mkState {E} tokens token_ptr curr_token next_token.
End Parser.

(** ** picture.py *)
Module picture.

Inductive PictureType : Type := P_NONE | P_STRING | P_NUMERIC.

Record Picture : Type := mkPicture {
  picture_type : PictureType;
  length : Z;
  scale : Z;
  default : string;
  signed : bool
}.

Module PictureDecoder.

Inductive TokenTypes : Type := T_X | T_9 | T_V | T_S | T_LEN | T_EOL.

Inductive DState : Type :=
| T_BEGIN | T_SINGLE_X | T_MULTI_X | T_SINGLE_9 | T_MULTI_9
| T_WAIT_EOL | T_WAIT_FIXED_POINT.

#[global] Instance TokenTypes_eq_dec : EqDecision TokenTypes.
Proof. solve_decision. Defined.
#[global] Instance PictureType_eq_dec : EqDecision PictureType.
Proof. solve_decision. Defined.

Definition is_X (c : ascii) : bool := Ascii.eqb c "X" || Ascii.eqb c "x".
Definition is_9 (c : ascii) : bool := Ascii.eqb c "9".

(** [_setup_lexer]: the rules in the order they are added. *)
Definition rules : list (Lexer.Rule TokenTypes) :=
  [ Lexer.mkRule T_X "X+" (Re.plus is_X) 0 false false false;
    Lexer.mkRule T_9 "9+" (Re.plus is_9) 0 false false false;
    Lexer.mkRule T_V "V" (Re.lit "V") 0 false false false;
    Lexer.mkRule T_S "S" (Re.lit "S") 0 false false false;
    Lexer.mkRule T_LEN "\((\d+)\)" (Re.delimited "(" Py.is_digit ")") 1 false false false;
    Lexer.mkRule T_EOL "" (fun _ => None) 0 false true false ].

Abbreviation Token := (Lexer.Token TokenTypes).

Definition set_type (p : Picture) (t : PictureType) : Picture :=
  mkPicture t (length p) (scale p) (default p) (signed p).
Definition set_length (p : Picture) (n : Z) : Picture :=
  mkPicture (picture_type p) n (scale p) (default p) (signed p).
Definition set_scale (p : Picture) (n : Z) : Picture :=
  mkPicture (picture_type p) (length p) n (default p) (signed p).
Definition set_signed (p : Picture) (b : bool) : Picture :=
  mkPicture (picture_type p) (length p) (scale p) (default p) b.
Definition set_default (p : Picture) (d : string) : Picture :=
  mkPicture (picture_type p) (length p) (scale p) d (signed p).

(** What one pass of the loop of [decode] does: [Done] is [return None];
    [Next st p skip] goes on in state [st] with picture [p], and [skip]
    tells that [token_idx] was advanced once more inside the pass. *)
Inductive Pass : Type :=
| Done
| Next (st : DState) (p : Picture) (skip : bool).

Definition text_len (t : Token) : Z := Z.of_nat (Py.len (Lexer.text t)).

(** [token] is [tokens[token_idx]] and [rest] is [tokens[token_idx+1:]]. *)
Definition pass (state : DState) (picture : Picture) (token : Token) (rest : list Token)
  : result Pass :=
  let e := Lexer.t_enum token in
  match state with
  | T_BEGIN =>
      if decide (e = T_X) then
        if decide (picture_type picture <> P_NONE) then Return Done
        else
          let p := set_type picture P_STRING in
          if text_len token =? 1 then Return (Next T_SINGLE_X p false)
          else Return (Next T_WAIT_EOL (set_length p (text_len token)) false)
      else if decide (e = T_9) then
        let p := set_type picture P_NUMERIC in
        if text_len token =? 1 then Return (Next T_SINGLE_9 p false)
        else Return (Next T_WAIT_FIXED_POINT (set_length p (text_len token)) false)
      else if decide (e = T_S) then
        Return (Next T_BEGIN (set_type (set_signed picture true) P_NUMERIC) false)
      else if decide (e = T_V) then
        Return (Next T_WAIT_FIXED_POINT (set_type (set_length picture 0) P_NUMERIC) false)
      else Return Done
  | T_SINGLE_X =>
      if decide (e = T_LEN) then
        n ← Py.int (Lexer.text token);
        Return (Next T_WAIT_EOL (set_length picture n) false)
      else if decide (e = T_EOL) then Return (Next T_SINGLE_X (set_length picture 1) false)
      else Return Done
  | T_SINGLE_9 =>
      if decide (e = T_LEN) then
        n ← Py.int (Lexer.text token);
        Return (Next T_WAIT_FIXED_POINT (set_length picture n) false)
      else if decide (e = T_EOL) then Return (Next T_SINGLE_9 (set_length picture 1) false)
      else if decide (e = T_V) then Return (Next T_WAIT_FIXED_POINT picture false)
      else Return Done
  | T_WAIT_FIXED_POINT =>
      if decide (e = T_V) then Return (Next T_WAIT_FIXED_POINT picture false)
      else if decide (e = T_9) then
        let fused :=
          if text_len token =? 1 then
            match rest with
            | [] => Raise IndexError
            | nxt :: _ => Return (bool_decide (Lexer.t_enum nxt = T_LEN), Lexer.text nxt)
            end
          else Return (false, EmptyString) in
        '(is_len, count) ← fused;
        if is_len : bool then
          n ← Py.int count;
          let p := set_scale picture n in
          Return (Next T_WAIT_EOL (set_length p (length p + scale p)) true)
        else
          let p := set_scale picture (text_len token) in
          Return (Next T_WAIT_EOL (set_length p (length p + text_len token)) false)
      else if decide (e <> T_EOL) then Return Done
      else Return (Next T_WAIT_FIXED_POINT picture false)
  | T_WAIT_EOL =>
      if decide (e <> T_EOL) then Return Done
      else Return (Next T_WAIT_EOL picture false)
  | T_MULTI_X => Return (Next T_MULTI_X picture false)
  | T_MULTI_9 => Return (Next T_MULTI_9 picture false)
  end.

(** The [while token_idx < len(tokens)] loop over [tokens[token_idx:]];
    [skip] drops the token that the previous pass looked ahead at. *)
Fixpoint loop (toks : list Token) (skip : bool) (state : DState) (picture : Picture)
  : result (option Picture) :=
  match toks with
  | [] => Return (Some picture)
  | token :: rest =>
      if skip then loop rest false state picture
      else
        match pass state picture token rest with
        | Return Done => Return None
        | Return (Next st p sk) => loop rest sk st p
        | Raise e => Raise e
        | Stuck => Stuck
        end
  end.

(** [Picture()] *)
Definition new_picture : Picture := mkPicture P_NONE 0 0 "" false.

(** [decode(pic)] on a decoder whose lexer is [lx]: the result and the
    lexer afterwards.  [len(tokens)] of [None] raises [TypeError]. *)
Definition decode (lx : Lexer.State TokenTypes) (pic : string)
  : result (option Picture) * Lexer.State TokenTypes :=
  let '(r, lx') := Lexer.parse rules lx pic in
  (toks ← r;
   match toks with
   | None => Raise TypeError
   | Some ts => loop ts false T_BEGIN new_picture
   end, lx').

End PictureDecoder.

(** [decodePicture]: [decode] on a newly made [PictureDecoder]. *)
Definition decodePicture (pic : string) : result (option Picture) :=
  fst (PictureDecoder.decode Lexer.new pic).

End picture.

(** ** copybook.py *)
Module copybook.
Import picture.

Inductive NodeType : Type := N_NONE | N_RECORD | N_PICTURE | N_ENUM.

Inductive UsageType : Type := U_NONE | U_PACKED | U_DISPLAY | U_BINARY.

Inductive TokenEnum : Type := T_TEXT | T_PERIOD | T_EOF.

#[global] Instance TokenEnum_eq_dec : EqDecision TokenEnum.
Proof. solve_decision. Defined.

Record Node : Type := mkNode {
  node_name : string;
  node_type : NodeType;
  node_level : Z;
  redefines : option string;
  occurs : Z;
  node_picture : option Picture;
  usage : UsageType;
  enum_set : option (list string);
  indexed_by : option string
}.

(** [Node(name, level, node_type)] with the defaults of the constructor. *)
Definition new_node (name : string) (level : Z) (ty : NodeType) : Node :=
  mkNode name ty level None 1 None U_NONE None None.

Definition set_node_type (n : Node) (ty : NodeType) : Node :=
  mkNode (node_name n) ty (node_level n) (redefines n) (occurs n) (node_picture n)
         (usage n) (enum_set n) (indexed_by n).
Definition set_redefines (n : Node) (r : string) : Node :=
  mkNode (node_name n) (node_type n) (node_level n) (Some r) (occurs n) (node_picture n)
         (usage n) (enum_set n) (indexed_by n).
Definition set_occurs (n : Node) (k : Z) : Node :=
  mkNode (node_name n) (node_type n) (node_level n) (redefines n) k (node_picture n)
         (usage n) (enum_set n) (indexed_by n).
Definition set_node_picture (n : Node) (p : Picture) : Node :=
  mkNode (node_name n) (node_type n) (node_level n) (redefines n) (occurs n) (Some p)
         (usage n) (enum_set n) (indexed_by n).
Definition set_usage (n : Node) (u : UsageType) : Node :=
  mkNode (node_name n) (node_type n) (node_level n) (redefines n) (occurs n) (node_picture n)
         u (enum_set n) (indexed_by n).
Definition set_enum_set (n : Node) (l : list string) : Node :=
  mkNode (node_name n) (node_type n) (node_level n) (redefines n) (occurs n) (node_picture n)
         (usage n) (Some l) (indexed_by n).
Definition set_indexed_by (n : Node) (i : string) : Node :=
  mkNode (node_name n) (node_type n) (node_level n) (redefines n) (occurs n) (node_picture n)
         (usage n) (enum_set n) (Some i).

(** The tokenizer's [Token]; [up_text] is [text.upper()]. *)
Record Token : Type := mkToken { enum : TokenEnum; text : string; line : Z; col : Z }.

Definition up_text (t : Token) : string := Py.upper (text t).

(** *** tokenize *)
Module Tokenize.

Inductive State : Type := S_START | S_TEXT | S_WS | S_PERIOD.

(** The local variables of [tokenize]. *)
Record Vars : Type := mkVars {
  v_line : Z;
  v_col : Z;
  v_state : State;
  v_tokens : list Token;
  s_token : string
}.

(** [c in [' ', '\t', '\n']] *)
Definition is_blank (c : ascii) : bool :=
  Ascii.eqb c " " || Ascii.eqb c "009" || Ascii.eqb c "010".

Definition is_newline (c : ascii) : bool := Ascii.eqb c "010".
Definition is_period (c : ascii) : bool := Ascii.eqb c ".".

(** [if s_token: tokens.append(Token(T_TEXT, s_token, line, col)); s_token = ''] *)
Definition flush (v : Vars) : Vars :=
  match s_token v with
  | EmptyString => v
  | s => mkVars (v_line v) (v_col v) (v_state v)
                (v_tokens v ++ [mkToken T_TEXT s (v_line v) (v_col v)]) EmptyString
  end.

(** [tokens.append(Token(T_PERIOD, '.', line, col))] *)
Definition period (v : Vars) : Vars :=
  mkVars (v_line v) (v_col v) (v_state v)
         (v_tokens v ++ [mkToken T_PERIOD "." (v_line v) (v_col v)]) (s_token v).

Definition goto (st : State) (v : Vars) : Vars :=
  mkVars (v_line v) (v_col v) st (v_tokens v) (s_token v).

(** The body of the [for c in text] loop without its last line. *)
Definition branch (v : Vars) (c : ascii) : result Vars :=
  match v_state v with
  | S_START =>
      if is_blank c then
        let v1 := if is_newline c
                  then mkVars (v_line v + 1) 0 (v_state v) (v_tokens v) (s_token v)
                  else v in
        Return (goto S_WS v1)
      else if is_period c then Return (goto S_START (period (flush v)))
      else Return (mkVars (v_line v) (v_col v) (v_state v) (v_tokens v)
                          (s_token v +:+ String c EmptyString))
  | S_WS =>
      let v1 := flush v in
      if is_blank c then
        let v2 := goto S_WS v1 in
        Return (if is_newline c
                then mkVars (v_line v2 + 1) (v_col v2) (v_state v2) (v_tokens v2) (s_token v2)
                else v2)
      else if is_period c then Return (period v1)
      else Return (goto S_START
                     (mkVars (v_line v1) (v_col v1) (v_state v1) (v_tokens v1)
                             (String c EmptyString)))
  | S_PERIOD => Return (goto S_START (period (flush v)))
  | S_TEXT => Raise (CopybookException UnhandledState)
  end.

(** One pass of the loop: the branch, then [col += 1]. *)
Definition step (v : Vars) (c : ascii) : result Vars :=
  v' ← branch v c;
  Return (mkVars (v_line v') (v_col v' + 1) (v_state v') (v_tokens v') (s_token v')).

Fixpoint run (text : string) (v : Vars) : result Vars :=
  match text with
  | EmptyString => Return v
  | String c r => v' ← step v c; run r v'
  end.

Definition init : Vars := mkVars 1 1 S_START [] EmptyString.

(** What follows the loop: the last token, then the EOF token. *)
Definition finish (v : Vars) : list Token :=
  let v' := flush v in
  v_tokens v' ++ [mkToken T_EOF "(eof)" (v_line v') (v_col v')].

End Tokenize.

Definition tokenize (text : string) : result (list Token) :=
  v ← Tokenize.run text Tokenize.init;
  Return (Tokenize.finish v).

(** *** parse_copybook *)
Module Parse.

Inductive State : Type :=
| S_START | S_SENTENCE | S_CLAUSE | S_REDEFINES | S_OCCURS
| S_PICTURE | S_VALUE | S_USAGE | S_ENUM | S_INDEXED.

(** [\d+] *)
Definition re_int : Re.Pattern := Re.plus Py.is_digit.

Definition is_identifier_char (c : ascii) : bool :=
  Py.is_upper c || Py.is_lower c || Py.is_digit c || Ascii.eqb c "_" || Ascii.eqb c "-".

(** [[A-Za-z\d_\-]+] *)
Definition re_identifier : Re.Pattern := Re.plus is_identifier_char.

(** [\'([^']+)\'] *)
Definition re_string : Re.Pattern :=
  Re.delimited "'" (fun c => negb (Ascii.eqb c "'")) "'".

Definition decode_usage (u : string) : option UsageType :=
  if String.eqb u "DISPLAY" then Some U_DISPLAY
  else if String.eqb u "BINARY" then Some U_BINARY
  else if String.eqb u "COMP-3" || String.eqb u "COMPUTATIONAL-3" then Some U_PACKED
  else None.

(** The local variables of [consume], the lexer of its [decoder], and
    [node_list] of the enclosing function. *)
Record Vars : Type := mkVars {
  state : State;
  level : Z;
  node : option Node;
  decoder : Lexer.State PictureDecoder.TokenTypes;
  node_list : list Node
}.

Definition goto (st : State) (v : Vars) : Vars :=
  mkVars st (level v) (node v) (decoder v) (node_list v).

Definition with_node (n : Node) (v : Vars) : Vars :=
  mkVars (state v) (level v) (Some n) (decoder v) (node_list v).

(** An attribute of [node]; [node] is [None] before the first identifier. *)
Definition the_node (v : Vars) : result Node :=
  match node v with
  | Some n => Return n
  | None => Raise AttributeError
  end.

(** [tokens[token_idx+1]] *)
Definition peek (rest : list Token) : result Token :=
  match rest with
  | t :: _ => Return t
  | [] => Raise IndexError
  end.

(** The literal of VALUE and ENUM: [match.group(0)] when [re_string]
    matches, else the text of the token. *)
Definition value_text (token : Token) : result string :=
  match re_string (text token) with
  | Some m => Re.group m 0
  | None => Return (text token)
  end.

(** One pass of the loop of [consume]: [Finished] is the [return] at the
    EOF token, [Continue v skip] goes on with [v], after one more token
    when [skip] is set. *)
Inductive Pass : Type :=
| Finished
| Continue (v : Vars) (skip : bool).

Definition at_ (mk : string -> Z -> Z -> CopybookMessage) (t : Token) : exn :=
  CopybookException (mk (text t) (line t) (col t)).

Definition pos (mk : Z -> Z -> CopybookMessage) (t : Token) : exn :=
  CopybookException (mk (line t) (col t)).

(** [token] is [tokens[token_idx]] and [rest] is [tokens[token_idx+1:]]. *)
Definition pass (v : Vars) (token : Token) (rest : list Token) : result Pass :=
  match state v with
  | S_START =>
      if String.eqb (up_text token) "EJECT" then Return (Continue (goto S_START v) false)
      else if bool_decide (enum token = T_TEXT) && bool_decide (is_Some (re_int (text token))) then
        lv ← Py.int (text token);
        Return (Continue (mkVars S_SENTENCE lv (node v) (decoder v) (node_list v)) false)
      else if bool_decide (enum token = T_EOF) then Return Finished
      else Raise (at_ ExpectedLevelNumber token)
  | S_SENTENCE =>
      if bool_decide (enum token = T_TEXT)
         && bool_decide (is_Some (re_identifier (text token))) then
        Return (Continue (goto S_CLAUSE (with_node (new_node (text token) (level v) N_NONE) v))
                         false)
      else Raise (at_ ExpectedIdentifier token)
  | S_CLAUSE =>
      if bool_decide (enum token = T_PERIOD) then
        n ← the_node v;
        let node_type :=
          match node_picture n, enum_set n with
          | Some _, _ => N_PICTURE
          | None, Some (_ :: _) => N_ENUM
          | None, _ => N_RECORD
          end in
        let n' := set_node_type n node_type in
        Return (Continue (mkVars S_START (level v) (Some n') (decoder v) (node_list v ++ [n']))
                         false)
      else if String.eqb (up_text token) "REDEFINES" then
        Return (Continue (goto S_REDEFINES v) false)
      else if String.eqb (up_text token) "OCCURS" then Return (Continue (goto S_OCCURS v) false)
      else if String.eqb (up_text token) "PIC" || String.eqb (up_text token) "PICTURE" then
        Return (Continue (goto S_PICTURE v) false)
      else if String.eqb (up_text token) "VALUE" then Return (Continue (goto S_VALUE v) false)
      else if String.eqb (up_text token) "USAGE" then Return (Continue (goto S_USAGE v) false)
      else if String.eqb (up_text token) "DISPLAY" || String.eqb (up_text token) "BINARY"
              || String.eqb (up_text token) "COMP-3"
              || String.eqb (up_text token) "COMPUTATIONAL-3" then
        match decode_usage (up_text token) with
        | None => Raise (pos UnexpectedUsage token)
        | Some u =>
            n ← the_node v;
            Return (Continue (goto S_CLAUSE (with_node (set_usage n u) v)) false)
        end
      else if String.eqb (text token) "INDEXED" then Return (Continue (goto S_INDEXED v) false)
      else Raise (at_ ExpectedClause token)
  | S_REDEFINES =>
      if bool_decide (enum token = T_TEXT) then
        n ← the_node v;
        Return (Continue (goto S_CLAUSE (with_node (set_redefines n (text token)) v)) false)
      else Raise (at_ ExpectedIdentifier token)
  | S_OCCURS =>
      if bool_decide (enum token = T_TEXT) && bool_decide (is_Some (re_int (text token))) then
        k ← Py.int (text token);
        n ← the_node v;
        nxt ← peek rest;
        Return (Continue (goto S_CLAUSE (with_node (set_occurs n k) v))
                         (String.eqb (up_text nxt) "TIMES"))
      else Raise (at_ ExpectedOccursCount token)
  | S_PICTURE =>
      let '(r, lx) := PictureDecoder.decode (decoder v) (up_text token) in
      picture ← r;
      match picture with
      | None => Raise (at_ ExpectedPicture token)
      | Some p =>
          n ← the_node v;
          Return (Continue (mkVars S_CLAUSE (level v) (Some (set_node_picture n p)) lx
                                   (node_list v)) false)
      end
  | S_VALUE =>
      vt ← value_text token;
      n ← the_node v;
      match node_picture n with
      | Some p =>
          Return (Continue (with_node (set_node_picture n (PictureDecoder.set_default p vt)) v)
                           false)
      | None =>
          if level v =? 88 then
            nxt ← peek rest;
            Return (Continue (goto (if bool_decide (enum nxt = T_PERIOD) then S_CLAUSE else S_ENUM)
                                   (with_node (set_enum_set n [vt]) v)) false)
          else Raise (pos ValueWithoutPicture token)
      end
  | S_USAGE =>
      if String.eqb (up_text token) "IS" then Return (Continue (goto S_USAGE v) false)
      else
        match decode_usage (up_text token) with
        | None => Raise (pos UnexpectedUsage token)
        | Some u =>
            n ← the_node v;
            Return (Continue (goto S_CLAUSE (with_node (set_usage n u) v)) false)
        end
  | S_ENUM =>
      vt ← value_text token;
      n ← the_node v;
      match enum_set n with
      | None => Raise AttributeError
      | Some l =>
          nxt ← peek rest;
          Return (Continue (goto (if bool_decide (enum nxt = T_PERIOD) then S_CLAUSE else S_ENUM)
                                 (with_node (set_enum_set n (l ++ [vt])) v)) false)
      end
  | S_INDEXED =>
      if String.eqb (text token) "BY" then Return (Continue (goto S_INDEXED v) false)
      else if bool_decide (enum token = T_TEXT) then
        n ← the_node v;
        Return (Continue (goto S_CLAUSE (with_node (set_indexed_by n (text token)) v)) false)
      else Raise (pos InvalidIndexedBy token)
  end.

(** The [while token_idx < len(tokens)] loop of [consume] over
    [tokens[token_idx:]]; the value is [node_list] when [consume] returns. *)
Fixpoint loop (toks : list Token) (skip : bool) (v : Vars) : result (list Node) :=
  match toks with
  | [] => Return (node_list v)
  | token :: rest =>
      if skip then loop rest false v
      else
        match pass v token rest with
        | Return Finished => Return (node_list v)
        | Return (Continue v' sk) => loop rest sk v'
        | Raise e => Raise e
        | Stuck => Stuck
        end
  end.

Definition init : Vars := mkVars S_START 0 None Lexer.new [].

End Parse.

Definition parse_copybook (copybook : string) : result (list Node) :=
  tokens ← tokenize copybook;
  Parse.loop tokens false Parse.init.

(** *** build_node_tree

    [TreeNode] objects live in a store: the handle of an object is its index,
    a new object goes to the end, and [parent] and [children] hold handles
    ([None] is Python's [None]). *)
Record TreeNode : Type := mkTreeNode {
  node : Node;
  parent : option nat;
  children : list nat
}.

Module Build.

(** The store and the variable [ptr]; [root] is handle 0. *)
Record Vars : Type := mkVars { store : list TreeNode; ptr : nat }.

Definition root : nat := 0%nat.

Definition deref (st : list TreeNode) (h : nat) : result TreeNode :=
  match st !! h with
  | Some t => Return t
  | None => Stuck
  end.

Definition level_of (t : TreeNode) : Z := node_level (node t).

(** [new_node = TreeNode(n, p); p.append(new_node); ptr = new_node];
    [append] on [None] raises [AttributeError]. *)
Definition attach (st : list TreeNode) (n : Node) (p : option nat) : result Vars :=
  match p with
  | None => Raise AttributeError
  | Some h =>
      pt ← deref st h;
      let new := List.length st in
      Return (mkVars (<[h := mkTreeNode (node pt) (parent pt) (children pt ++ [new])]> st
                        ++ [mkTreeNode n p []])
                     new)
  end.

(** [while search.node.node_level != 0 and search.node.node_level != lvl:
    search = search.parent]; the value is [search] after the loop. *)
Fixpoint walk (fuel : nat) (st : list TreeNode) (search : option nat) (lvl : Z)
  : result nat :=
  match fuel with
  | O => Stuck
  | S fuel' =>
      match search with
      | None => Raise AttributeError
      | Some h =>
          t ← deref st h;
          if negb (level_of t =? 0) && negb (level_of t =? lvl)
          then walk fuel' st (parent t) lvl
          else Return h
      end
  end.

(** The body of the [for node in node_list] loop.  A walk passes every
    object of the store at most once. *)
Definition step (v : Vars) (n : Node) : result Vars :=
  p ← deref (store v) (ptr v);
  if level_of p <? node_level n then attach (store v) n (Some (ptr v))
  else if node_level n =? level_of p then attach (store v) n (parent p)
  else
    search ← walk (List.length (store v)) (store v) (parent p) (node_level n);
    s ← deref (store v) search;
    if level_of s =? 0
    then Raise (CopybookException
                  (CouldNotFindParent (node_name n) (node_level n)
                                      (node_name (node p)) (level_of p)))
    else attach (store v) n (parent s).

Fixpoint run (node_list : list Node) (v : Vars) : result Vars :=
  match node_list with
  | [] => Return v
  | n :: rest => v' ← step v n; run rest v'
  end.

(** [root = TreeNode(Node('Root', 0, N_RECORD), None); ptr = root] *)
Definition init : Vars := mkVars [mkTreeNode (new_node "Root" 0 N_RECORD) None []] root.

End Build.

(** The returned [root], as the store it lives in. *)
Definition build_node_tree (node_list : list Node) : result (list TreeNode) :=
  v ← Build.run node_list Build.init;
  Return (Build.store v).


(** *** load_file

    The loop of [load_file] over the list that [reader.readlines()] gives;
    opening and reading the file are outside the model. *)

(** [s.rstrip()] *)
Definition rstrip (s : string) : string :=
  Py.rev_onto (Py.lstrip (Py.rev_onto s EmptyString)) EmptyString.

(** [s[n]] *)
Definition char_at (n : nat) (s : string) : result ascii :=
  match String.get n s with
  | Some c => Return c
  | None => Raise IndexError
  end.

(** One pass of the loop: [s] after the line. *)
Definition load_line (s line : string) : result string :=
  c ← char_at 6 line;
  if Ascii.eqb c "*" then Return (s +:+ String "010" EmptyString)
  else Return (s +:+ ("       " +:+ rstrip (Py.take 65 (Py.drop 7 line))
                      +:+ String "010" EmptyString)).

Fixpoint load_lines (lines : list string) (s : string) : result string :=
  match lines with
  | [] => Return s
  | line :: rest => s' ← load_line s line; load_lines rest s'
  end.

Definition load_file (lines : list string) : result string := load_lines lines EmptyString.

(** *** Node.to_dict *)

(** The values that [to_dict] stores. *)
Inductive Value : Type :=
| VInt (z : Z)
| VStr (s : string)
| VBool (b : bool).

(** [_UsageType.value] *)
Definition usage_value (u : UsageType) : string :=
  match u with
  | U_NONE => "none"
  | U_PACKED => "packed"
  | U_DISPLAY => "display"
  | U_BINARY => "binary"
  end.

(** [sep.join(l)] *)
Fixpoint join_with (sep : string) (l : list string) : string :=
  match l with
  | [] => EmptyString
  | [x] => x
  | x :: r => x +:+ sep +:+ join_with sep r
  end.

(** [output.update({k: v})] when the string [s] is truthy. *)
Definition update_if_str (k : string) (s : option string) (output : gmap string Value)
  : gmap string Value :=
  match s with
  | Some (String c r) => <[k := VStr (String c r)]> output
  | _ => output
  end.

(** [Node.to_dict]: [self.node_picture.length] of [None] raises
    [AttributeError], [','.join(None)] raises [TypeError]. *)
Definition Node_to_dict (n : Node) : result (gmap string Value) :=
  let output : gmap string Value := {["level" := VInt (node_level n)]} in
  output ←
    match node_type n with
    | N_RECORD => Return (<["type" := VStr "record"]> output)
    | N_PICTURE =>
        match node_picture n with
        | None => Raise AttributeError
        | Some p =>
            let output := <["length" := VInt (length p)]> output in
            let output := match default p with
                          | EmptyString => output
                          | d => <["length" := VStr d]> output
                          end in
            let output :=
              match picture_type p with
              | P_STRING => <["type" := VStr "string"]> output
              | P_NUMERIC =>
                  let output := <["signed" := VBool (signed p)]>
                                  (<["type" := VStr "numeric"]> output) in
                  if scale p =? 0 then output else <["scale" := VInt (scale p)]> output
              | P_NONE => output
              end in
            Return match usage n with
                   | U_NONE => output
                   | u => <["usage" := VStr (usage_value u)]> output
                   end
        end
    | N_ENUM =>
        match enum_set n with
        | None => Raise TypeError
        | Some l =>
            Return (<["values" := VStr (join_with "," l)]> (<["type" := VStr "enum"]> output))
        end
    | N_NONE => Return output
    end;
  let output := if 1 <? occurs n then <["occurs" := VInt (occurs n)]> output else output in
  let output := update_if_str "redefines" (redefines n) output in
  let output := update_if_str "indexed_by" (indexed_by n) output in
  Return output.
End copybook.

Import picture copybook.

(** * Definitions used by the statements *)

Definition nl : string := String "010" EmptyString.

(** The three-line copybook of the specification. *)
Definition sample_copybook : string :=
  "01 REC." +:+ nl +:+ "  05 FIELD-A PIC X(10)." +:+ nl
  +:+ "  05 FIELD-B PIC 9(5)V99 USAGE COMP-3.".

(** [len(m.group(0))] of an entry of [matched]. *)
Definition match_len {E : Type} (rm : Lexer.Rule E * Re.Match) : nat := Py.len (Re.whole rm.2).

(** The tokens of "9(05)" under the picture rules. *)
Definition tokens_9_05 : list PictureDecoder.Token :=
  [ Lexer.mkToken PictureDecoder.T_9 "9" 1 1;
    Lexer.mkToken PictureDecoder.T_LEN "05" 1 2;
    Lexer.mkToken PictureDecoder.T_EOL "<EOF>" 1 2 ].

(** *** The tokenizer, in the words of the specification *)

Definition kind_text (t : Token) : TokenEnum * string := (enum t, text t).

(** A finished run of token characters; nothing for an empty run. *)
Definition run_of (cur : string) : list (TokenEnum * string) :=
  match cur with
  | EmptyString => []
  | _ => [(T_TEXT, cur)]
  end.

(** TEXT tokens are the maximal runs of characters that are neither blank
    nor a period, and every period is a PERIOD token of its own; [cur] is
    the run that the characters read so far have begun. *)
Fixpoint text_runs_from (s cur : string) : list (TokenEnum * string) :=
  match s with
  | EmptyString => run_of cur
  | String c r =>
      if Tokenize.is_blank c then run_of cur ++ text_runs_from r EmptyString
      else if Tokenize.is_period c
           then run_of cur ++ (T_PERIOD, ".") :: text_runs_from r EmptyString
      else text_runs_from r (cur +:+ String c EmptyString)
  end.


Fixpoint count_newlines (s : string) : Z :=
  match s with
  | EmptyString => 0
  | String c r => (if Tokenize.is_newline c then 1 else 0) + count_newlines r
  end.



(** Two lines, "A" and "B". *)
Definition two_lines : string := "A" +:+ nl +:+ "B".

(** What is still to come out of state [v] on the text [s]: in [S_WS] the
    run in [s_token] is over, in [S_START] it may go on. *)
Definition pending (v : Tokenize.Vars) (s : string) : list (TokenEnum * string) :=
  match Tokenize.v_state v with
  | Tokenize.S_WS => run_of (Tokenize.s_token v) ++ text_runs_from s EmptyString
  | _ => text_runs_from s (Tokenize.s_token v)
  end.

Definition live (v : Tokenize.Vars) : Prop :=
  Tokenize.v_state v = Tokenize.S_START \/ Tokenize.v_state v = Tokenize.S_WS.


(** *** The tree under construction *)

(** The state that [attach] leaves: the new object at the end of the store,
    its handle appended to the children of [g] (whose object is [tg]), and
    [ptr] on the new object. *)
Definition attached (st : list TreeNode) (n : Node) (g : nat) (tg : TreeNode) : Build.Vars :=
  Build.mkVars
    (<[g := mkTreeNode (node tg) (parent tg) (children tg ++ [List.length st])]> st
       ++ [mkTreeNode n (Some g) []])
    (List.length st).

(** What every state of the builder satisfies: handle 0 is the synthetic
    root; [ptr] is an object without children; every other object has an
    earlier object of lower level as its parent and is among that parent's
    children; every child points back to its parent; the children of one
    object have one level. *)
Record wf (v : Build.Vars) : Prop := mk_wf {
  wf_root : exists cs,
    Build.store v !! Build.root = Some (mkTreeNode (new_node "Root" 0 N_RECORD) None cs);
  wf_ptr : is_Some (Build.store v !! Build.ptr v);
  wf_leaf : forall t, Build.store v !! Build.ptr v = Some t -> children t = [];
  wf_parent : forall h t,
    Build.store v !! h = Some t -> h <> Build.root ->
    exists p pt, parent t = Some p /\ (p < h)%nat /\ Build.store v !! p = Some pt
                 /\ Build.level_of pt < Build.level_of t /\ h ∈ children pt;
  wf_children : forall h t c,
    Build.store v !! h = Some t -> c ∈ children t ->
    exists tc, Build.store v !! c = Some tc /\ parent tc = Some h;
  wf_siblings : forall h t c1 c2 t1 t2,
    Build.store v !! h = Some t -> c1 ∈ children t -> c2 ∈ children t ->
    Build.store v !! c1 = Some t1 -> Build.store v !! c2 = Some t2 ->
    Build.level_of t1 = Build.level_of t2
}.

(** The TreeNode invariant of the specification on a returned store: one
    synthetic level-0 root without parent at handle 0, under which every
    other object hangs (its parent is an earlier object that lists it as a
    child); the children of an object are objects of strictly greater level;
    the children of one object share one level. *)
Definition tree_invariant (st : list TreeNode) : Prop :=
  (exists cs, st !! Build.root = Some (mkTreeNode (new_node "Root" 0 N_RECORD) None cs))
  /\ (forall h t, st !! h = Some t -> h <> Build.root ->
        exists p pt, parent t = Some p /\ (p < h)%nat /\ st !! p = Some pt /\ h ∈ children pt)
  /\ (forall h t c, st !! h = Some t -> c ∈ children t ->
        exists tc, st !! c = Some tc /\ parent tc = Some h
                   /\ Build.level_of t < Build.level_of tc)
  /\ (forall h t c1 c2 t1 t2,
        st !! h = Some t -> c1 ∈ children t -> c2 ∈ children t ->
        st !! c1 = Some t1 -> st !! c2 = Some t2 ->
        Build.level_of t1 = Build.level_of t2).

(** The ancestors of [h], nearest first: its parent, the parent's parent,
    and so on up to the root. *)
Fixpoint ancestors (fuel : nat) (st : list TreeNode) (h : nat) : list nat :=
  match fuel with
  | O => []
  | S fuel' =>
      match st !! h with
      | Some t =>
          match parent t with
          | Some p => p :: ancestors fuel' st p
          | None => []
          end
      | None => []
      end
  end.



(** The node lists of the examples: levels 1, 5, 10, and levels 1, 5, 5. *)
Definition node_of_level (l : Z) : Node := new_node "N" l N_RECORD.
Definition levels_1_5_5 : list Node := [node_of_level 1; node_of_level 5; node_of_level 5].


(** The tree of levels 1, 5, 5. *)
Definition tree_1_5_5 : list TreeNode :=
  Eval cbv in
    match build_node_tree levels_1_5_5 with
    | Return st => st
    | _ => []
    end.


(** *** Line and column of an offset, counted directly *)

(** The line and column of offset [k] of [s] when the text starts at
    [(line, col)]: a newline ends its line, and the character after it is at
    column 1 of the next line. *)
Fixpoint locate (s : string) (k : nat) (line col : Z) : Z * Z :=
  match k, s with
  | S k', String c r =>
      if Ascii.eqb c "010" then locate r k' (line + 1) 1 else locate r k' line (col + 1)
  | _, _ => (line, col)
  end.

(** The children of every object of the store are handles of the store in
    strictly increasing order. *)
Definition children_in_order (st : list TreeNode) : Prop :=
  forall h t, st !! h = Some t ->
    StronglySorted lt (children t) /\ Forall (fun c => (h < c < List.length st)%nat) (children t).

(** *** Tokens of the picture lexer *)

Fixpoint all_chars (p : ascii -> bool) (s : string) : bool :=
  match s with
  | EmptyString => true
  | String c r => p c && all_chars p r
  end.

(** The piece of the picture that a token stands for: a count token stands
    for its digits in parentheses, the end marker for nothing. *)
Definition source_text (t : PictureDecoder.Token) : string :=
  match Lexer.t_enum t with
  | PictureDecoder.T_LEN => "(" +:+ Lexer.text t +:+ ")"
  | PictureDecoder.T_EOL => EmptyString
  | _ => Lexer.text t
  end.

(** What the rules allow as the text of a token: a non-empty run of X or x,
    a non-empty run of 9, the letter V or S, the digits of a count. *)
Definition token_ok (t : PictureDecoder.Token) : bool :=
  match Lexer.t_enum t with
  | PictureDecoder.T_X =>
      negb (String.eqb (Lexer.text t) "") && all_chars PictureDecoder.is_X (Lexer.text t)
  | PictureDecoder.T_9 =>
      negb (String.eqb (Lexer.text t) "") && all_chars PictureDecoder.is_9 (Lexer.text t)
  | PictureDecoder.T_V => String.eqb (Lexer.text t) "V"
  | PictureDecoder.T_S => String.eqb (Lexer.text t) "S"
  | PictureDecoder.T_LEN =>
      negb (String.eqb (Lexer.text t) "") && all_chars Py.is_digit (Lexer.text t)
  | PictureDecoder.T_EOL => String.eqb (Lexer.text t) "<EOF>"
  end.

Definition is_eol (t : PictureDecoder.Token) : bool :=
  bool_decide (Lexer.t_enum t = PictureDecoder.T_EOL).

(** The pieces of all tokens, one after the other. *)
Definition source_of (toks : list PictureDecoder.Token) : string :=
  foldr String.append EmptyString (source_text <$> toks).

Definition body_token (t : PictureDecoder.Token) : bool := negb (is_eol t) && token_ok t.

(** *** What a decoded picture satisfies *)

(** A kind has been determined; the scale is not negative and not greater
    than the length; no default; a string picture has no scale and no
    sign. *)
Definition picture_ok (p : Picture) : Prop :=
  picture_type p <> P_NONE
  /\ 0 <= scale p <= length p
  /\ default p = ""
  /\ (picture_type p = P_STRING -> scale p = 0 /\ signed p = false).

(** What the decoder keeps between two passes, state by state. *)
Definition decode_inv (st : PictureDecoder.DState) (p : Picture) : Prop :=
  default p = "" /\ 0 <= length p /\
  match st with
  | PictureDecoder.T_BEGIN =>
      length p = 0 /\ scale p = 0 /\ picture_type p <> P_STRING
      /\ (picture_type p = P_NONE -> signed p = false)
  | PictureDecoder.T_SINGLE_X =>
      picture_type p = P_STRING /\ scale p = 0 /\ signed p = false
  | PictureDecoder.T_SINGLE_9 | PictureDecoder.T_WAIT_FIXED_POINT =>
      picture_type p = P_NUMERIC /\ scale p = 0
  | PictureDecoder.T_WAIT_EOL => picture_ok p
  | PictureDecoder.T_MULTI_X | PictureDecoder.T_MULTI_9 => False
  end.

(** The input a [Parser] has still to read: the look-ahead token and the
    tokens from [token_ptr] on. *)
Definition remaining {E : Type} (p : Parser.State E) : list (Lexer.Token E) :=
  match Parser.next_token p with
  | Some t => t :: drop (Parser.token_ptr p) (Parser.tokens p)
  | None => []
  end.

(** The text without its blanks (space, tab, newline). *)
Fixpoint remove_blanks (s : string) : string :=
  match s with
  | EmptyString => EmptyString
  | String c r => if Tokenize.is_blank c then remove_blanks r else String c (remove_blanks r)
  end.

(** [''.join(l)] *)
Definition join (l : list string) : string := foldr String.append EmptyString l.

(** A character of a word: neither blank nor period. *)
Definition word_char (c : ascii) : bool :=
  negb (Tokenize.is_blank c) && negb (Tokenize.is_period c).

(** A token of the copybook tokenizer before the end marker: a word or a
    period. *)
Definition word_or_period (t : Token) : Prop :=
  (enum t = T_TEXT /\ text t <> EmptyString /\ all_chars word_char (text t) = true)
  \/ (enum t = T_PERIOD /\ text t = ".").

(** The same, of a kind and a text. *)
Definition run_ok (p : TokenEnum * string) : Prop :=
  (p.1 = T_TEXT /\ p.2 <> EmptyString /\ all_chars word_char p.2 = true)
  \/ p = (T_PERIOD, ".").

(** What holds of a node while the parser fills it in: a name, a level and
    an occurs count that are not negative, a picture as the decoder makes
    it with no default, and values only on level 88. *)
Definition node_ok (n : Node) : Prop :=
  node_name n <> EmptyString /\ 0 <= node_level n /\ 0 <= occurs n
  /\ (forall p, node_picture n = Some p -> picture_ok p)
  /\ (forall l, enum_set n = Some l -> l <> [] /\ node_level n = 88).

(** A node of the result: its type tells what it holds. *)
Definition listed_ok (n : Node) : Prop :=
  node_ok n
  /\ node_type n = match node_picture n, enum_set n with
                   | Some _, _ => N_PICTURE
                   | None, Some _ => N_ENUM
                   | None, None => N_RECORD
                   end.

(** The invariant of the loop of [consume].  After VALUE the node keeps the
    properties only as long as it has no picture. *)
Definition parse_inv (v : Parse.Vars) : Prop :=
  Forall listed_ok (Parse.node_list v) /\ 0 <= Parse.level v /\
  match Parse.state v with
  | Parse.S_START | Parse.S_SENTENCE => True
  | Parse.S_VALUE =>
      exists n, Parse.node v = Some n
                /\ (node_picture n = None -> node_ok n /\ node_level n = Parse.level v)
  | Parse.S_ENUM =>
      exists n, Parse.node v = Some n /\ node_ok n /\ node_level n = Parse.level v
                /\ is_Some (enum_set n)
  | _ => exists n, Parse.node v = Some n /\ node_ok n /\ node_level n = Parse.level v
  end.

(** The exceptions that [parse_copybook] lets out. *)
Definition parser_error (e : exn) : Prop :=
  (exists m, e = CopybookException m /\ m <> UnhandledState
             /\ forall a b c d, m <> CouldNotFindParent a b c d)
  \/ e = ValueError \/ e = IndexError \/ (exists ln cl s, e = ParserError ln cl s).

Definition not_newline (c : ascii) : bool := negb (Tokenize.is_newline c).

(** A line as [readlines] gives it: no newline but, possibly, the last
    character. *)
Fixpoint one_line (l : string) : bool :=
  match l with
  | EmptyString => true
  | String c EmptyString => true
  | String c r => not_newline c && one_line r
  end.

(** The node of the entry [05 A PIC X(3).] *)
Definition sample_field : Node :=
  mkNode "A" N_PICTURE 5 None 1 (Some (mkPicture P_STRING 3 0 "" false)) U_NONE None None.

(** A count with more digits than [int] accepts. *)
Definition long_count (t : PictureDecoder.Token) : Prop :=
  Lexer.t_enum t = PictureDecoder.T_LEN
  /\ (Py.int_max_str_digits < Py.len (Lexer.text t))%nat.

(** *** Where and when the tokenizer emits its tokens *)
















(** * Properties *)

(** ** The PICTURE decoder and the parser on concrete texts *)

(** C1, as the claim states it, fails: [decodePicture "XQ"] does not return
    [None]. *)
Lemma decodePicture_XQ_not_none : decodePicture "XQ" <> Return None.
Proof. vm_compute. discriminate. Qed.

(** C1 (amended): on "XQ" the lexer finds no rule for "Q" at line 1, column 2
    and raises its [ParserError], which [decode] lets through.  A picture
    whose tokens form no legal combination of the state machine, such as
    "X9", decodes to [None], and the parser turns that into its
    "Expected PICTURE definition" error at the position of the token. *)
Theorem decodePicture_XQ_raises :
  decodePicture "XQ" = Raise (ParserError 1 2 "Q")
  /\ decodePicture "X9" = Return None
  /\ parse_copybook "01 A PIC X9."
     = Raise (CopybookException (ExpectedPicture "X9" 1 12)).
Proof. repeat split; vm_compute; reflexivity. Qed.

(** The [ParserError] of the lexer leaves [parse_copybook] as it is. *)
Lemma parse_copybook_XQ : parse_copybook "01 A PIC XQ." = Raise (ParserError 1 2 "Q").
Proof. vm_compute. reflexivity. Qed.

(** C2: "X(20)" decodes to a string of length 20, "S9(5)V99" to a signed
    numeric of length 7 and scale 2, "V9(02)" to a numeric of length 2 and
    scale 2. *)
Theorem decodePicture_samples :
  decodePicture "X(20)" = Return (Some (mkPicture P_STRING 20 0 "" false))
  /\ decodePicture "S9(5)V99" = Return (Some (mkPicture P_NUMERIC 7 2 "" true))
  /\ decodePicture "V9(02)" = Return (Some (mkPicture P_NUMERIC 2 2 "" false)).
Proof. repeat split; vm_compute; reflexivity. Qed.

(** ** The copybook parser on concrete texts *)

(** C3: the sample copybook parses to exactly three nodes in source order:
    REC (level 1, record), FIELD-A (level 5, string of length 10) and FIELD-B
    (level 5, numeric of length 7 and scale 2, packed usage). *)
Theorem parse_copybook_sample :
  parse_copybook sample_copybook
  = Return
      [ mkNode "REC" N_RECORD 1 None 1 None U_NONE None None;
        mkNode "FIELD-A" N_PICTURE 5 None 1
               (Some (mkPicture P_STRING 10 0 "" false)) U_NONE None None;
        mkNode "FIELD-B" N_PICTURE 5 None 1
               (Some (mkPicture P_NUMERIC 7 2 "" false)) U_PACKED None None ].
Proof. vm_compute. reflexivity. Qed.

(** C5: on the level-88 entry [88 FLAG VALUE 'Y' N.] the quoted literal is
    stored with its quote characters ([group(0)] of [re_string] is the
    whole match), next to the unquoted literal, which is stored as it is. *)
Theorem parse_copybook_keeps_quotes :
  parse_copybook "88 FLAG VALUE 'Y' N."
  = Return [ mkNode "FLAG" N_ENUM 88 None 1 None U_NONE (Some ["'Y'"; "N"]) None ].
Proof. vm_compute. reflexivity. Qed.

(** C9: a token that starts with digits and goes on with other characters
    passes the prefix match of [re_int], and [int] of its whole text raises
    [ValueError], which is no [CopybookException] and has no position: in
    level-number position ("01A REC.") and in occurs-count position
    ("01 REC OCCURS 3X."). *)
Theorem parse_copybook_value_error :
  parse_copybook "01A REC." = Raise ValueError
  /\ parse_copybook "01 REC OCCURS 3X." = Raise ValueError.
Proof. split; vm_compute; reflexivity. Qed.

(** ** Longest match in the lexer engine *)

Section LongestMatch.
Context {E : Type}.
Implicit Types (matched : list (Lexer.Rule E * Re.Match)) (rules : list (Lexer.Rule E)).

(** The loop over [matched] either keeps [index] because nothing is longer
    than [ln], or ends at the first entry of maximal length. *)
Lemma longest_from_spec matched (i ln index : nat) :
  (Lexer.longest_from matched i ln index = index
   /\ Forall (fun rm => (match_len rm <= ln)%nat) matched)
  \/ (exists k rm,
        Lexer.longest_from matched i ln index = (i + k)%nat
        /\ matched !! k = Some rm
        /\ (ln < match_len rm)%nat
        /\ Forall (fun rm' => (match_len rm' <= match_len rm)%nat) matched
        /\ forall k' rm', (k' < k)%nat -> matched !! k' = Some rm' ->
                          (match_len rm' < match_len rm)%nat).
Proof.
  revert i ln index.
  induction matched as [|[r0 m0] rest IH]; intros i ln index; simpl.
  - left. split; [reflexivity | constructor].
  - destruct (Nat.ltb_spec ln (Py.len (Re.whole m0))) as [Hlt|Hge].
    + destruct (IH (S i) (Py.len (Re.whole m0)) i) as [[Heq Hall]|(k & rm & Heq & Hk & Hln & Hall & Hfirst)].
      * right. exists 0%nat, (r0, m0). rewrite Nat.add_0_r.
        repeat split; [exact Heq | exact Hlt | | intros k' rm' Hk'; lia].
        constructor; [unfold match_len; simpl; lia | exact Hall].
      * right. exists (S k), rm. 
        repeat split; [rewrite Heq; lia | exact Hk | lia | |].
        -- constructor; [unfold match_len in *; simpl in *; lia | exact Hall].
        -- intros [|k'] rm' Hk' Hlook; simpl in Hlook.
           ++ inversion Hlook; subst. unfold match_len in *; simpl in *; lia.
           ++ apply (Hfirst k'); [lia | exact Hlook].
    + destruct (IH (S i) ln index) as [[Heq Hall]|(k & rm & Heq & Hk & Hln & Hall & Hfirst)].
      * left. split; [exact Heq|].
        constructor; [unfold match_len; simpl; lia | exact Hall].
      * right. exists (S k), rm.
        repeat split; [rewrite Heq; lia | exact Hk | exact Hln | |].
        -- constructor; [unfold match_len in *; simpl in *; lia | exact Hall].
        -- intros [|k'] rm' Hk' Hlook; simpl in Hlook.
           ++ inversion Hlook; subst. unfold match_len in *; simpl in *; lia.
           ++ apply (Hfirst k'); [lia | exact Hlook].
Qed.

(** On a non-empty [matched], [matched[index]] exists, no match is longer,
    and every earlier match is strictly shorter. *)
Lemma longest_spec matched :
  matched <> [] ->
  exists rm, matched !! Lexer.longest matched = Some rm
    /\ Forall (fun rm' => (match_len rm' <= match_len rm)%nat) matched
    /\ forall k' rm', (k' < Lexer.longest matched)%nat -> matched !! k' = Some rm' ->
                      (match_len rm' < match_len rm)%nat.
Proof.
  intros Hne. unfold Lexer.longest.
  destruct (longest_from_spec matched 0 0 0) as [[Heq Hall]|(k & rm & Heq & Hk & Hln & Hall & Hfirst)].
  - rewrite Heq. destruct matched as [|rm rest]; [congruence|].
    exists rm. repeat split; [| intros; lia].
    eapply Forall_impl; [exact Hall|]. intros x Hx; simpl in Hx. lia.
  - rewrite Heq. simpl. exists rm. repeat split; assumption.
Qed.

End LongestMatch.

(** [omap] keeps the order of the list it filters. *)
Lemma omap_lookup_order {A B} (f : A -> option B) (l : list A) (k : nat) (y : B) :
  omap f l !! k = Some y ->
  exists i x, l !! i = Some x /\ f x = Some y
    /\ forall j x' y', l !! j = Some x' -> f x' = Some y' ->
         exists k', omap f l !! k' = Some y' /\ ((j < i)%nat -> (k' < k)%nat) /\ (j = i -> k' = k).
Proof.
  revert k. induction l as [|a l IH]; intros k Hk; simpl in Hk; [discriminate|].
  destruct (f a) as [b|] eqn:Hfa.
  - destruct k as [|k1]; simpl in Hk.
    + inversion Hk; subst b. exists 0%nat, a. repeat split; [assumption|].
      intros [|j'] x' y' Hj Hf; simpl in Hj.
      * inversion Hj; subst x'. exists 0%nat. simpl. rewrite Hfa. simpl.
        split; [congruence | split; [lia | reflexivity]].
      * assert (Hin : exists k'', omap f l !! k'' = Some y').
        { clear -Hj Hf. revert j' Hj. induction l as [|a' l IH]; intros j' Hj; [destruct j'; discriminate|].
          simpl. destruct j' as [|j'']; simpl in Hj.
          - inversion Hj; subst a'. rewrite Hf. exists 0%nat. reflexivity.
          - destruct (IH _ Hj) as [k'' Hk'']. destruct (f a').
            + exists (S k''). exact Hk''.
            + exists k''. exact Hk''. }
        destruct Hin as [k'' Hk'']. exists (S k''). simpl. rewrite Hfa. simpl.
        split; [exact Hk'' | split; [lia | lia]].
    + destruct (IH _ Hk) as (i1 & x & Hi1 & Hfx & Hord).
      exists (S i1), x. repeat split; [exact Hi1 | exact Hfx |].
      intros [|j'] x' y' Hj Hf; simpl in Hj.
      * inversion Hj; subst x'. exists 0%nat. simpl. rewrite Hfa. simpl.
        split; [congruence | split; [lia | lia]].
      * destruct (Hord _ _ _ Hj Hf) as (k' & Hk' & Hlt & Heq).
        exists (S k'). simpl. rewrite Hfa. simpl. split; [exact Hk' | split; lia].
  - destruct (IH _ Hk) as (i1 & x & Hi1 & Hfx & Hord).
    exists (S i1), x. repeat split; [exact Hi1 | exact Hfx |].
    intros [|j'] x' y' Hj Hf; simpl in Hj.
    + inversion Hj; subst x'. congruence.
    + destruct (Hord _ _ _ Hj Hf) as (k' & Hk' & Hlt & Heq).
      exists k'. simpl. rewrite Hfa. split; [exact Hk' | split; lia].
Qed.

(** Every offset of the data lies on one of the lines of [break_lines], so
    the unpacking of [find_line_col] in [parse] cannot fail. *)
Lemma find_line_col_break_lines (s : string) :
  forall cur_line cur_start index pos,
    cur_start <= pos -> pos < index + Z.of_nat (Py.len s) ->
    is_Some (@Lexer.find_line_col (Lexer.break_lines_from cur_line cur_start index s) pos).
Proof.
  induction s as [|c r IH]; intros cur_line cur_start index pos Hlo Hhi; simpl in *.
  - destruct (Z.leb_spec cur_start pos); [|lia].
    destruct (Z.leb_spec pos (index - 1)); [|lia]. simpl. eexists; reflexivity.
  - destruct (Ascii.eqb c "010"); simpl.
    + destruct (Z.leb_spec cur_start pos); [|lia].
      destruct (Z.leb_spec pos index); simpl; [eexists; reflexivity|].
      apply IH; lia.
    + apply IH; lia.
Qed.

(** C6: at an offset of the data where some rule matches, a pass of the
    lexer takes the match of a rule that no matching rule beats in length
    and that every matching rule registered earlier falls short of; the pass
    is the emission of the token of that rule (none for a whitespace or
    comment rule) with the line and column of the offset, and the advance by
    the length of that match.  Under the picture rules "9(05)" becomes one
    digit-run token, one count token "05" and the end marker, and decodes to
    length 5. *)
Theorem lexer_longest_match :
  (forall (E : Type) (rules : list (Lexer.Rule E)) d (pos : nat) toks,
      (pos < Py.len d)%nat ->
      (exists j r' p' m',
          rules !! j = Some r' /\ Lexer.pattern r' = Some p'
          /\ p' (Py.drop pos d) = Some m') ->
      exists i r p m ln cl,
        rules !! i = Some r
        /\ Lexer.pattern r = Some p
        /\ p (Py.drop pos d) = Some m
        /\ (forall j r' p' m',
              rules !! j = Some r' -> Lexer.pattern r' = Some p' ->
              p' (Py.drop pos d) = Some m' ->
              (Py.len (Re.whole m') <= Py.len (Re.whole m))%nat
              /\ ((j < i)%nat -> (Py.len (Re.whole m') < Py.len (Re.whole m))%nat))
        /\ Lexer.find_line_col (Lexer.break_lines d) (Z.of_nat pos) = Some (ln, cl)
        /\ Lexer.step rules (Lexer.break_lines d) d pos toks
           = (toks' ← (if Lexer.is_ws r || Lexer.is_comment r then Return toks
                       else t ← Re.group m (Lexer.group r);
                            Return (toks ++ [Lexer.mkToken (Lexer.enum r) t ln cl]));
              Return (toks', (pos + Py.len (Re.whole m))%nat)))
  /\ Lexer.parse PictureDecoder.rules Lexer.new "9(05)"
     = (Return (Some tokens_9_05), Lexer.mkState (Some "9(05)") tokens_9_05)
  /\ decodePicture "9(05)" = Return (Some (mkPicture P_NUMERIC 5 0 "" false)).
Proof.
  split; [| split; vm_compute; reflexivity].
  intros E rules d pos toks Hpos (j0 & r0 & p0 & m0 & Hj0 & Hp0 & Hm0).
  destruct (find_line_col_break_lines d 1 0 0 (Z.of_nat pos)) as [[ln cl] Hlc]; [lia | lia |].
  fold (Lexer.break_lines d) in Hlc.
  set (matched := Lexer.matches rules (Py.drop pos d)).
  assert (Hne : matched <> []).
  { assert (Hin : (r0, m0) ∈ matched).
    { unfold matched, Lexer.matches. apply list_elem_of_omap.
      exists r0. split; [apply list_elem_of_lookup; exists j0; exact Hj0|].
      rewrite Hp0, Hm0. reflexivity. }
    intros Hnil. rewrite Hnil in Hin. inversion Hin. }
  destruct (longest_spec matched Hne) as ([r m] & Hlook & Hall & Hfirst).
  pose proof Hlook as Hlook'.
  unfold matched, Lexer.matches in Hlook'.
  destruct (omap_lookup_order _ _ _ _ Hlook') as (i & r1 & Hi & Hf & Hord).
  destruct (Lexer.pattern r1) as [p|] eqn:Hp; [|discriminate].
  destruct (p (Py.drop pos d)) as [m1|] eqn:Hm; [|discriminate].
  inversion Hf; subst r1 m1; clear Hf.
  exists i, r, p, m, ln, cl.
  split; [exact Hi|]. split; [exact Hp|]. split; [exact Hm|]. split; [|split; [exact Hlc|]].
  - intros j r' p' m' Hj Hp' Hm'.
    destruct (Hord j r' (r', m')) as (k' & Hk' & Hlt & _); [exact Hj | rewrite Hp', Hm'; reflexivity |].
    split.
    + rewrite Forall_forall in Hall.
      apply (Hall (r', m')). apply list_elem_of_lookup. exists k'. exact Hk'.
    + intros Hji. apply (Hfirst k' (r', m')); [apply Hlt; exact Hji | exact Hk'].
  - unfold Lexer.step. fold matched. rewrite Hlc.
    destruct matched as [|x xs]; [congruence|].
    rewrite Hlook. reflexivity.
Qed.

(** The pass at offset 1 of "9(05)": the count rule (index 4) wins with the
    four characters "(05)". *)
Lemma lexer_longest_match_witness :
  exists i r p m ln cl,
    PictureDecoder.rules !! i = Some r
    /\ Lexer.pattern r = Some p
    /\ p (Py.drop 1 "9(05)") = Some m
    /\ (forall j r' p' m',
          PictureDecoder.rules !! j = Some r' -> Lexer.pattern r' = Some p' ->
          p' (Py.drop 1 "9(05)") = Some m' ->
          (Py.len (Re.whole m') <= Py.len (Re.whole m))%nat
          /\ ((j < i)%nat -> (Py.len (Re.whole m') < Py.len (Re.whole m))%nat))
    /\ Lexer.find_line_col (Lexer.break_lines "9(05)") (Z.of_nat 1) = Some (ln, cl)
    /\ Lexer.step PictureDecoder.rules (Lexer.break_lines "9(05)") "9(05)" 1
                  [Lexer.mkToken PictureDecoder.T_9 "9" 1 1]
       = (toks' ← (if Lexer.is_ws r || Lexer.is_comment r
                   then Return [Lexer.mkToken PictureDecoder.T_9 "9" 1 1]
                   else t ← Re.group m (Lexer.group r);
                        Return ([Lexer.mkToken PictureDecoder.T_9 "9" 1 1]
                                  ++ [Lexer.mkToken (Lexer.enum r) t ln cl]));
          Return (toks', (1 + Py.len (Re.whole m))%nat)).
Proof.
  apply (proj1 lexer_longest_match PictureDecoder.TokenTypes PictureDecoder.rules
               "9(05)" 1%nat [Lexer.mkToken PictureDecoder.T_9 "9" 1 1]).
  - vm_compute. lia.
  - exists 4%nat. eexists. eexists. eexists.
    split; [reflexivity|]. split; [reflexivity|]. reflexivity.
Defined.

(** ** The lexer and the decoder always come to an end *)

Lemma group_not_stuck m i : Re.group m i <> Stuck.
Proof. unfold Re.group. destruct (_ !! i); discriminate. Qed.

Lemma int_not_stuck s : Py.int s <> Stuck.
Proof.
  unfold Py.int.
  destruct (match Py.int_strip s with
            | String "-" r => (-1, r)
            | String "+" r => (1, r)
            | _ => (1, Py.int_strip s)
            end) as [sign body].
  destruct (Py.int_max_str_digits <? Py.count_digits body)%nat; [discriminate|].
  destruct (Py.int_digits body 0 false); discriminate.
Qed.

Section Progress.
Context {E : Type}.
Variable rules : list (Lexer.Rule E).

(** A pass is never stuck, and when it goes on it has advanced by the length
    of one of the matches. *)
Lemma step_advances lines d pos toks :
  match Lexer.step rules lines d pos toks with
  | Return (_, pos') =>
      exists r m, (r, m) ∈ Lexer.matches rules (Py.drop pos d)
                  /\ pos' = (pos + Py.len (Re.whole m))%nat
  | Raise _ => True
  | Stuck => False
  end.
Proof.
  unfold Lexer.step.
  destruct (Lexer.find_line_col lines (Z.of_nat pos)) as [[ln cl]|]; [|exact I].
  destruct (Lexer.matches rules (Py.drop pos d)) as [|x xs] eqn:Hm; [exact I|].
  destruct ((x :: xs) !! Lexer.longest (x :: xs)) as [[r m]|] eqn:Hl; [|exact I].
  assert (Hin : (r, m) ∈ x :: xs) by (apply list_elem_of_lookup; eexists; exact Hl).
  destruct (Lexer.is_ws r || Lexer.is_comment r); simpl.
  - exists r, m. split; [exact Hin | reflexivity].
  - pose proof (group_not_stuck m (Lexer.group r)) as Hg.
    destruct (Re.group m (Lexer.group r)); simpl; [| exact I | congruence].
    exists r, m. split; [exact Hin | reflexivity].
Qed.

(** When no pattern of the rules matches the empty text, a scan with as many
    passes as characters are left comes to an end. *)
Hypothesis Hprogress :
  forall r p s m, r ∈ rules -> Lexer.pattern r = Some p -> p s = Some m ->
                  (0 < Py.len (Re.whole m))%nat.

Lemma scan_not_stuck lines d fuel : forall pos toks,
  (pos < Py.len d)%nat -> (Py.len d - pos <= fuel)%nat ->
  (Lexer.scan fuel rules lines d pos toks).1 <> Stuck.
Proof.
  induction fuel as [|f IH]; intros pos toks Hpos Hfuel; [lia|].
  simpl. pose proof (step_advances lines d pos toks) as Hadv.
  destruct (Lexer.step rules lines d pos toks) as [[toks' pos']| |]; simpl;
    [| discriminate | contradiction].
  destruct Hadv as (r & m & Hin & ->).
  unfold Lexer.matches in Hin. apply list_elem_of_omap in Hin as (r' & Hr' & Hf).
  destruct (Lexer.pattern r') as [p|] eqn:Hp; [|discriminate].
  destruct (p (Py.drop pos d)) as [m'|] eqn:Hm; [|discriminate].
  inversion Hf; subst r' m'.
  pose proof (Hprogress r p _ m Hr' Hp Hm) as Hlen.
  destruct (Nat.leb_spec (Py.len d) (pos + Py.len (Re.whole m))) as [Hend|Hmore].
  - destruct (Lexer.eof_rule rules);
      [destruct (Lexer.find_line_col lines (Z.of_nat pos)) as [[? ?]|]|]; discriminate.
  - apply IH; lia.
Qed.

Lemma parse_not_stuck lx arg : (Lexer.parse rules lx arg).1 <> Stuck.
Proof.
  unfold Lexer.parse.
  destruct (Lexer.data _) as [d|]; [|discriminate].
  destruct (Nat.ltb_spec 0 (Py.len d)) as [Hpos|_]; [|discriminate].
  pose proof (scan_not_stuck (Lexer.break_lines d) d (Py.len d) 0
                (Lexer.tokens (match arg with EmptyString => lx | _ => Lexer.mkState (Some arg) [] end))
                Hpos ltac:(lia)) as Hscan.
  destruct (Lexer.scan _ _ _ _ _ _) as [r toks]. simpl in *.
  destruct r; [discriminate | discriminate | congruence].
Qed.

End Progress.

Lemma picture_rules_progress r p s m :
  r ∈ PictureDecoder.rules -> Lexer.pattern r = Some p -> p s = Some m ->
  (0 < Py.len (Re.whole m))%nat.
Proof.
  intros Hr Hp Hm. unfold PictureDecoder.rules in Hr.
  repeat (apply elem_of_cons in Hr as [->|Hr]); [..|inversion Hr];
    simpl in Hp; inversion Hp; subst p; clear Hp.
  - unfold Re.plus in Hm. destruct (Py.span _ s) as [[|c w] rest]; inversion Hm. simpl. lia.
  - unfold Re.plus in Hm. destruct (Py.span _ s) as [[|c w] rest]; inversion Hm. simpl. lia.
  - unfold Re.lit in Hm. destruct s as [|c0 s']; [discriminate|].
    destruct (Ascii.eqb _ _); inversion Hm. simpl. lia.
  - unfold Re.lit in Hm. destruct s as [|c0 s']; [discriminate|].
    destruct (Ascii.eqb _ _); inversion Hm. simpl. lia.
  - unfold Re.delimited in Hm. destruct s as [|c0 s']; [discriminate|].
    destruct (Ascii.eqb _ c0); [|discriminate].
    destruct (Py.span _ s') as [[|c w] [|e rest]]; try discriminate.
    destruct (Ascii.eqb _ e); inversion Hm. simpl. lia.
Qed.

Lemma decode_pass_not_stuck st pic t rest : PictureDecoder.pass st pic t rest <> Stuck.
Proof.
  pose proof int_not_stuck as Hint.
  unfold PictureDecoder.pass.
  destruct st; repeat case_decide; try discriminate;
    repeat match goal with
      | |- context [Py.int ?s] =>
          let H := fresh in pose proof (Hint s) as H; destruct (Py.int s); simpl; try congruence
      | |- context [if ?b then _ else _] => destruct b; simpl; try discriminate
      | |- context [match ?l with [] => _ | _ :: _ => _ end] => destruct l; simpl; try discriminate
      end.
Qed.

Lemma decode_loop_not_stuck toks : forall skip st pic,
  PictureDecoder.loop toks skip st pic <> Stuck.
Proof.
  induction toks as [|t rest IH]; intros skip st pic; simpl; [discriminate|].
  destruct skip; [apply IH|].
  pose proof (decode_pass_not_stuck st pic t rest) as Hp.
  destruct (PictureDecoder.pass st pic t rest) as [[|st' p' sk]| |];
    [discriminate | apply IH | discriminate | congruence].
Qed.

(** [decode] returns a picture or [None], or raises: within the passes that
    [parse] allows, the scan of any text under the picture rules is over. *)
Lemma decode_not_stuck lx pic : (PictureDecoder.decode lx pic).1 <> Stuck.
Proof.
  unfold PictureDecoder.decode.
  pose proof (parse_not_stuck PictureDecoder.rules picture_rules_progress lx pic) as Hparse.
  destruct (Lexer.parse PictureDecoder.rules lx pic) as [r lx']. simpl in *.
  destruct r as [[ts|]| |]; simpl; [apply decode_loop_not_stuck | discriminate | discriminate | congruence].
Qed.

(** ** The copybook tokenizer *)




Lemma flush_tokens v :
  kind_text <$> Tokenize.v_tokens (Tokenize.flush v)
  = (kind_text <$> Tokenize.v_tokens v) ++ run_of (Tokenize.s_token v).
Proof.
  unfold Tokenize.flush. destruct (Tokenize.s_token v); simpl.
  - rewrite app_nil_r. reflexivity.
  - rewrite fmap_app. reflexivity.
Qed.

Lemma flush_fields v :
  Tokenize.s_token (Tokenize.flush v) = EmptyString
  /\ Tokenize.v_state (Tokenize.flush v) = Tokenize.v_state v
  /\ Tokenize.v_line (Tokenize.flush v) = Tokenize.v_line v
  /\ Tokenize.v_col (Tokenize.flush v) = Tokenize.v_col v.
Proof.
  unfold Tokenize.flush. destruct (Tokenize.s_token v) eqn:H; simpl; auto.
Qed.

Lemma run_refines s : forall v,
  live v ->
  exists v', Tokenize.run s v = Return v'
    /\ kind_text <$> Tokenize.finish v'
       = (kind_text <$> Tokenize.v_tokens v) ++ pending v s ++ [(T_EOF, "(eof)")].
Proof.
  induction s as [|c r IH]; intros v Hlive.
  - exists v. split; [reflexivity|].
    unfold Tokenize.finish. rewrite fmap_app, flush_tokens. simpl.
    rewrite <- app_assoc. f_equal. f_equal.
    unfold pending. destruct Hlive as [H|H]; rewrite H; simpl; [reflexivity|].
    rewrite app_nil_r. reflexivity.
  - simpl. unfold Tokenize.step, Tokenize.branch, pending.
    destruct (flush_fields v) as (Hs & Hst & _ & _).
    destruct Hlive as [H|H]; rewrite H; simpl.
    + destruct (Tokenize.is_blank c) eqn:Hb; [| destruct (Tokenize.is_period c) eqn:Hp]; simpl.
      * match goal with |- exists v', Tokenize.run r ?w = _ /\ _ =>
          destruct (IH w) as (v' & Hrun & Hfin); [right; reflexivity|] end.
        exists v'. split; [exact Hrun|]. rewrite Hfin. unfold pending. simpl.
        destruct (Tokenize.is_newline c); simpl; rewrite <- app_assoc; reflexivity.
      * match goal with |- exists v', Tokenize.run r ?w = _ /\ _ =>
          destruct (IH w) as (v' & Hrun & Hfin); [left; reflexivity|] end.
        exists v'. split; [exact Hrun|]. rewrite Hfin. unfold pending. simpl.
        rewrite fmap_app, flush_tokens, Hs. simpl.
        rewrite <- !app_assoc. reflexivity.
      * match goal with |- exists v', Tokenize.run r ?w = _ /\ _ =>
          destruct (IH w) as (v' & Hrun & Hfin); [left; reflexivity|] end.
        exists v'. split; [exact Hrun|]. rewrite Hfin. unfold pending. simpl.
        reflexivity.
    + destruct (Tokenize.is_blank c) eqn:Hb; [| destruct (Tokenize.is_period c) eqn:Hp]; simpl.
      * match goal with |- exists v', Tokenize.run r ?w = _ /\ _ =>
          destruct (IH w) as (v' & Hrun & Hfin) end.
        { right. destruct (Tokenize.is_newline c); reflexivity. }
        exists v'. split; [exact Hrun|]. rewrite Hfin. unfold pending.
        destruct (Tokenize.is_newline c); simpl; rewrite flush_tokens, Hs; simpl;
          rewrite <- !app_assoc; reflexivity.
      * match goal with |- exists v', Tokenize.run r ?w = _ /\ _ =>
          destruct (IH w) as (v' & Hrun & Hfin); [right; simpl; congruence|] end.
        exists v'. split; [exact Hrun|]. rewrite Hfin. unfold pending. simpl.
        rewrite Hst, H, fmap_app, flush_tokens, Hs. simpl.
        rewrite <- !app_assoc. reflexivity.
      * match goal with |- exists v', Tokenize.run r ?w = _ /\ _ =>
          destruct (IH w) as (v' & Hrun & Hfin); [left; reflexivity|] end.
        exists v'. split; [exact Hrun|]. rewrite Hfin. unfold pending. simpl.
        rewrite flush_tokens. rewrite <- !app_assoc. reflexivity.
Qed.







(** ** The parser always comes to an end *)

Lemma value_text_not_stuck t : Parse.value_text t <> Stuck.
Proof. unfold Parse.value_text. destruct (Parse.re_string _); [apply group_not_stuck | discriminate]. Qed.

Lemma parse_pass_not_stuck v t rest : Parse.pass v t rest <> Stuck.
Proof.
  pose proof int_not_stuck as Hint.
  pose proof (value_text_not_stuck t) as Hvt.
  pose proof (decode_not_stuck (Parse.decoder v) (up_text t)) as Hdec.
  unfold Parse.pass, Parse.the_node, Parse.peek.
  destruct (Parse.state v);
    repeat match goal with
      | |- context [Py.int ?s] =>
          let H := fresh in pose proof (Hint s) as H; destruct (Py.int s); simpl; try congruence
      | |- context [Parse.value_text t] => destruct (Parse.value_text t); simpl; try congruence
      | |- context [PictureDecoder.decode ?a ?b] =>
          destruct (PictureDecoder.decode a b) as [[[?|]| |] ?]; simpl in *; try congruence
      | |- context [if ?b then _ else _] => destruct b; simpl; try discriminate
      | |- context [match ?o with Some _ => _ | None => _ end] => destruct o; simpl; try discriminate
      | |- context [match ?l with [] => _ | _ :: _ => _ end] => destruct l; simpl; try discriminate
      end.
Qed.

Lemma parse_loop_not_stuck toks : forall skip v, Parse.loop toks skip v <> Stuck.
Proof.
  induction toks as [|t rest IH]; intros skip v; simpl; [discriminate|].
  destruct skip; [apply IH|].
  pose proof (parse_pass_not_stuck v t rest) as Hp.
  destruct (Parse.pass v t rest) as [[|v' sk]| |];
    [discriminate | apply IH | discriminate | congruence].
Qed.

(** [parse_copybook] returns a node list or raises, on every text. *)
Lemma parse_copybook_not_stuck s : parse_copybook s <> Stuck.
Proof.
  unfold parse_copybook, tokenize.
  destruct (run_refines s Tokenize.init (or_introl eq_refl)) as (v' & -> & _). simpl.
  apply parse_loop_not_stuck.
Qed.

(** ** The tree builder *)

Section Attach.
Variables (st : list TreeNode) (n : Node) (g : nat) (tg : TreeNode).
Hypothesis Hg : st !! g = Some tg.

Lemma attached_lookup_new :
  Build.store (attached st n g tg) !! List.length st = Some (mkTreeNode n (Some g) []).
Proof.
  unfold attached; simpl.
  rewrite lookup_app_r; rewrite length_insert; [|lia].
  rewrite Nat.sub_diag. reflexivity.
Qed.

Lemma attached_lookup_parent :
  Build.store (attached st n g tg) !! g
  = Some (mkTreeNode (node tg) (parent tg) (children tg ++ [List.length st])).
Proof.
  unfold attached; simpl.
  pose proof (lookup_lt_Some _ _ _ Hg) as Hlt.
  rewrite lookup_app_l by (rewrite length_insert; exact Hlt).
  apply list_lookup_insert_eq. exact Hlt.
Qed.

(** An object of the new store is the new one, or an old one with the same
    node and parent whose children are the same or, at [g], one more. *)
Lemma attached_lookup_inv i t :
  Build.store (attached st n g tg) !! i = Some t ->
  (i = List.length st /\ t = mkTreeNode n (Some g) [])
  \/ (exists t0, st !! i = Some t0 /\ node t = node t0 /\ parent t = parent t0
                 /\ (children t = children t0
                     \/ (i = g /\ children t = children t0 ++ [List.length st]))).
Proof.
  unfold attached; simpl. intros Hi.
  destruct (decide (i < List.length st)%nat) as [Hlt|Hge].
  - right. rewrite lookup_app_l in Hi by (rewrite length_insert; exact Hlt).
    destruct (decide (g = i)) as [<-|Hne].
    + rewrite list_lookup_insert_eq in Hi by exact Hlt.
      inversion Hi; subst t. exists tg. simpl.
      split; [exact Hg|]. do 2 (split; [reflexivity|]). right. split; reflexivity.
    + rewrite list_lookup_insert_ne in Hi by exact Hne.
      exists t. split; [exact Hi|]. do 2 (split; [reflexivity|]). left. reflexivity.
  - left. rewrite lookup_app_r in Hi by (rewrite length_insert; lia).
    rewrite length_insert in Hi.
    destruct (i - List.length st)%nat as [|k] eqn:Hk; simpl in Hi.
    + inversion Hi. split; [lia | reflexivity].
    + destruct k; discriminate.
Qed.

(** An old object is still there, with the same node and parent. *)
Lemma attached_lookup_old i t0 :
  st !! i = Some t0 ->
  exists t, Build.store (attached st n g tg) !! i = Some t
            /\ node t = node t0 /\ parent t = parent t0
            /\ (children t = children t0
                \/ (i = g /\ children t = children t0 ++ [List.length st])).
Proof.
  unfold attached; simpl. intros Hi.
  pose proof (lookup_lt_Some _ _ _ Hi) as Hlt.
  rewrite lookup_app_l by (rewrite length_insert; exact Hlt).
  destruct (decide (g = i)) as [<-|Hne].
  - rewrite list_lookup_insert_eq by exact Hlt.
    rewrite Hg in Hi. inversion Hi; subst t0.
    eexists. split; [reflexivity|]. simpl.
    do 2 (split; [reflexivity|]). right. split; reflexivity.
  - rewrite list_lookup_insert_ne by exact Hne.
    exists t0. split; [exact Hi|]. do 2 (split; [reflexivity|]). left. reflexivity.
Qed.

End Attach.

Lemma attached_wf v n g tg :
  wf v ->
  Build.store v !! g = Some tg ->
  Build.level_of tg < node_level n ->
  (forall c tc, c ∈ children tg -> Build.store v !! c = Some tc ->
                Build.level_of tc = node_level n) ->
  wf (attached (Build.store v) n g tg).
Proof.
  intros Hwf Hg Hlvl Hsib.
  pose proof (attached_lookup_new (Build.store v) n g tg) as Hnew.
  pose proof (attached_lookup_parent (Build.store v) n g tg Hg) as Hpar.
  pose proof (attached_lookup_inv (Build.store v) n g tg Hg) as Hinv.
  pose proof (attached_lookup_old (Build.store v) n g tg Hg) as Hold.
  set (w := attached (Build.store v) n g tg) in *.
  assert (Hptr : Build.ptr w = List.length (Build.store v)) by reflexivity.
  assert (Hchild : forall h t c tc,
             Build.store w !! h = Some t -> c ∈ children t -> Build.store w !! c = Some tc ->
             exists t0, Build.store v !! h = Some t0
               /\ ((exists tc0, c ∈ children t0 /\ Build.store v !! c = Some tc0
                                /\ node tc = node tc0 /\ parent tc = parent tc0)
                   \/ (h = g /\ c = List.length (Build.store v)
                       /\ tc = mkTreeNode n (Some g) []))).
  { intros h t c tc Ht Hc Htc.
    destruct (Hinv h t Ht) as [[-> ->]|(t0 & Ht0 & _ & _ & Hcs)].
    { simpl in Hc. inversion Hc. }
    exists t0. split; [exact Ht0|].
    assert (Hcase : c ∈ children t0 \/ (h = g /\ c = List.length (Build.store v))).
    { destruct Hcs as [Heq|[Hh Heq]]; rewrite Heq in Hc; [left; exact Hc|].
      apply elem_of_app in Hc as [Hc|Hc]; [left; exact Hc|].
      apply list_elem_of_singleton in Hc. right. split; assumption. }
    destruct Hcase as [Hc0|[Hh Hcl]].
    - left. destruct (wf_children v Hwf h t0 c Ht0 Hc0) as (tc0 & Htc0 & _).
      destruct (Hold c tc0 Htc0) as (tc' & Htc' & Hn' & Hp' & _).
      rewrite Htc in Htc'. inversion Htc'; subst tc'.
      exists tc0. repeat split; assumption.
    - right. subst c. rewrite Hnew in Htc. inversion Htc. repeat split; assumption. }
  constructor.
  - destruct (wf_root v Hwf) as [cs Hr].
    destruct (Hold _ _ Hr) as (t & Ht & Hn & Hp & _).
    exists (children t). rewrite Ht. destruct t; simpl in *; subst; reflexivity.
  - rewrite Hptr, Hnew. eexists; reflexivity.
  - intros t. rewrite Hptr, Hnew. intros Ht. inversion Ht. reflexivity.
  - intros h t Ht Hh.
    destruct (Hinv h t Ht) as [[-> ->]|(t0 & Ht0 & Hn & Hp & _)].
    + exists g. eexists. split; [reflexivity|].
      split; [apply (lookup_lt_Some _ _ _ Hg)|].
      split; [exact Hpar|]. split; [exact Hlvl|].
      simpl. apply elem_of_app. right. apply list_elem_of_singleton. reflexivity.
    + destruct (wf_parent v Hwf h t0 Ht0 Hh) as (p & pt & Hpp & Hlt & Hpt & Hlv & Hin).
      destruct (Hold p pt Hpt) as (pt' & Hpt' & Hn' & _ & Hc').
      exists p, pt'. split; [congruence|]. split; [exact Hlt|]. split; [exact Hpt'|].
      split; [unfold Build.level_of in *; rewrite Hn, Hn'; exact Hlv|].
      destruct Hc' as [Heq|[_ Heq]]; rewrite Heq; [exact Hin|].
      apply elem_of_app. left. exact Hin.
  - intros h t c Ht Hc.
    destruct (Hinv h t Ht) as [[-> ->]|(t0 & Ht0 & _ & _ & Hcs)].
    { simpl in Hc. inversion Hc. }
    assert (Hcase : c ∈ children t0 \/ (h = g /\ c = List.length (Build.store v))).
    { destruct Hcs as [Heq|[Hh Heq]]; rewrite Heq in Hc; [left; exact Hc|].
      apply elem_of_app in Hc as [Hc|Hc]; [left; exact Hc|].
      apply list_elem_of_singleton in Hc. right. split; assumption. }
    destruct Hcase as [Hc0|[Hh Hcl]].
    + destruct (wf_children v Hwf h t0 c Ht0 Hc0) as (tc0 & Htc0 & Hp0).
      destruct (Hold c tc0 Htc0) as (tc' & Htc' & _ & Hp' & _).
      exists tc'. split; [exact Htc' | congruence].
    + subst h c. eexists. split; [exact Hnew | reflexivity].
  - intros h t c1 c2 t1 t2 Ht Hc1 Hc2 Ht1 Ht2.
    destruct (Hchild h t c1 t1 Ht Hc1 Ht1) as (t0 & Ht0 & H1).
    destruct (Hchild h t c2 t2 Ht Hc2 Ht2) as (t0' & Ht0' & H2).
    rewrite Ht0 in Ht0'. inversion Ht0'; subst t0'; clear Ht0'.
    unfold Build.level_of in *.
    destruct H1 as [(u1 & Hu1 & Hl1 & Hn1 & _)|(Hh1 & _ & ->)];
      destruct H2 as [(u2 & Hu2 & Hl2 & Hn2 & _)|(Hh2 & _ & ->)]; simpl.
    + rewrite Hn1, Hn2. exact (wf_siblings v Hwf h t0 c1 c2 u1 u2 Ht0 Hu1 Hu2 Hl1 Hl2).
    + subst h. rewrite Hg in Ht0. inversion Ht0; subst t0.
      rewrite Hn1. exact (Hsib c1 u1 Hu1 Hl1).
    + subst h. rewrite Hg in Ht0. inversion Ht0; subst t0.
      rewrite Hn2. symmetry. exact (Hsib c2 u2 Hu2 Hl2).
    + reflexivity.
Qed.

Lemma wf_init : wf Build.init.
Proof.
  constructor; simpl.
  - eexists; reflexivity.
  - eexists; reflexivity.
  - intros t Ht. inversion Ht. reflexivity.
  - intros [|h] t Ht Hh; [exfalso; apply Hh; reflexivity | destruct h; discriminate].
  - intros [|h] t c Ht Hc; [|destruct h; discriminate].
    inversion Ht; subst t. simpl in Hc. inversion Hc.
  - intros [|h] t c1 c2 t1 t2 Ht Hc1; [|destruct h; discriminate].
    inversion Ht; subst t. simpl in Hc1. inversion Hc1.
Qed.

Lemma wf_root_fields v t :
  wf v -> Build.store v !! Build.root = Some t -> Build.level_of t = 0 /\ parent t = None.
Proof.
  intros Hwf Ht. destruct (wf_root v Hwf) as [cs Hr].
  rewrite Hr in Ht. inversion Ht. split; reflexivity.
Qed.

(** Below the root every level is positive. *)
Lemma wf_level_pos v :
  wf v -> forall h t, Build.store v !! h = Some t -> h <> Build.root -> 0 < Build.level_of t.
Proof.
  intros Hwf h. induction h as [h IH] using lt_wf_ind. intros t Ht Hh.
  destruct (wf_parent v Hwf h t Ht Hh) as (p & pt & _ & Hlt & Hpt & Hlv & _).
  destruct (decide (p = Build.root)) as [->|Hp].
  - destruct (wf_root_fields v pt Hwf Hpt) as [H0 _]. lia.
  - specialize (IH p Hlt pt Hpt Hp). lia.
Qed.

(** From an object below the root the walk ends, within as many passes as
    the handle of the object, at the root or at an ancestor of level
    [lvl]. *)
Lemma walk_stops v lvl :
  wf v ->
  forall fuel h t,
    Build.store v !! h = Some t -> h <> Build.root -> (h <= fuel)%nat ->
    exists a ta,
      Build.walk fuel (Build.store v) (parent t) lvl = Return a
      /\ Build.store v !! a = Some ta
      /\ (a = Build.root \/ (a <> Build.root /\ Build.level_of ta = lvl)).
Proof.
  intros Hwf fuel. induction fuel as [|f IH]; intros h t Ht Hh Hle.
  - unfold Build.root in Hh. lia.
  - destruct (wf_parent v Hwf h t Ht Hh) as (p & pt & Hpar & Hlt & Hpt & _ & _).
    rewrite Hpar. simpl. unfold Build.deref. rewrite Hpt. simpl.
    destruct (decide (p = Build.root)) as [->|Hp].
    + destruct (wf_root_fields v pt Hwf Hpt) as [H0 _]. rewrite H0. simpl.
      exists Build.root, pt. auto.
    + pose proof (wf_level_pos v Hwf p pt Hpt Hp) as Hpos.
      destruct (Z.eqb_spec (Build.level_of pt) 0) as [?|_]; [lia|].
      destruct (Z.eqb_spec (Build.level_of pt) lvl) as [Heq|Hne]; simpl.
      * exists p, pt. auto.
      * apply (IH p pt Hpt Hp). lia.
Qed.


(** The list of ancestors is complete: it ends at the root. *)
Lemma ancestors_reach_root v :
  wf v ->
  forall fuel h t,
    Build.store v !! h = Some t -> h <> Build.root -> (h <= fuel)%nat ->
    last (ancestors fuel (Build.store v) h) = Some Build.root.
Proof.
  intros Hwf fuel. induction fuel as [|f IH]; intros h t Ht Hh Hle.
  - unfold Build.root in Hh. lia.
  - destruct (wf_parent v Hwf h t Ht Hh) as (p & pt & Hpar & Hlt & Hpt & _ & _).
    simpl. rewrite Ht, Hpar.
    destruct (decide (p = Build.root)) as [->|Hp].
    + destruct (wf_root_fields v pt Hwf Hpt) as [_ Hnone].
      assert (Hanc : ancestors f (Build.store v) Build.root = []).
      { destruct f; simpl; [reflexivity|]. rewrite Hpt, Hnone. reflexivity. }
      rewrite Hanc. reflexivity.
    + specialize (IH p pt Hpt Hp ltac:(lia)).
      destruct (ancestors f (Build.store v) p) as [|a l]; [discriminate|]. exact IH.
Qed.

Lemma deref_some st h t : st !! h = Some t -> Build.deref st h = Return t.
Proof. intros H. unfold Build.deref. rewrite H. reflexivity. Qed.

Lemma attach_some st n g tg :
  st !! g = Some tg -> Build.attach st n (Some g) = Return (attached st n g tg).
Proof. intros Hg. unfold Build.attach, Build.deref. rewrite Hg. reflexivity. Qed.

(** Attaching under the parent of an object [a] below the root, at the level
    of [a], keeps the invariant. *)
Lemma attach_sibling_wf v n a ta :
  wf v -> Build.store v !! a = Some ta -> a <> Build.root ->
  node_level n = Build.level_of ta ->
  exists g tg, parent ta = Some g /\ Build.store v !! g = Some tg
    /\ wf (attached (Build.store v) n g tg).
Proof.
  intros Hwf Ha Hne Hlv.
  destruct (wf_parent v Hwf a ta Ha Hne) as (g & tg & Hpar & _ & Hg & Hlt & Hin).
  exists g, tg. split; [exact Hpar|]. split; [exact Hg|].
  apply attached_wf; [exact Hwf | exact Hg | lia |].
  intros c tc Hc Htc. rewrite Hlv.
  exact (wf_siblings v Hwf g tg c a tc ta Hg Hc Hin Htc Ha).
Qed.

#[local] Arguments Build.attach : simpl never.
#[local] Arguments Build.deref : simpl never.
#[local] Arguments Build.walk : simpl never.

(** One pass of the builder on a well-formed state: it attaches a node of
    positive level and stays well-formed, or raises [AttributeError] or a
    [CopybookException]; it is never stuck. *)
Lemma step_spec v n :
  wf v ->
  match Build.step v n with
  | Return v' => wf v' /\ 0 < node_level n
  | Raise e => e = AttributeError \/ exists m, e = CopybookException m
  | Stuck => False
  end.
Proof.
  intros Hwf. unfold Build.step.
  destruct (wf_ptr v Hwf) as [p Hp]. rewrite (deref_some _ _ _ Hp). simpl.
  assert (Hp0 : 0 <= Build.level_of p).
  { destruct (decide (Build.ptr v = Build.root)) as [Heq|Hne].
    - rewrite Heq in Hp. destruct (wf_root_fields v p Hwf Hp). lia.
    - pose proof (wf_level_pos v Hwf _ p Hp Hne). lia. }
  destruct (Z.ltb_spec (Build.level_of p) (node_level n)) as [Hlt|Hge].
  - rewrite (attach_some _ n _ p Hp). split; [|lia].
    apply attached_wf; [exact Hwf | exact Hp | exact Hlt |].
    intros c tc Hc. rewrite (wf_leaf v Hwf p Hp) in Hc. inversion Hc.
  - destruct (decide (Build.ptr v = Build.root)) as [Heq|Hne].
    + rewrite Heq in Hp. destruct (wf_root_fields v p Hwf Hp) as [H0 Hnone].
      rewrite Hnone.
      destruct (Z.eqb_spec (node_level n) (Build.level_of p)); simpl; [left; reflexivity|].
      pose proof (lookup_lt_Some _ _ _ Hp) as Hlen.
      destruct (List.length (Build.store v)); [lia|]. simpl. left; reflexivity.
    + pose proof (wf_level_pos v Hwf _ p Hp Hne) as Hpos.
      destruct (Z.eqb_spec (node_level n) (Build.level_of p)) as [Heq|Hneq].
      * destruct (attach_sibling_wf v n _ p Hwf Hp Hne Heq) as (g & tg & Hpar & Hg & Hwf').
        rewrite Hpar, (attach_some _ n g tg Hg). split; [exact Hwf' | lia].
      * pose proof (lookup_lt_Some _ _ _ Hp) as Hlen.
        destruct (walk_stops v (node_level n) Hwf (List.length (Build.store v)) _ p Hp Hne)
          as (a & ta & Hwalk & Ha & Hcase); [lia|].
        rewrite Hwalk. simpl. rewrite (deref_some _ _ _ Ha). simpl.
        destruct Hcase as [->|[Hane Hlv]].
        -- destruct (wf_root_fields v ta Hwf Ha) as [H0 _]. rewrite H0. simpl.
           right. eexists; reflexivity.
        -- pose proof (wf_level_pos v Hwf a ta Ha Hane) as Hapos.
           destruct (Z.eqb_spec (Build.level_of ta) 0) as [?|_]; [lia|].
           destruct (attach_sibling_wf v n a ta Hwf Ha Hane (eq_sym Hlv))
             as (g & tg & Hpar & Hg & Hwf').
           rewrite Hpar, (attach_some _ n g tg Hg). split; [exact Hwf' | lia].
Qed.

(** The whole loop from a well-formed state. *)
Lemma run_spec l : forall v,
  wf v ->
  match Build.run l v with
  | Return v' => wf v' /\ Forall (fun n => 0 < node_level n) l
  | Raise e => e = AttributeError \/ exists m, e = CopybookException m
  | Stuck => False
  end.
Proof.
  induction l as [|n l IH]; intros v Hwf; simpl.
  - split; [exact Hwf | constructor].
  - pose proof (step_spec v n Hwf) as Hstep.
    destruct (Build.step v n) as [v1|e|]; simpl; [| exact Hstep | exact Hstep].
    destruct Hstep as [Hwf1 Hpos].
    specialize (IH v1 Hwf1).
    destruct (Build.run l v1) as [v'|e|]; [| exact IH | exact IH].
    destruct IH as [Hwf' Hall]. split; [exact Hwf' | constructor; assumption].
Qed.

Lemma wf_tree_invariant v : wf v -> tree_invariant (Build.store v).
Proof.
  intros Hwf. split; [exact (wf_root v Hwf)|]. split; [|split].
  - intros h t Ht Hh.
    destruct (wf_parent v Hwf h t Ht Hh) as (p & pt & Hpar & Hlt & Hpt & _ & Hin).
    exists p, pt. auto.
  - intros h t c Ht Hc.
    destruct (wf_children v Hwf h t c Ht Hc) as (tc & Htc & Hpar).
    exists tc. split; [exact Htc|]. split; [exact Hpar|].
    assert (Hc0 : c <> Build.root).
    { intros ->. destruct (wf_root_fields v tc Hwf Htc) as [_ Hnone]. congruence. }
    destruct (wf_parent v Hwf c tc Htc Hc0) as (p & pt & Hpar' & _ & Hpt & Hlv & _).
    rewrite Hpar in Hpar'. inversion Hpar'; subst p.
    rewrite Ht in Hpt. inversion Hpt; subst pt. exact Hlv.
  - exact (wf_siblings v Hwf).
Qed.



(** C8: a tree that [build_node_tree] returns has the synthetic level-0
    root at handle 0 with every other object hanging under it, every child's
    level strictly greater than its parent's, and one level for all children
    of one parent. *)
Theorem build_tree_invariant (node_list : list Node) (st : list TreeNode) :
  build_node_tree node_list = Return st -> tree_invariant st.
Proof.
  unfold build_node_tree. intros Hb.
  pose proof (run_spec node_list Build.init wf_init) as Hspec.
  destruct (Build.run node_list Build.init) as [v| |]; simpl in Hb; try discriminate.
  inversion Hb; subst st. apply wf_tree_invariant. exact (proj1 Hspec).
Qed.

Lemma build_tree_invariant_witness : tree_invariant tree_1_5_5.
Proof. apply (build_tree_invariant levels_1_5_5). vm_compute. reflexivity. Defined.

(** C10: a first node of level 0 makes [build_node_tree] raise
    [AttributeError] (the sibling branch appends to the parent of the root,
    which is [None]); and a list with a node of level 0 anywhere is never
    built: [build_node_tree] raises [AttributeError] or a
    [CopybookException]. *)
Theorem build_level_zero :
  (forall n rest, node_level n = 0 -> build_node_tree (n :: rest) = Raise AttributeError)
  /\ (forall l (i : nat) n,
        l !! i = Some n -> node_level n = 0 ->
        exists e, build_node_tree l = Raise e
                  /\ (e = AttributeError \/ exists m, e = CopybookException m)).
Proof.
  split.
  - intros n rest H0. unfold build_node_tree. simpl. unfold Build.step. simpl.
    unfold Build.deref. simpl. unfold Build.level_of. simpl. rewrite H0. reflexivity.
  - intros l i n Hi H0. unfold build_node_tree.
    pose proof (run_spec l Build.init wf_init) as Hspec.
    destruct (Build.run l Build.init) as [v|e|]; simpl.
    + destruct Hspec as [_ Hall]. rewrite Forall_forall in Hall.
      assert (Hin : n ∈ l) by (apply list_elem_of_lookup; exists i; exact Hi).
      specialize (Hall n Hin). lia.
    + exists e. split; [reflexivity | exact Hspec].
    + contradiction.
Qed.

Lemma build_level_zero_witness :
  build_node_tree [node_of_level 0; node_of_level 1] = Raise AttributeError
  /\ exists e, build_node_tree [node_of_level 1; node_of_level 0] = Raise e
               /\ (e = AttributeError \/ exists m, e = CopybookException m).
Proof.
  split.
  - apply (proj1 build_level_zero). reflexivity.
  - apply (proj2 build_level_zero _ 1%nat (node_of_level 0)); reflexivity.
Defined.

(** [build_node_tree] returns a tree or raises, on every node list. *)
Lemma build_node_tree_not_stuck node_list : build_node_tree node_list <> Stuck.
Proof.
  unfold build_node_tree.
  pose proof (run_spec node_list Build.init wf_init) as Hspec.
  destruct (Build.run node_list Build.init); simpl; [discriminate | discriminate | contradiction].
Qed.

(** ** The position table of the lexer *)

(** An offset before the current index lies on the current line. *)
Lemma find_line_col_current (s : string) :
  forall cur_line cur_start index pos,
    cur_start <= pos -> pos < index ->
    @Lexer.find_line_col (Lexer.break_lines_from cur_line cur_start index s) pos
    = Some (cur_line, pos - cur_start + 1).
Proof.
  induction s as [|c r IH]; intros cur_line cur_start index pos Hlo Hhi; simpl.
  - destruct (Z.leb_spec cur_start pos); [|lia].
    destruct (Z.leb_spec pos (index - 1)); [|lia]. reflexivity.
  - destruct (Ascii.eqb c "010"); simpl.
    + destruct (Z.leb_spec cur_start pos); [|lia].
      destruct (Z.leb_spec pos index); [|lia]. reflexivity.
    + apply IH; lia.
Qed.

Lemma find_line_col_locate (s : string) :
  forall cur_line cur_start index (k : nat),
    cur_start <= index -> (k < Py.len s)%nat ->
    @Lexer.find_line_col (Lexer.break_lines_from cur_line cur_start index s)
                         (index + Z.of_nat k)
    = Some (locate s k cur_line (index - cur_start + 1)).
Proof.
  induction s as [|c r IH]; intros cur_line cur_start index k Hlo Hk; simpl in Hk; [lia|].
  destruct k as [|k'].
  - simpl. rewrite Z.add_0_r.
    destruct (Ascii.eqb c "010"); simpl.
    + destruct (Z.leb_spec cur_start index); [|lia].
      destruct (Z.leb_spec index index); [|lia]. reflexivity.
    + apply find_line_col_current; lia.
  - cbn [locate Lexer.break_lines_from].
    replace (index + Z.of_nat (S k')) with (index + 1 + Z.of_nat k') by lia.
    destruct (Ascii.eqb c "010").
    + cbn [Lexer.find_line_col Lexer.start Lexer.end_].
      destruct (Z.leb_spec cur_start (index + 1 + Z.of_nat k')); [|lia].
      destruct (Z.leb_spec (index + 1 + Z.of_nat k') index); [lia|]. simpl.
      rewrite (IH (cur_line + 1) (index + 1) (index + 1) k') by lia.
      do 3 f_equal. lia.
    + rewrite (IH cur_line cur_start (index + 1) k') by lia.
      do 3 f_equal. lia.
Qed.

Lemma find_line_col_past_end (s : string) :
  forall cur_line cur_start index pos,
    index + Z.of_nat (Py.len s) <= pos ->
    @Lexer.find_line_col (Lexer.break_lines_from cur_line cur_start index s) pos = None.
Proof.
  induction s as [|c r IH]; intros cur_line cur_start index pos Hpos; simpl in *.
  - destruct (Z.leb_spec pos (index - 1)); [lia|]. rewrite andb_false_r. reflexivity.
  - destruct (Ascii.eqb c "010"); simpl.
    + destruct (Z.leb_spec pos index); [lia|]. rewrite andb_false_r. apply IH. lia.
    + apply IH. lia.
Qed.

(** X1: for every offset inside the data, the table of [break_lines] and the
    lookup of [find_line_col] give the line and column that counting the
    newlines before the offset gives: lines and columns start at 1, and a
    newline character belongs to the line it ends.  An offset at or past the
    end of the data is on no line. *)
Theorem find_line_col_counts (d : string) (pos : nat) :
  ((pos < Py.len d)%nat ->
   Lexer.find_line_col (Lexer.break_lines d) (Z.of_nat pos) = Some (locate d pos 1 1))
  /\ ((Py.len d <= pos)%nat ->
      Lexer.find_line_col (Lexer.break_lines d) (Z.of_nat pos) = None).
Proof.
  unfold Lexer.break_lines. split; intros Hpos.
  - exact (find_line_col_locate d 1 0 0 pos ltac:(lia) Hpos).
  - apply find_line_col_past_end. lia.
Qed.

Lemma find_line_col_counts_witness :
  Lexer.find_line_col (Lexer.break_lines two_lines) (Z.of_nat 2) = Some (locate two_lines 2 1 1)
  /\ Lexer.find_line_col (Lexer.break_lines two_lines) (Z.of_nat 3) = None.
Proof.
  split.
  - apply (proj1 (find_line_col_counts two_lines 2)). vm_compute. lia.
  - apply (proj2 (find_line_col_counts two_lines 3)). vm_compute. lia.
Defined.

(** ** What the tree builder keeps and how it fails *)

Lemma attach_inv st n o v' :
  Build.attach st n o = Return v' ->
  exists g tg, o = Some g /\ st !! g = Some tg /\ v' = attached st n g tg.
Proof.
  unfold Build.attach, Build.deref. destruct o as [g|]; [|discriminate].
  destruct (st !! g) as [tg|] eqn:Hg; simpl; [|discriminate].
  intros H. inversion H. exists g, tg. auto.
Qed.

(** A pass that returns has attached the node under some object of the
    store. *)
Lemma step_inv v n v' :
  Build.step v n = Return v' ->
  exists g tg, Build.store v !! g = Some tg /\ v' = attached (Build.store v) n g tg.
Proof.
  unfold Build.step.
  destruct (Build.deref (Build.store v) (Build.ptr v)) as [p| |]; simpl; try discriminate.
  destruct (Build.level_of p <? node_level n).
  { intros H. apply attach_inv in H as (g & tg & _ & Hg & ->). eauto. }
  destruct (node_level n =? Build.level_of p).
  { intros H. apply attach_inv in H as (g & tg & _ & Hg & ->). eauto. }
  destruct (Build.walk _ _ _ _) as [a| |]; simpl; try discriminate.
  destruct (Build.deref (Build.store v) a) as [s| |]; simpl; try discriminate.
  destruct (Build.level_of s =? 0); [discriminate|].
  intros H. apply attach_inv in H as (g & tg & _ & Hg & ->). eauto.
Qed.

Lemma attached_nodes st n g tg :
  st !! g = Some tg ->
  node <$> Build.store (attached st n g tg) = (node <$> st) ++ [n].
Proof.
  intros Hg. unfold attached. simpl.
  rewrite fmap_app, list_fmap_insert. simpl.
  rewrite list_insert_id; [reflexivity|].
  rewrite list_lookup_fmap, Hg. reflexivity.
Qed.

Lemma run_nodes l : forall v v',
  Build.run l v = Return v' ->
  node <$> Build.store v' = (node <$> Build.store v) ++ l.
Proof.
  induction l as [|n l IH]; intros v v' Hrun; simpl in Hrun.
  - inversion Hrun. rewrite app_nil_r. reflexivity.
  - destruct (Build.step v n) as [v1| |] eqn:Hstep; simpl in Hrun; try discriminate.
    apply step_inv in Hstep as (g & tg & Hg & ->).
    rewrite (IH _ _ Hrun), (attached_nodes _ _ _ _ Hg), <- app_assoc. reflexivity.
Qed.

(** X2: a tree that [build_node_tree] returns holds the root and then the
    nodes of the list, each exactly once and in the order of the list: the
    object with handle [i + 1] wraps the node at index [i]. *)
Theorem build_keeps_nodes (node_list : list Node) (st : list TreeNode) :
  build_node_tree node_list = Return st ->
  node <$> st = new_node "Root" 0 N_RECORD :: node_list.
Proof.
  unfold build_node_tree. intros Hb.
  destruct (Build.run node_list Build.init) as [v| |] eqn:Hrun; simpl in Hb; try discriminate.
  inversion Hb; subst st. rewrite (run_nodes _ _ _ Hrun). reflexivity.
Qed.

Lemma build_keeps_nodes_witness :
  node <$> tree_1_5_5 = new_node "Root" 0 N_RECORD :: levels_1_5_5.
Proof. apply build_keeps_nodes. vm_compute. reflexivity. Defined.

(** Once the cursor has left the root, a pass moves it to a new object or
    fails with the "Could not find parent" [CopybookException]. *)
Lemma step_below_root v n :
  wf v -> Build.ptr v <> Build.root ->
  match Build.step v n with
  | Return v' => wf v' /\ Build.ptr v' <> Build.root
  | Raise e =>
      exists p, Build.store v !! Build.ptr v = Some p
        /\ node_level n < Build.level_of p
        /\ e = CopybookException
                 (CouldNotFindParent (node_name n) (node_level n)
                                     (node_name (node p)) (Build.level_of p))
  | Stuck => False
  end.
Proof.
  intros Hwf Hne.
  pose proof (step_spec v n Hwf) as Hspec.
  destruct (wf_ptr v Hwf) as [p Hp].
  pose proof (lookup_lt_Some _ _ _ Hp) as Hlen.
  destruct (Build.step v n) as [v'|e|] eqn:Hstep; [| |exact Hspec].
  - split; [exact (proj1 Hspec)|].
    apply step_inv in Hstep as (g & tg & _ & ->). simpl.
    unfold Build.root. lia.
  - exists p. split; [exact Hp|].
    pose proof (wf_level_pos v Hwf _ p Hp Hne) as Hpos.
    unfold Build.step in Hstep. rewrite (deref_some _ _ _ Hp) in Hstep. simpl in Hstep.
    destruct (Z.ltb_spec (Build.level_of p) (node_level n)) as [Hlt|Hge].
    { rewrite (attach_some _ n _ p Hp) in Hstep. discriminate. }
    destruct (Z.eqb_spec (node_level n) (Build.level_of p)) as [Heq|Hneq].
    { destruct (attach_sibling_wf v n _ p Hwf Hp Hne Heq) as (g & tg & Hpar & Hg & _).
      rewrite Hpar, (attach_some _ n g tg Hg) in Hstep. discriminate. }
    split; [lia|].
    destruct (walk_stops v (node_level n) Hwf (List.length (Build.store v)) _ p Hp Hne)
      as (a & ta & Hwalk & Ha & Hcase); [lia|].
    rewrite Hwalk in Hstep. simpl in Hstep. rewrite (deref_some _ _ _ Ha) in Hstep.
    simpl in Hstep.
    destruct Hcase as [->|[Hane Hlv]].
    + destruct (wf_root_fields v ta Hwf Ha) as [H0 _]. rewrite H0 in Hstep.
      simpl in Hstep. inversion Hstep. reflexivity.
    + pose proof (wf_level_pos v Hwf a ta Ha Hane) as Hapos.
      destruct (Z.eqb_spec (Build.level_of ta) 0) as [?|_]; [lia|].
      destruct (attach_sibling_wf v n a ta Hwf Ha Hane (eq_sym Hlv))
        as (g & tg & Hpar & Hg & _).
      rewrite Hpar, (attach_some _ n g tg Hg) in Hstep. discriminate.
Qed.

Lemma run_below_root l : forall v,
  wf v -> Build.ptr v <> Build.root ->
  match Build.run l v with
  | Return _ => True
  | Raise e => exists m, e = CopybookException m
  | Stuck => False
  end.
Proof.
  induction l as [|n l IH]; intros v Hwf Hne; simpl; [exact I|].
  pose proof (step_below_root v n Hwf Hne) as Hstep.
  destruct (Build.step v n) as [v1|e|]; simpl; [| |exact Hstep].
  - destruct Hstep as [Hwf1 Hne1]. exact (IH v1 Hwf1 Hne1).
  - destruct Hstep as (p & _ & _ & ->). eexists; reflexivity.
Qed.

(** The first pass, from the root: a node of positive level is attached
    under the root, any other raises [AttributeError]. *)
Lemma step_init n :
  (0 < node_level n ->
   Build.step Build.init n
   = Return (attached (Build.store Build.init) n Build.root
                      (mkTreeNode (new_node "Root" 0 N_RECORD) None [])))
  /\ (node_level n <= 0 -> Build.step Build.init n = Raise AttributeError).
Proof.
  unfold Build.step, Build.deref, Build.level_of. simpl.
  split; intros Hn.
  - destruct (Z.ltb_spec 0 (node_level n)); [reflexivity | lia].
  - destruct (Z.ltb_spec 0 (node_level n)); [lia|].
    destruct (Z.eqb_spec (node_level n) 0); reflexivity.
Qed.

(** X3: [build_node_tree] raises [AttributeError] exactly when the list
    starts with a node whose level is 0 or negative; whatever else it raises
    is a [CopybookException]. *)
Theorem build_attribute_error (node_list : list Node) :
  (build_node_tree node_list = Raise AttributeError
   <-> exists n rest, node_list = n :: rest /\ node_level n <= 0)
  /\ (forall e, build_node_tree node_list = Raise e ->
                e = AttributeError \/ exists m, e = CopybookException m).
Proof.
  assert (Hpos : forall n rest, 0 < node_level n ->
            match build_node_tree (n :: rest) with
            | Return _ => True
            | Raise e => exists m, e = CopybookException m
            | Stuck => False
            end).
  { intros n rest Hn. unfold build_node_tree. simpl.
    rewrite (proj1 (step_init n) Hn). simpl.
    pose proof (step_spec Build.init n wf_init) as Hspec.
    rewrite (proj1 (step_init n) Hn) in Hspec. destruct Hspec as [Hwf1 _].
    pose proof (run_below_root rest _ Hwf1) as Hrun. simpl in Hrun.
    specialize (Hrun ltac:(discriminate)).
    destruct (Build.run rest _); simpl; assumption. }
  assert (Hneg : forall n rest, node_level n <= 0 ->
            build_node_tree (n :: rest) = Raise AttributeError).
  { intros n rest Hn. unfold build_node_tree. simpl.
    rewrite (proj2 (step_init n) Hn). reflexivity. }
  split; [split|].
  - intros Hb. destruct node_list as [|n rest]; [discriminate|].
    exists n, rest. split; [reflexivity|].
    destruct (Z.le_gt_cases (node_level n) 0) as [|Hgt]; [assumption|].
    specialize (Hpos n rest ltac:(lia)). rewrite Hb in Hpos.
    destruct Hpos as [m Hm]. discriminate.
  - intros (n & rest & -> & Hn). exact (Hneg n rest Hn).
  - intros e Hb. destruct node_list as [|n rest]; [discriminate|].
    destruct (Z.le_gt_cases (node_level n) 0) as [Hle|Hgt].
    + rewrite (Hneg n rest Hle) in Hb. inversion Hb. left. reflexivity.
    + specialize (Hpos n rest ltac:(lia)). rewrite Hb in Hpos. right. exact Hpos.
Qed.

Lemma build_attribute_error_witness :
  build_node_tree [node_of_level (-1); node_of_level 1] = Raise AttributeError.
Proof.
  apply (proj2 (proj1 (build_attribute_error [node_of_level (-1); node_of_level 1]))).
  exists (node_of_level (-1)), [node_of_level 1]. split; [reflexivity|]. simpl. lia.
Defined.

(** After a pass that returns, the cursor is on the object of the node just
    attached. *)
Lemma step_ptr_node v n v' :
  Build.step v n = Return v' ->
  exists p, Build.store v' !! Build.ptr v' = Some p /\ node p = n.
Proof.
  intros Hstep. apply step_inv in Hstep as (g & tg & Hg & ->).
  eexists. split; [apply (attached_lookup_new _ n g tg)|]. reflexivity.
Qed.

Lemma run_raise_names l : forall v p e,
  wf v -> Build.ptr v <> Build.root ->
  Build.store v !! Build.ptr v = Some p ->
  Build.run l v = Raise e ->
  exists (i : nat) a b,
    (node p :: l) !! i = Some a /\ (node p :: l) !! S i = Some b
    /\ node_level b < node_level a
    /\ e = CopybookException
             (CouldNotFindParent (node_name b) (node_level b) (node_name a) (node_level a)).
Proof.
  induction l as [|n l IH]; intros v p e Hwf Hne Hp Hrun; simpl in Hrun; [discriminate|].
  pose proof (step_below_root v n Hwf Hne) as Hspec.
  destruct (Build.step v n) as [v1|e1|] eqn:Hstep; simpl in Hrun; [| |contradiction].
  - destruct Hspec as [Hwf1 Hne1].
    destruct (step_ptr_node v n v1 Hstep) as (p1 & Hp1 & Hn1).
    destruct (IH v1 p1 e Hwf1 Hne1 Hp1 Hrun) as (i & a & b & Ha & Hb & Hlt & He).
    rewrite Hn1 in Ha, Hb.
    exists (S i), a, b. repeat split; assumption.
  - inversion Hrun; subst e1. destruct Hspec as (p' & Hp' & Hlt & He).
    rewrite Hp in Hp'. inversion Hp'; subst p'.
    exists 0%nat, (node p), n. repeat split; assumption.
Qed.

(** X4: when [build_node_tree] fails with a [CopybookException], the message
    names two neighbours of the list: a node and the node right before it,
    whose level is greater. *)
Theorem build_error_names_neighbours (node_list : list Node) (m : CopybookMessage) :
  build_node_tree node_list = Raise (CopybookException m) ->
  exists (i : nat) a b,
    node_list !! i = Some a /\ node_list !! S i = Some b
    /\ node_level b < node_level a
    /\ m = CouldNotFindParent (node_name b) (node_level b) (node_name a) (node_level a).
Proof.
  unfold build_node_tree. intros Hb.
  destruct node_list as [|n rest]; [discriminate|]. simpl in Hb.
  destruct (Z.le_gt_cases (node_level n) 0) as [Hle|Hgt].
  { rewrite (proj2 (step_init n) Hle) in Hb. discriminate. }
  pose proof (step_spec Build.init n wf_init) as Hspec.
  pose proof (step_ptr_node Build.init n) as Hptr.
  rewrite (proj1 (step_init n) ltac:(lia)) in Hb, Hspec, Hptr. simpl in Hb.
  destruct Hspec as [Hwf1 _]. destruct (Hptr _ eq_refl) as (p1 & Hp1 & Hn1).
  destruct (Build.run rest _) as [v'|e|] eqn:Hrun; simpl in Hb; try discriminate.
  inversion Hb; subst e.
  destruct (run_raise_names rest _ p1 _ Hwf1 ltac:(discriminate) Hp1 Hrun)
    as (i & a & b & Ha & Hbb & Hlt & He).
  rewrite Hn1 in Ha, Hbb. inversion He; subst m.
  exists i, a, b. repeat split; assumption.
Qed.

Lemma build_error_names_neighbours_witness :
  exists (i : nat) a b,
    [node_of_level 1; node_of_level 5; node_of_level 3] !! i = Some a
    /\ [node_of_level 1; node_of_level 5; node_of_level 3] !! S i = Some b
    /\ node_level b < node_level a
    /\ CouldNotFindParent "N" 3 "N" 5
       = CouldNotFindParent (node_name b) (node_level b) (node_name a) (node_level a).
Proof.
  apply (build_error_names_neighbours [node_of_level 1; node_of_level 5; node_of_level 3]).
  vm_compute. reflexivity.
Defined.

Lemma StronglySorted_snoc_lt (l : list nat) (x : nat) :
  StronglySorted lt l -> Forall (fun c => (c < x)%nat) l -> StronglySorted lt (l ++ [x]).
Proof.
  induction l as [|a l IH]; intros Hs Hall; simpl.
  - repeat constructor.
  - inversion Hs; subst. inversion Hall; subst.
    constructor; [apply IH; assumption|].
    apply Forall_app. split; [assumption|]. constructor; [assumption | constructor].
Qed.

Lemma attached_children_in_order st n g tg :
  st !! g = Some tg ->
  children_in_order st -> children_in_order (Build.store (attached st n g tg)).
Proof.
  intros Hg Hord h t Ht.
  assert (Hlen : List.length (Build.store (attached st n g tg)) = S (List.length st)).
  { unfold attached. simpl. rewrite length_app, length_insert. simpl. lia. }
  rewrite Hlen.
  destruct (attached_lookup_inv st n g tg Hg h t Ht) as [[-> ->]|(t0 & Ht0 & _ & _ & Hcs)].
  { simpl. split; constructor. }
  destruct (Hord h t0 Ht0) as [Hs Hall].
  pose proof (lookup_lt_Some _ _ _ Ht0) as Hh.
  destruct Hcs as [->|[-> ->]].
  - split; [exact Hs|]. eapply Forall_impl; [exact Hall|]. intros c Hc; simpl in Hc. lia.
  - split.
    + apply StronglySorted_snoc_lt; [exact Hs|].
      eapply Forall_impl; [exact Hall|]. intros c Hc; simpl in Hc. lia.
    + apply Forall_app. split.
      * eapply Forall_impl; [exact Hall|]. intros c Hc; simpl in Hc. lia.
      * constructor; [lia | constructor].
Qed.

Lemma run_children_in_order l : forall v v',
  Build.run l v = Return v' ->
  children_in_order (Build.store v) -> children_in_order (Build.store v').
Proof.
  induction l as [|n l IH]; intros v v' Hrun Hord; simpl in Hrun.
  - inversion Hrun; subst. exact Hord.
  - destruct (Build.step v n) as [v1| |] eqn:Hstep; simpl in Hrun; try discriminate.
    apply step_inv in Hstep as (g & tg & Hg & ->).
    apply (IH _ _ Hrun). apply attached_children_in_order; assumption.
Qed.

(** X5: in a tree that [build_node_tree] returns, the children of every
    object are listed in the order in which their nodes stand in the input
    list, without repetition: their handles increase strictly, and each is
    greater than the handle of the parent. *)
Theorem build_children_in_order (node_list : list Node) (st : list TreeNode) :
  build_node_tree node_list = Return st -> children_in_order st.
Proof.
  unfold build_node_tree. intros Hb.
  destruct (Build.run node_list Build.init) as [v| |] eqn:Hrun; simpl in Hb; try discriminate.
  inversion Hb; subst st. apply (run_children_in_order _ _ _ Hrun).
  intros [|h] t Ht; simpl in Ht; [|destruct h; discriminate].
  inversion Ht. simpl. split; constructor.
Qed.

Lemma build_children_in_order_witness : children_in_order tree_1_5_5.
Proof. apply (build_children_in_order levels_1_5_5). vm_compute. reflexivity. Defined.

(** ** Strings *)

#[local] Arguments String.append !_ _ / : simpl nomatch.

Lemma take_drop (n : nat) (s : string) : Py.take n s +:+ Py.drop n s = s.
Proof.
  revert s. induction n as [|n IH]; intros [|c r]; simpl; try reflexivity.
  f_equal. apply IH.
Qed.

Lemma append_assoc (a b c : string) : (a +:+ b) +:+ c = a +:+ (b +:+ c).
Proof. induction a as [|x a IH]; simpl; [reflexivity | rewrite IH; reflexivity]. Qed.

Lemma append_nil_r (a : string) : a +:+ "" = a.
Proof. induction a as [|x a IH]; simpl; [reflexivity | rewrite IH; reflexivity]. Qed.

Lemma len_append (a b : string) : Py.len (a +:+ b) = (Py.len a + Py.len b)%nat.
Proof. unfold Py.len. induction a as [|x a IH]; simpl; [reflexivity | rewrite IH; reflexivity]. Qed.

(** Taking past a prefix: when [w] stands at offset [n] of [s]. *)
Lemma take_prefix (n : nat) (s w rest : string) :
  (n <= Py.len s)%nat -> Py.drop n s = w +:+ rest ->
  Py.take (n + Py.len w) s = Py.take n s +:+ w
  /\ Py.drop (n + Py.len w) s = rest.
Proof.
  revert s. induction n as [|n IH]; intros s Hn Hd; simpl in *.
  - subst s. clear Hn. induction w as [|c w IHw]; simpl.
    + split; [destruct rest|]; reflexivity.
    + destruct IHw as [-> ->]. split; reflexivity.
  - destruct s as [|c r]; simpl in *; [unfold Py.len in Hn; simpl in Hn; lia|].
    unfold Py.len in Hn; simpl in Hn.
    destruct (IH r ltac:(unfold Py.len; lia) Hd) as [-> ->]. split; reflexivity.
Qed.

Lemma take_all (n : nat) (s : string) : (Py.len s <= n)%nat -> Py.take n s = s.
Proof.
  unfold Py.len. revert s. induction n as [|n IH]; intros [|c r] Hn; simpl in *;
    try reflexivity; try lia.
  rewrite IH by lia. reflexivity.
Qed.

Lemma drop_len_le (n : nat) (s : string) : (Py.len (Py.drop n s) <= Py.len s)%nat.
Proof.
  unfold Py.len. revert s. induction n as [|n IH]; intros [|c r]; simpl; try lia.
  specialize (IH r). lia.
Qed.

(** [span] splits the text, and the first part satisfies the class. *)
Lemma span_spec (p : ascii -> bool) (s a b : string) :
  Py.span p s = (a, b) -> s = a +:+ b /\ all_chars p a = true.
Proof.
  revert a b. induction s as [|c r IH]; intros a b Hs; simpl in Hs.
  - inversion Hs. split; reflexivity.
  - destruct (p c) eqn:Hc.
    + destruct (Py.span p r) as [a' b'] eqn:Hr. inversion Hs; subst.
      destruct (IH a' b eq_refl) as [-> Ha]. simpl. rewrite Hc, Ha. split; reflexivity.
    + inversion Hs; subst. split; reflexivity.
Qed.

Lemma span_all (p : ascii -> bool) (s : string) :
  all_chars p s = true -> Py.span p s = (s, EmptyString).
Proof.
  induction s as [|c r IH]; simpl; intros H; [reflexivity|].
  apply andb_true_iff in H as [Hc Hr]. rewrite Hc, (IH Hr). reflexivity.
Qed.

(** ** The tokens of the picture lexer *)

(** A pass that returns has taken the match of one of the rules. *)
Lemma step_emits {E : Type} (rules : list (Lexer.Rule E)) lines d pos toks toks1 pos1 :
  Lexer.step rules lines d pos toks = Return (toks1, pos1) ->
  exists r p m ln cl,
    r ∈ rules /\ Lexer.pattern r = Some p /\ p (Py.drop pos d) = Some m
    /\ Lexer.find_line_col lines (Z.of_nat pos) = Some (ln, cl)
    /\ pos1 = (pos + Py.len (Re.whole m))%nat
    /\ (if Lexer.is_ws r || Lexer.is_comment r then toks1 = toks
        else exists t, Re.group m (Lexer.group r) = Return t
                       /\ toks1 = toks ++ [Lexer.mkToken (Lexer.enum r) t ln cl]).
Proof.
  unfold Lexer.step.
  destruct (Lexer.find_line_col lines (Z.of_nat pos)) as [[ln cl]|]; [|discriminate].
  destruct (Lexer.matches rules (Py.drop pos d)) as [|x xs] eqn:Hm; [discriminate|].
  destruct ((x :: xs) !! Lexer.longest (x :: xs)) as [[r m]|] eqn:Hl; [|discriminate].
  assert (Hin : (r, m) ∈ Lexer.matches rules (Py.drop pos d)).
  { rewrite Hm. apply list_elem_of_lookup. eexists; exact Hl. }
  unfold Lexer.matches in Hin. apply list_elem_of_omap in Hin as (r' & Hr' & Hf).
  destruct (Lexer.pattern r') as [p|] eqn:Hp; [|discriminate].
  destruct (p (Py.drop pos d)) as [m'|] eqn:Hpm; [|discriminate].
  inversion Hf; subst r' m'. intros Hstep.
  exists r, p, m, ln, cl. do 4 (split; [assumption || reflexivity|]).
  destruct (Lexer.is_ws r || Lexer.is_comment r); simpl in Hstep.
  - inversion Hstep. split; reflexivity.
  - destruct (Re.group m (Lexer.group r)) as [t| |]; simpl in Hstep; try discriminate.
    inversion Hstep. split; [reflexivity|]. exists t. split; reflexivity.
Qed.

Lemma nonempty_eqb (s : string) : s <> "" -> String.eqb s "" = false.
Proof. intros H. apply String.eqb_neq. exact H. Qed.

(** What a match of a picture rule is: a prefix of the text, given back by
    the piece of its token. *)
Lemma picture_match r p s m :
  r ∈ PictureDecoder.rules -> Lexer.pattern r = Some p -> p s = Some m ->
  Lexer.is_ws r || Lexer.is_comment r = false
  /\ exists t rest,
       Re.group m (Lexer.group r) = Return t
       /\ s = Re.whole m +:+ rest
       /\ forall ln cl,
           source_text (Lexer.mkToken (Lexer.enum r) t ln cl) = Re.whole m
           /\ body_token (Lexer.mkToken (Lexer.enum r) t ln cl) = true.
Proof.
  intros Hr Hp Hm. unfold PictureDecoder.rules in Hr.
  repeat (apply elem_of_cons in Hr as [->|Hr]); [..|inversion Hr];
    simpl in Hp; inversion Hp; subst p; clear Hp; (split; [reflexivity|]).
  - unfold Re.plus in Hm. destruct (Py.span _ s) as [[|c w] rest] eqn:Hs; inversion Hm.
    apply span_spec in Hs as [-> Hall].
    exists (String c w), rest. split; [reflexivity|]. split; [reflexivity|].
    intros ln cl. split; [reflexivity|].
    unfold body_token, token_ok. simpl Lexer.t_enum. simpl Lexer.text. rewrite Hall. reflexivity.
  - unfold Re.plus in Hm. destruct (Py.span _ s) as [[|c w] rest] eqn:Hs; inversion Hm.
    apply span_spec in Hs as [-> Hall].
    exists (String c w), rest. split; [reflexivity|]. split; [reflexivity|].
    intros ln cl. split; [reflexivity|].
    unfold body_token, token_ok. simpl Lexer.t_enum. simpl Lexer.text. rewrite Hall. reflexivity.
  - unfold Re.lit in Hm. destruct s as [|c0 s']; [discriminate|].
    destruct (Ascii.eqb_spec "V" c0) as [<-|]; inversion Hm.
    exists "V", s'. repeat split; reflexivity.
  - unfold Re.lit in Hm. destruct s as [|c0 s']; [discriminate|].
    destruct (Ascii.eqb_spec "S" c0) as [<-|]; inversion Hm.
    exists "S", s'. repeat split; reflexivity.
  - unfold Re.delimited in Hm. destruct s as [|c0 s']; [discriminate|].
    destruct (Ascii.eqb_spec "(" c0) as [<-|]; [|discriminate].
    destruct (Py.span _ s') as [[|c w] [|e rest]] eqn:Hs; try discriminate.
    destruct (Ascii.eqb_spec ")" e) as [<-|]; inversion Hm.
    apply span_spec in Hs as [-> Hall].
    exists (String c w), rest. split; [reflexivity|]. split.
    + simpl. rewrite append_assoc. reflexivity.
    + intros ln cl. split; [reflexivity|].
      unfold body_token, token_ok. simpl Lexer.t_enum. simpl Lexer.text. rewrite Hall. reflexivity.
Qed.

Lemma source_of_snoc toks t : source_of (toks ++ [t]) = source_of toks +:+ source_text t.
Proof.
  unfold source_of. rewrite fmap_app. simpl.
  induction (source_text <$> toks) as [|a l IH]; simpl.
  - apply append_nil_r.
  - rewrite IH, append_assoc. reflexivity.
Qed.

(** The scan from offset [pos], with the tokens of the text before it. *)
Lemma picture_scan lines d fuel : forall pos toks toks',
  (pos <= Py.len d)%nat ->
  Lexer.scan fuel PictureDecoder.rules lines d pos toks = (Return tt, toks') ->
  source_of toks = Py.take pos d ->
  Forall (fun t => body_token t = true) toks ->
  exists body ln cl,
    toks' = body ++ [Lexer.mkToken PictureDecoder.T_EOL "<EOF>" ln cl]
    /\ source_of body = d
    /\ Forall (fun t => body_token t = true) body.
Proof.
  induction fuel as [|f IH]; intros pos toks toks' Hpos Hscan Hsrc Hall; simpl in Hscan;
    [discriminate|].
  destruct (Lexer.step _ lines d pos toks) as [[toks1 pos1]| |] eqn:Hstep; try discriminate.
  destruct (step_emits _ _ _ _ _ _ _ Hstep) as (r & p & m & ln & cl & Hr & Hp & Hm & Hlc & -> & Hemit).
  destruct (picture_match r p _ m Hr Hp Hm) as (Hws & t & rest & Hg & Hd & Htok).
  rewrite Hws in Hemit. destruct Hemit as (t' & Hg' & ->).
  rewrite Hg in Hg'. inversion Hg'; subst t'.
  destruct (Htok ln cl) as [Hsrc1 Hok1].
  destruct (take_prefix pos d (Re.whole m) rest Hpos Hd) as [Htake _].
  assert (Hsrc' : source_of (toks ++ [Lexer.mkToken (Lexer.enum r) t ln cl])
                  = Py.take (pos + Py.len (Re.whole m)) d).
  { rewrite source_of_snoc, Hsrc1, Hsrc, Htake. reflexivity. }
  assert (Hall' : Forall (fun t => body_token t = true)
                         (toks ++ [Lexer.mkToken (Lexer.enum r) t ln cl])).
  { apply Forall_app. split; [exact Hall|]. constructor; [exact Hok1 | constructor]. }
  destruct (Nat.leb_spec (Py.len d) (pos + Py.len (Re.whole m))) as [Hend|Hmore].
  - rewrite Hlc in Hscan.
    change (Lexer.eof_rule PictureDecoder.rules)
      with (Some (Lexer.mkRule PictureDecoder.T_EOL "" (fun _ : string => None) 0 false true false))
      in Hscan.
    inversion Hscan.
    eexists _, ln, cl. split; [reflexivity|]. split; [|exact Hall'].
    rewrite Hsrc'. apply take_all. exact Hend.
  - eapply IH; [| exact Hscan | exact Hsrc' | exact Hall']. lia.
Qed.

(** [parse] with a non-empty argument forgets the lexer it is called on. *)
Lemma parse_nonempty {E : Type} (rules : list (Lexer.Rule E)) lx (arg : string) :
  arg <> "" ->
  Lexer.parse rules lx arg
  = (let '(r, toks) := Lexer.scan (Py.len arg) rules (Lexer.break_lines arg) arg 0 [] in
     (_ ← r; Return (Some toks), Lexer.mkState (Some arg) toks)).
Proof. destruct arg as [|c r]; [congruence|]. reflexivity. Qed.

(** X6: when the lexer of the picture decoder returns on a non-empty text,
    the token list is the tokens of the text followed by exactly one end
    marker "<EOF>"; each token before the marker is a non-empty run of X or
    x, a non-empty run of 9, V, S, or the digits of a parenthesised count;
    and the text is given back by putting the pieces of these tokens one
    after the other.  The lexer then holds that text and those tokens. *)
Theorem picture_lexer_lossless lx (pic : string) toks lx' :
  pic <> "" ->
  Lexer.parse PictureDecoder.rules lx pic = (Return (Some toks), lx') ->
  exists body ln cl,
    toks = body ++ [Lexer.mkToken PictureDecoder.T_EOL "<EOF>" ln cl]
    /\ source_of body = pic
    /\ Forall (fun t => body_token t = true) body
    /\ lx' = Lexer.mkState (Some pic) toks.
Proof.
  intros Hne Hparse. rewrite (parse_nonempty _ _ _ Hne) in Hparse.
  destruct (Lexer.scan _ _ _ _ _ _) as [r toks0] eqn:Hscan.
  destruct r as [[]| |]; simpl in Hparse; inversion Hparse; subst toks0 lx'.
  destruct (picture_scan _ _ _ 0%nat [] toks (Nat.le_0_l _) Hscan eq_refl (List.Forall_nil _))
    as (body & ln & cl & Htoks & Hsrc & Hall).
  exists body, ln, cl. repeat split; assumption.
Qed.

Lemma picture_lexer_lossless_witness :
  exists body ln cl,
    tokens_9_05 = body ++ [Lexer.mkToken PictureDecoder.T_EOL "<EOF>" ln cl]
    /\ source_of body = "9(05)"
    /\ Forall (fun t => body_token t = true) body
    /\ Lexer.mkState (Some "9(05)") tokens_9_05 = Lexer.mkState (Some "9(05)") tokens_9_05.
Proof.
  apply (picture_lexer_lossless Lexer.new "9(05)").
  - apply String.eqb_neq. reflexivity.
  - vm_compute. reflexivity.
Defined.

(** ** [int] of a run of digits *)

Lemma digit_not_space c : Py.is_digit c = true -> Py.is_space c = false.
Proof.
  intros H. destruct c as [[] [] [] [] [] [] [] []];
    first [reflexivity | vm_compute in H; discriminate H].
Qed.

Lemma digit_not_int_space c : Py.is_digit c = true -> Py.is_int_space c = false.
Proof.
  intros H. destruct c as [[] [] [] [] [] [] [] []];
    first [reflexivity | vm_compute in H; discriminate H].
Qed.

Lemma digit_value_nonneg c : Py.is_digit c = true -> 0 <= Py.digit_value c.
Proof.
  unfold Py.is_digit, Py.digit_value. intros H.
  apply andb_true_iff in H as [H1 _]. apply Nat.leb_le in H1. lia.
Qed.

Lemma all_chars_rev_onto p s acc :
  all_chars p s = true -> all_chars p acc = true -> all_chars p (Py.rev_onto s acc) = true.
Proof.
  revert acc. induction s as [|c r IH]; intros acc Hs Ha; simpl in *; [exact Ha|].
  apply andb_true_iff in Hs as [Hc Hr]. apply IH; [exact Hr|]. simpl. rewrite Hc, Ha. reflexivity.
Qed.

Lemma rev_onto_rev_onto s acc acc' :
  Py.rev_onto (Py.rev_onto s acc) acc' = Py.rev_onto acc (s +:+ acc').
Proof.
  revert acc. induction s as [|c r IH]; intros acc; simpl; [reflexivity|].
  rewrite IH. reflexivity.
Qed.

Lemma lstrip_digits s : all_chars Py.is_digit s = true -> Py.lstrip s = s.
Proof.
  unfold Py.lstrip. destruct s as [|c r]; simpl; [reflexivity|].
  intros H. apply andb_true_iff in H as [Hc _].
  rewrite (digit_not_space c Hc). reflexivity.
Qed.

Lemma strip_digits s : all_chars Py.is_digit s = true -> Py.strip s = s.
Proof.
  intros H. unfold Py.strip. rewrite (lstrip_digits s H).
  rewrite lstrip_digits by (apply all_chars_rev_onto; [exact H | reflexivity]).
  rewrite rev_onto_rev_onto. simpl. apply append_nil_r.
Qed.

Lemma int_lstrip_digits s :
  all_chars Py.is_digit s = true -> snd (Py.span Py.is_int_space s) = s.
Proof.
  destruct s as [|c r]; simpl; [reflexivity|].
  intros H. apply andb_true_iff in H as [Hc _].
  rewrite (digit_not_int_space c Hc). reflexivity.
Qed.

Lemma int_strip_digits s : all_chars Py.is_digit s = true -> Py.int_strip s = s.
Proof.
  intros H. unfold Py.int_strip. rewrite (int_lstrip_digits s H).
  rewrite int_lstrip_digits by (apply all_chars_rev_onto; [exact H | reflexivity]).
  rewrite rev_onto_rev_onto. simpl. apply append_nil_r.
Qed.

Lemma count_digits_all s : all_chars Py.is_digit s = true -> Py.count_digits s = Py.len s.
Proof.
  unfold Py.len. induction s as [|c r IH]; simpl; [reflexivity|]. intros H.
  apply andb_true_iff in H as [Hc Hr]. rewrite Hc, (IH Hr). reflexivity.
Qed.

Lemma int_digits_nonneg s : forall acc after v,
  0 <= acc -> Py.int_digits s acc after = Some v -> 0 <= v.
Proof.
  induction s as [|c r IH]; intros acc after v Hacc H; simpl in H.
  - destruct after; inversion H; subst; exact Hacc.
  - destruct (Py.is_digit c) eqn:Hc.
    + pose proof (digit_value_nonneg c Hc). eapply IH; [|exact H]. lia.
    + destruct (Ascii.eqb c "_" && after); [|discriminate]. apply (IH _ _ _ Hacc H).
Qed.

Lemma int_digits_total s : forall acc after,
  all_chars Py.is_digit s = true -> (s <> "" \/ after = true) ->
  exists v, Py.int_digits s acc after = Some v.
Proof.
  induction s as [|c r IH]; intros acc after Hs Hne; simpl in *.
  - destruct Hne as [?| ->]; [congruence|]. eexists; reflexivity.
  - apply andb_true_iff in Hs as [Hc Hr]. rewrite Hc.
    apply IH; [exact Hr | right; reflexivity].
Qed.

Lemma digit_no_sign c r :
  Py.is_digit c = true ->
  match String c r with
  | String "-" r0 => (-1, r0)
  | String "+" r0 => (1, r0)
  | _ => (1, String c r)
  end = (1, String c r).
Proof.
  intros H. destruct c as [[] [] [] [] [] [] [] []];
    first [reflexivity | vm_compute in H; discriminate H].
Qed.

(** [int] of a non-empty run of digits returns a number that is not
    negative, unless the run has more digits than [int] accepts. *)
Lemma int_of_digits s :
  s <> "" -> all_chars Py.is_digit s = true ->
  match Py.int s with
  | Return v => 0 <= v
  | Raise e => e = ValueError /\ (Py.int_max_str_digits < Py.len s)%nat
  | Stuck => False
  end.
Proof.
  intros Hne Hs. unfold Py.int. rewrite (int_strip_digits s Hs).
  destruct s as [|c r]; [congruence|].
  pose proof Hs as Hs'. simpl in Hs'. apply andb_true_iff in Hs' as [Hc _].
  rewrite (digit_no_sign c r Hc), (count_digits_all _ Hs).
  destruct (Nat.ltb_spec Py.int_max_str_digits (Py.len (String c r))) as [Hlong|Hshort].
  - split; [reflexivity | exact Hlong].
  - destruct (int_digits_total (String c r) 0 false Hs ltac:(left; discriminate)) as [v Hv].
    rewrite Hv. assert (H0 : 0 <= v) by (eapply int_digits_nonneg; [|exact Hv]; lia). lia.
Qed.

(** ** The decoder keeps its invariant *)

Lemma text_len_nonneg (t : PictureDecoder.Token) : 0 <= PictureDecoder.text_len t.
Proof. unfold PictureDecoder.text_len. lia. Qed.

Lemma token_len_int (t : PictureDecoder.Token) :
  Lexer.t_enum t = PictureDecoder.T_LEN -> token_ok t = true ->
  match Py.int (Lexer.text t) with
  | Return v => 0 <= v
  | Raise e => e = ValueError /\ long_count t
  | Stuck => False
  end.
Proof.
  intros He H. unfold token_ok in H. rewrite He in H.
  apply andb_true_iff in H as [Hne Hd].
  assert (Hne' : Lexer.text t <> "") by (intros Heq; rewrite Heq in Hne; discriminate Hne).
  pose proof (int_of_digits _ Hne' Hd) as Hi.
  destruct (Py.int (Lexer.text t)); [exact Hi | | exact Hi].
  destruct Hi as [-> Hlong]. split; [reflexivity|]. split; assumption.
Qed.

Ltac inv_split :=
  unfold decode_inv, picture_ok, PictureDecoder.set_type, PictureDecoder.set_length,
    PictureDecoder.set_signed, PictureDecoder.set_scale in *;
  simpl in *;
  repeat match goal with
    | H : _ /\ _ |- _ => destruct H
    | |- _ /\ _ => split
    end;
  try solve [ assumption | reflexivity | discriminate | lia | congruence
            | intros; discriminate | intros; congruence | auto
            | intros; repeat split; auto; lia ].

(** One pass on a well-formed token: it stops with [None], or goes on in a
    state whose invariant holds; it raises only the [ValueError] of [int] on
    a count that is too long. *)
Lemma decode_pass_ok st pic (t : PictureDecoder.Token) rest :
  token_ok t = true ->
  Forall (fun t => token_ok t = true) rest ->
  (rest = [] -> is_eol t = true) ->
  decode_inv st pic ->
  match PictureDecoder.pass st pic t rest with
  | Return PictureDecoder.Done => True
  | Return (PictureDecoder.Next st' p' sk) =>
      decode_inv st' p'
      /\ (sk = true -> exists n r, rest = n :: r /\ Lexer.t_enum n = PictureDecoder.T_LEN)
      /\ (is_eol t = true -> st' <> PictureDecoder.T_BEGIN)
  | Raise e => e = ValueError /\ Exists long_count (t :: rest)
  | Stuck => False
  end.
Proof.
  intros Hok Hrest Hlast Hinv.
  pose proof (text_len_nonneg t) as Hlen.
  unfold PictureDecoder.pass, is_eol in *.
  destruct (Lexer.t_enum t) eqn:He; destruct st; simpl;
    try (pose proof (token_len_int t He Hok) as Hint;
         destruct (Py.int (Lexer.text t)) as [v|e'|]; simpl;
         [ | destruct Hint as [-> Hlong]; split;
             [reflexivity | apply Exists_cons_hd; exact Hlong]
           | contradiction ]);
    try solve [ exact I | inv_split ].
  - (* BEGIN, X *)
    destruct (decide (picture_type pic <> P_NONE)); [exact I|].
    assert (Hnone : picture_type pic = P_NONE).
    { destruct (decide (picture_type pic = P_NONE)); [assumption | contradiction]. }
    destruct (PictureDecoder.text_len t =? 1); inv_split.
  - (* BEGIN, 9 *)
    destruct (PictureDecoder.text_len t =? 1); inv_split.
  - (* WAIT_FIXED_POINT, 9 *)
    destruct (PictureDecoder.text_len t =? 1) eqn:H1; simpl.
    + destruct rest as [|nxt rest']; [specialize (Hlast eq_refl); discriminate|]. simpl.
      destruct (bool_decide (Lexer.t_enum nxt = PictureDecoder.T_LEN)) eqn:Hn.
      * apply bool_decide_eq_true in Hn. inversion Hrest; subst.
        pose proof (token_len_int nxt Hn ltac:(assumption)) as Hint.
        destruct (Py.int (Lexer.text nxt)) as [v|e'|]; simpl.
        -- inv_split. intros _. eauto.
        -- destruct Hint as [-> Hlong]. split; [reflexivity|].
           apply Exists_cons_tl, Exists_cons_hd. exact Hlong.
        -- contradiction.
      * inv_split.
    + inv_split.
Qed.

Lemma last_cons_nonempty {A} (x : A) (l : list A) : l <> [] -> last (x :: l) = last l.
Proof. destruct l; [congruence | reflexivity]. Qed.

(** The loop on well-formed tokens that end with the end marker: it returns
    [None] or a picture that satisfies [picture_ok]; it raises only the
    [ValueError] of [int] on a count that is too long. *)
Lemma decode_loop_ok toks : forall skip st pic,
  Forall (fun t => token_ok t = true) toks ->
  (forall e, last toks = Some e -> is_eol e = true) ->
  (skip = true -> exists n r, toks = n :: r /\ Lexer.t_enum n = PictureDecoder.T_LEN) ->
  (toks = [] -> st <> PictureDecoder.T_BEGIN) ->
  decode_inv st pic ->
  match PictureDecoder.loop toks skip st pic with
  | Return (Some p) => picture_ok p
  | Return None => True
  | Raise e => e = ValueError /\ Exists long_count toks
  | Stuck => False
  end.
Proof.
  induction toks as [|t rest IH]; intros skip st pic Hall Hlast Hskip Hnil Hinv; simpl.
  - specialize (Hnil eq_refl).
    destruct st; unfold decode_inv, picture_ok in *; simpl in *;
      try congruence; try tauto;
      destruct Hinv as (Hd & Hl & Ht & Hrest);
      try destruct Hrest;
      rewrite ?Ht; repeat split; try assumption; try discriminate; try lia; try congruence.
  - inversion Hall as [|? ? Hok Hall']; subst.
    assert (Hlast' : forall e, last rest = Some e -> is_eol e = true).
    { intros e He. apply Hlast. rewrite last_cons_nonempty; [exact He|].
      intros ->. discriminate. }
    destruct skip.
    + destruct (Hskip eq_refl) as (n & r & Heq & Hn). inversion Heq; subst n r.
      assert (Hgo : match PictureDecoder.loop rest false st pic with
                    | Return (Some p) => picture_ok p
                    | Return None => True
                    | Raise e => e = ValueError /\ Exists long_count rest
                    | Stuck => False
                    end).
      { apply IH; [exact Hall' | exact Hlast' | discriminate | | exact Hinv].
        intros ->. specialize (Hlast t eq_refl).
        unfold is_eol in Hlast. rewrite Hn in Hlast. discriminate. }
      destruct (PictureDecoder.loop rest false st pic) as [[?|]|e|]; try exact Hgo.
      destruct Hgo as [-> Hex]. split; [reflexivity | apply Exists_cons_tl, Hex].
    + assert (Hend : rest = [] -> is_eol t = true).
      { intros ->. apply Hlast. reflexivity. }
      pose proof (decode_pass_ok st pic t rest Hok Hall' Hend Hinv) as Hpass.
      destruct (PictureDecoder.pass st pic t rest) as [[|st' p' sk]| |];
        [exact I | | exact Hpass | contradiction].
      destruct Hpass as (Hinv' & Hsk & Hbegin).
      assert (Hgo : match PictureDecoder.loop rest sk st' p' with
                    | Return (Some p) => picture_ok p
                    | Return None => True
                    | Raise e => e = ValueError /\ Exists long_count rest
                    | Stuck => False
                    end).
      { apply IH; [exact Hall' | exact Hlast' | exact Hsk | | exact Hinv'].
        intros Hr. apply Hbegin. apply Hend. exact Hr. }
      destruct (PictureDecoder.loop rest sk st' p') as [[?|]|e|]; try exact Hgo.
      destruct Hgo as [-> Hex]. split; [reflexivity | apply Exists_cons_tl, Hex].
Qed.

Lemma decode_inv_new : decode_inv PictureDecoder.T_BEGIN PictureDecoder.new_picture.
Proof. unfold decode_inv. simpl. repeat split; try lia; try discriminate. Qed.

Lemma body_token_ok (t : PictureDecoder.Token) : body_token t = true -> token_ok t = true.
Proof. unfold body_token. intros H. apply andb_true_iff in H as [_ H]. exact H. Qed.

(** Under the picture rules a pass raises nothing but the [ParserError] of
    an offset where no rule matches. *)
Lemma picture_step_raises d pos toks e :
  (pos < Py.len d)%nat ->
  Lexer.step PictureDecoder.rules (Lexer.break_lines d) d pos toks = Raise e ->
  exists ln cl s, e = ParserError ln cl s.
Proof.
  intros Hpos. unfold Lexer.step, Lexer.break_lines.
  destruct (find_line_col_break_lines d 1 0 0 (Z.of_nat pos)) as [[ln cl] ->]; [lia | lia |].
  destruct (Lexer.matches PictureDecoder.rules (Py.drop pos d)) as [|x xs] eqn:Hm.
  { intros H. inversion H. eauto. }
  destruct (longest_spec (x :: xs) ltac:(discriminate)) as ([r m] & Hlook & _).
  rewrite Hlook.
  assert (Hin : (r, m) ∈ Lexer.matches PictureDecoder.rules (Py.drop pos d)).
  { rewrite Hm. apply list_elem_of_lookup. eexists; exact Hlook. }
  unfold Lexer.matches in Hin. apply list_elem_of_omap in Hin as (r' & Hr' & Hf).
  destruct (Lexer.pattern r') as [p|] eqn:Hp; [|discriminate].
  destruct (p (Py.drop pos d)) as [m'|] eqn:Hpm; [|discriminate].
  inversion Hf; subst r' m'.
  destruct (picture_match r p _ m Hr' Hp Hpm) as (Hws & t & rest & Hg & _).
  rewrite Hws, Hg. simpl. discriminate.
Qed.

Lemma picture_scan_raises d fuel : forall pos toks e,
  (pos < Py.len d)%nat ->
  (Lexer.scan fuel PictureDecoder.rules (Lexer.break_lines d) d pos toks).1 = Raise e ->
  exists ln cl s, e = ParserError ln cl s.
Proof.
  induction fuel as [|f IH]; intros pos toks e Hpos Hscan; simpl in Hscan; [discriminate|].
  destruct (Lexer.step _ _ d pos toks) as [[toks1 pos1]|e1|] eqn:Hstep; simpl in Hscan.
  - destruct (Nat.leb_spec (Py.len d) pos1).
    + destruct (Lexer.find_line_col _ _) as [[? ?]|]; discriminate.
    + apply (IH pos1 toks1 e); assumption.
  - inversion Hscan; subst e1. exact (picture_step_raises d pos toks e Hpos Hstep).
  - discriminate.
Qed.

(** What [parse] under the picture rules can give on a non-empty text. *)
Lemma picture_lexer_lossless_aux lx (pic : string) :
  pic <> "" ->
  match (Lexer.parse PictureDecoder.rules lx pic).1 with
  | Return (Some toks) =>
      exists body ln cl,
        toks = body ++ [Lexer.mkToken PictureDecoder.T_EOL "<EOF>" ln cl]
        /\ source_of body = pic
        /\ Forall (fun t => body_token t = true) body
  | Return None => False
  | Raise e => exists ln cl s, e = ParserError ln cl s
  | Stuck => False
  end.
Proof.
  intros Hne. rewrite (parse_nonempty _ _ _ Hne).
  pose proof (scan_not_stuck PictureDecoder.rules picture_rules_progress
                (Lexer.break_lines pic) pic (Py.len pic) 0 []) as Hns.
  pose proof (picture_scan_raises pic (Py.len pic) 0 []) as Hraise.
  destruct (Lexer.scan _ _ _ _ _ _) as [r toks] eqn:Hscan. simpl in *.
  destruct r as [[]|e|]; simpl.
  - destruct (picture_scan _ _ _ 0%nat [] toks (Nat.le_0_l _) Hscan eq_refl (List.Forall_nil _))
      as (body & ln & cl & Htoks & Hsrc & Hall).
    exists body, ln, cl. split; [assumption|]. split; assumption.
  - apply Hraise; [|reflexivity].
    destruct pic; [congruence|]. unfold Py.len. simpl. lia.
  - apply Hns; [|lia|reflexivity].
    destruct pic; [congruence|]. unfold Py.len. simpl. lia.
Qed.

(** A token is not longer than the text that the tokens stand for. *)
Lemma long_count_source (body : list PictureDecoder.Token) :
  Exists long_count body -> (Py.int_max_str_digits < Py.len (source_of body))%nat.
Proof.
  unfold source_of, long_count. generalize Py.int_max_str_digits as n. intros n.
  induction body as [|t rest IH]; intros Hex; inversion Hex as [? ? Hh|? ? Ht]; subst.
  - destruct Hh as [He Hlong]. cbn [fmap list_fmap foldr]. rewrite len_append.
    unfold source_text. rewrite He, !len_append. lia.
  - cbn [fmap list_fmap foldr]. rewrite len_append. specialize (IH Ht). lia.
Qed.

(** [decode] on a non-empty picture, whatever the lexer of the decoder held:
    a picture that satisfies [picture_ok], [None], the [ParserError] of the
    lexer, or the [ValueError] of [int] on a count of too many digits. *)
Lemma decode_ok lx (pic : string) :
  pic <> "" ->
  match (PictureDecoder.decode lx pic).1 with
  | Return (Some p) => picture_ok p
  | Return None => True
  | Raise e => (exists ln cl s, e = ParserError ln cl s)
               \/ (e = ValueError /\ (Py.int_max_str_digits < Py.len pic)%nat)
  | Stuck => False
  end.
Proof.
  intros Hne. unfold PictureDecoder.decode.
  pose proof (picture_lexer_lossless_aux lx pic Hne) as Hlex.
  destruct (Lexer.parse PictureDecoder.rules lx pic) as [r lx']. simpl in *.
  destruct r as [[toks|]|e|]; simpl; [| contradiction | left; exact Hlex | exact Hlex].
  destruct Hlex as (body & ln & cl & -> & Hsrc & Hall).
  match goal with |- match ?l with _ => _ end =>
    assert (Hloop : match l with
                    | Return (Some p) => picture_ok p
                    | Return None => True
                    | Raise e => e = ValueError
                                 /\ Exists long_count
                                      (body ++ [Lexer.mkToken PictureDecoder.T_EOL "<EOF>" ln cl])
                    | Stuck => False
                    end); [| destruct l as [[?|]|e|]; try solve [assumption | contradiction]]
  end.
  - apply decode_loop_ok.
    + apply Forall_app. split; [|repeat constructor].
      eapply Forall_impl; [exact Hall|]. intros t Ht. apply body_token_ok. exact Ht.
    + intros e He. rewrite last_snoc in He. inversion He. reflexivity.
    + discriminate.
    + intros H. destruct body; discriminate.
    + exact decode_inv_new.
  - destruct Hloop as [-> Hex]. right. split; [reflexivity|].
    rewrite <- Hsrc. apply long_count_source.
    apply Exists_app in Hex as [Hex|Hex]; [exact Hex|].
    inversion Hex as [? ? [Hen _]|? ? Hnil]; subst; [discriminate Hen | inversion Hnil].
Qed.

(** X7: every picture that [decodePicture] returns has a kind (string or
    numeric), a scale between 0 and its length, and no default; a string
    picture has scale 0 and is unsigned. *)
Theorem decodePicture_invariants (pic : string) (p : Picture) :
  decodePicture pic = Return (Some p) -> picture_ok p.
Proof.
  unfold decodePicture. intros Hd.
  destruct (String.eqb_spec pic "") as [->|Hne]; [discriminate|].
  pose proof (decode_ok Lexer.new pic Hne) as Hok. rewrite Hd in Hok. exact Hok.
Qed.

Lemma decodePicture_invariants_witness : picture_ok (mkPicture P_NUMERIC 7 2 "" true).
Proof. apply (decodePicture_invariants "S9(5)V99"). vm_compute. reflexivity. Defined.



(** ** Pictures that are one run *)

Lemma find_line_col_zero (s : string) :
  s <> "" -> Lexer.find_line_col (Lexer.break_lines s) (Z.of_nat 0) = Some (1, 1).
Proof.
  intros Hne. unfold Lexer.break_lines.
  assert (Hk : (0 < Py.len s)%nat).
  { destruct s; [congruence|]. unfold Py.len. simpl. lia. }
  pose proof (find_line_col_locate s 1 0 0 0%nat ltac:(lia) Hk) as H.
  change (0 + Z.of_nat 0) with (Z.of_nat 0) in H. rewrite H.
  destruct s; reflexivity.
Qed.

(** The scan of a text that one rule takes whole in its first pass. *)
Lemma scan_one_token (s : string) (e : PictureDecoder.TokenTypes) (t : string) fuel :
  s <> "" ->
  Lexer.step PictureDecoder.rules (Lexer.break_lines s) s 0 []
  = Return ([Lexer.mkToken e t 1 1], Py.len s) ->
  Lexer.scan (S fuel) PictureDecoder.rules (Lexer.break_lines s) s 0 []
  = (Return tt, [Lexer.mkToken e t 1 1; Lexer.mkToken PictureDecoder.T_EOL "<EOF>" 1 1]).
Proof.
  intros Hne Hstep. cbn [Lexer.scan]. rewrite Hstep, Nat.leb_refl.
  rewrite (find_line_col_zero s Hne). reflexivity.
Qed.

Lemma X_run_cases c : PictureDecoder.is_X c = true -> c = "X"%char \/ c = "x"%char.
Proof.
  unfold PictureDecoder.is_X. intros H. apply orb_true_iff in H as [H|H];
    apply Ascii.eqb_eq in H; auto.
Qed.

Lemma nine_run_cases c : PictureDecoder.is_9 c = true -> c = "9"%char.
Proof. unfold PictureDecoder.is_9. apply Ascii.eqb_eq. Qed.

Lemma step_X_run (s : string) :
  s <> "" -> all_chars PictureDecoder.is_X s = true ->
  Lexer.step PictureDecoder.rules (Lexer.break_lines s) s 0 []
  = Return ([Lexer.mkToken PictureDecoder.T_X s 1 1], Py.len s).
Proof.
  intros Hne Hall. unfold Lexer.step. rewrite (find_line_col_zero s Hne).
  destruct s as [|c r]; [congruence|].
  pose proof Hall as Hall'. simpl in Hall'. apply andb_true_iff in Hall' as [Hc Hr].
  assert (Hm : Lexer.matches PictureDecoder.rules (Py.drop 0 (String c r))
               = [(Lexer.mkRule PictureDecoder.T_X "X+" (Re.plus PictureDecoder.is_X) 0
                                false false false,
                   Re.mkMatch (String c r) [])]).
  { unfold Lexer.matches, PictureDecoder.rules.
    destruct (X_run_cases c Hc) as [-> | ->]; simpl; unfold Re.plus; simpl;
      rewrite (span_all _ r Hr); reflexivity. }
  rewrite Hm. reflexivity.
Qed.

Lemma step_9_run (s : string) :
  s <> "" -> all_chars PictureDecoder.is_9 s = true ->
  Lexer.step PictureDecoder.rules (Lexer.break_lines s) s 0 []
  = Return ([Lexer.mkToken PictureDecoder.T_9 s 1 1], Py.len s).
Proof.
  intros Hne Hall. unfold Lexer.step. rewrite (find_line_col_zero s Hne).
  destruct s as [|c r]; [congruence|].
  pose proof Hall as Hall'. simpl in Hall'. apply andb_true_iff in Hall' as [Hc Hr].
  assert (Hm : Lexer.matches PictureDecoder.rules (Py.drop 0 (String c r))
               = [(Lexer.mkRule PictureDecoder.T_9 "9+" (Re.plus PictureDecoder.is_9) 0
                                false false false,
                   Re.mkMatch (String c r) [])]).
  { unfold Lexer.matches, PictureDecoder.rules.
    rewrite (nine_run_cases c Hc). simpl. unfold Re.plus. simpl.
    rewrite (span_all _ r Hr). reflexivity. }
  rewrite Hm. reflexivity.
Qed.

(** X9: a picture that is one non-empty run of X (in either case) decodes
    to a string picture whose length is the length of the run, and one
    non-empty run of 9 to an unsigned numeric picture of that length with
    scale 0. *)
Theorem decodePicture_runs (pic : string) :
  pic <> "" ->
  (all_chars PictureDecoder.is_X pic = true ->
   decodePicture pic = Return (Some (mkPicture P_STRING (Z.of_nat (Py.len pic)) 0 "" false)))
  /\ (all_chars PictureDecoder.is_9 pic = true ->
      decodePicture pic = Return (Some (mkPicture P_NUMERIC (Z.of_nat (Py.len pic)) 0 "" false))).
Proof.
  intros Hne.
  assert (Hlen : exists n, Py.len pic = S n).
  { destruct pic; [congruence|]. eexists; reflexivity. }
  destruct Hlen as [n Hn].
  split; intros Hall; unfold decodePicture, PictureDecoder.decode;
    rewrite (parse_nonempty _ _ _ Hne).
  all: rewrite Hn.
  - rewrite (scan_one_token pic PictureDecoder.T_X pic n Hne); [|apply step_X_run; assumption].
    simpl. unfold PictureDecoder.text_len. simpl. fold (Py.len pic). rewrite Hn.
    destruct n; [reflexivity|].
    destruct (Z.eqb_spec (Z.of_nat (S (S n))) 1) as [Heq|_]; [lia|]. reflexivity.
  - rewrite (scan_one_token pic PictureDecoder.T_9 pic n Hne); [|apply step_9_run; assumption].
    simpl. unfold PictureDecoder.text_len. simpl. fold (Py.len pic). rewrite Hn.
    destruct n; [reflexivity|].
    destruct (Z.eqb_spec (Z.of_nat (S (S n))) 1) as [Heq|_]; [lia|]. reflexivity.
Qed.

Lemma decodePicture_runs_witness :
  decodePicture "XxX" = Return (Some (mkPicture P_STRING (Z.of_nat (Py.len "XxX")) 0 "" false))
  /\ decodePicture "99" = Return (Some (mkPicture P_NUMERIC (Z.of_nat (Py.len "99")) 0 "" false)).
Proof.
  split.
  - apply (proj1 (decodePicture_runs "XxX" ltac:(apply String.eqb_neq; reflexivity))). reflexivity.
  - apply (proj2 (decodePicture_runs "99" ltac:(apply String.eqb_neq; reflexivity))). reflexivity.
Defined.

(** ** The token-stream parser *)

Section ParserProps.
Context {E : Type} `{EqDecision E}.
Implicit Types (p : Parser.State E) (enums : list E).

Lemma remaining_advance p (t : Lexer.Token E) :
  Parser.next_token p = Some t ->
  remaining p = t :: remaining (snd (Parser.advance_token p))
  /\ Parser.curr_token (snd (Parser.advance_token p)) = Some t
  /\ Parser.tokens (snd (Parser.advance_token p)) = Parser.tokens p.
Proof.
  intros Hn. unfold remaining, Parser.advance_token. rewrite Hn.
  destruct (Nat.ltb_spec (Parser.token_ptr p) (List.length (Parser.tokens p))) as [Hlt|Hge];
    simpl.
  - destruct (lookup_lt_is_Some_2 _ _ Hlt) as [x Hx]. rewrite Hx.
    rewrite (drop_S _ _ _ Hx). auto.
  - rewrite drop_ge by lia. auto.
Qed.

Lemma match_token_cases p (enum : E) (required : bool) :
  match Parser.match_token p enum None required with
  | (Parser.Ok true, p') =>
      exists t, Parser.next_token p = Some t /\ Lexer.t_enum t = enum
                /\ p' = snd (Parser.advance_token p)
  | (Parser.Ok false, p') =>
      required = false /\ p' = p
      /\ exists t, Parser.next_token p = Some t /\ Lexer.t_enum t <> enum
  | (Parser.Err Parser.UnexpectedEndOfInput, p') =>
      Parser.next_token p = None /\ p' = p
  | (Parser.Err (Parser.ExpectedToken e t), p') =>
      required = true /\ p' = p /\ e = enum
      /\ Parser.next_token p = Some t /\ Lexer.t_enum t <> enum
  | (Parser.Err (Parser.ExpectedString _ _ _), _) => False
  end.
Proof.
  unfold Parser.match_token. destruct (Parser.next_token p) as [nt|] eqn:Hn; [|auto].
  rewrite andb_true_r. case_bool_decide as Hd.
  - eauto.
  - destruct required; simpl; eauto 8.
Qed.

(** What the loop of [match_token_stream] does to the remaining input. *)
Lemma stream_loop_spec enums :
  forall p (required : bool) ta mark ct nt,
    match Parser.stream_loop p enums required ta mark ct nt with
    | (Parser.Ok r, p') =>
        (exists ts, r = ta ++ map Some ts /\ map Lexer.t_enum ts = enums
                    /\ remaining p = ts ++ remaining p'
                    /\ Parser.tokens p' = Parser.tokens p
                    /\ (ts = [] -> p' = p)
                    /\ (ts <> [] -> Parser.curr_token p' = last ts))
        \/ (r = [] /\ required = false
            /\ p' = Parser.mkState (Parser.tokens p) mark ct nt
            /\ exists ts t e rest,
                 prefix (ts ++ [t]) (remaining p)
                 /\ enums = map Lexer.t_enum ts ++ e :: rest /\ Lexer.t_enum t <> e)
    | (Parser.Err Parser.UnexpectedEndOfInput, p') =>
        remaining p' = [] /\ Parser.tokens p' = Parser.tokens p
        /\ exists rest, rest <> [] /\ enums = map Lexer.t_enum (remaining p) ++ rest
    | (Parser.Err (Parser.ExpectedToken e t), p') =>
        required = true /\ Parser.tokens p' = Parser.tokens p
        /\ exists ts rest_toks rest,
             remaining p = ts ++ t :: rest_toks /\ remaining p' = t :: rest_toks
             /\ enums = map Lexer.t_enum ts ++ e :: rest /\ Lexer.t_enum t <> e
    | (Parser.Err (Parser.ExpectedString _ _ _), _) => False
    end.
Proof.
  induction enums as [|enum rest IH]; intros p required ta mark ct nt; simpl.
  - left. exists []. rewrite app_nil_r. repeat split; auto. congruence.
  - pose proof (match_token_cases p enum required) as Hm.
    destruct (Parser.match_token p enum None required) as [[[|]|[| |e t]] p1].
    + destruct Hm as (t & Hn & He & ->).
      destruct (remaining_advance p t Hn) as (Hrem & Hcur & Htok).
      specialize (IH (snd (Parser.advance_token p)) required
                     (ta ++ [Parser.curr_token (snd (Parser.advance_token p))]) mark ct nt).
      destruct (Parser.stream_loop _ rest required _ mark ct nt) as [[r|[| |e' t']] p2].
      * destruct IH as [(ts & -> & Hen & Hr & Ht & Hnil & Hlast)
                       |(-> & Hreq & -> & ts & t' & e & rest' & Hpre & Hen & Hne)].
        -- left. exists (t :: ts). rewrite Hcur, <- app_assoc. simpl.
           rewrite He, Hen, Hrem, Hr, Ht, Htok. repeat split; auto; [congruence|].
           intros _. destruct ts as [|t2 ts'].
           ++ rewrite (Hnil eq_refl). simpl. exact Hcur.
           ++ rewrite Hlast by congruence. reflexivity.
        -- right. rewrite Htok. repeat split; auto.
           exists (t :: ts), t', e, rest'. simpl. rewrite He, Hen, Hrem.
           repeat split; auto. apply prefix_cons. exact Hpre.
      * destruct IH as (Hr & Ht & rest' & Hne & Hen).
        rewrite Hrem. simpl. rewrite Ht, Htok, He, Hen. repeat split; auto.
        exists rest'. auto.
      * exact IH.
      * destruct IH as (Hreq & Ht & ts & rt & rest' & Hr & Hr' & Hen & Hne).
        rewrite Ht, Htok. repeat split; auto.
        exists (t :: ts), rt, rest'. simpl. rewrite Hrem, Hr, He, Hen. auto.
    + destruct Hm as (Hreq & -> & t & Hn & Hne). right. repeat split; auto.
      exists [], t, enum, rest. simpl. repeat split; auto.
      unfold remaining. rewrite Hn. apply prefix_cons, prefix_nil.
    + destruct Hm as (Hn & ->). unfold remaining. rewrite Hn. simpl.
      repeat split; auto. exists (enum :: rest). split; [congruence|reflexivity].
    + exact Hm.
    + destruct Hm as (Hreq & -> & -> & Hn & Hne). repeat split; auto.
      exists [], (drop (Parser.token_ptr p) (Parser.tokens p)), rest.
      unfold remaining. rewrite Hn. simpl. auto.
Qed.

(** X10: [match_token_stream] is all or nothing when it returns.  Either it
    returns the empty list and the parser is exactly as before the call
    (rollback, or an empty [enum_list]); or it returns the next tokens of
    the input, one for each entry of [enum_list] with that entry's enum and
    none of them [None], the parser has moved past exactly these tokens and
    [curr_token] is the last of them. *)
Theorem match_token_stream_all_or_nothing p enums (required : bool) ta p' :
  Parser.match_token_stream p enums required = (Parser.Ok ta, p') ->
  (ta = [] /\ p' = p)
  \/ (exists ts, ts <> [] /\ ta = map Some ts /\ map Lexer.t_enum ts = enums
                 /\ remaining p = ts ++ remaining p'
                 /\ Parser.tokens p' = Parser.tokens p
                 /\ Parser.curr_token p' = last ts).
Proof.
  unfold Parser.match_token_stream. intros Hrun.
  pose proof (stream_loop_spec enums p required [] (Parser.token_ptr p)
                (Parser.curr_token p) (Parser.next_token p)) as Hs.
  rewrite Hrun in Hs.
  destruct Hs as [(ts & -> & Hen & Hr & Ht & Hnil & Hlast)|(-> & _ & -> & _)].
  - destruct ts as [|t ts'].
    + left. split; [reflexivity|]. apply Hnil. reflexivity.
    + right. exists (t :: ts'). repeat split; auto; try congruence.
  - left. split; [reflexivity|]. destruct p; reflexivity.
Qed.

(** X11: the exceptions of [match_token_stream].  'unexpected end of input'
    is raised, whatever [required] is, when every remaining token matched
    and entries of [enum_list] are left over; 'expected token' is raised
    only with [required] set, for the first token whose enum differs from
    its entry.  In both cases there is no rollback: the parser stays behind
    the tokens that matched (at the end of the input, or in front of the
    offending token). *)
Theorem match_token_stream_raises p enums (required : bool) m p' :
  Parser.match_token_stream p enums required = (Parser.Err m, p') ->
  Parser.tokens p' = Parser.tokens p
  /\ ((m = Parser.UnexpectedEndOfInput /\ remaining p' = []
       /\ exists rest, rest <> [] /\ enums = map Lexer.t_enum (remaining p) ++ rest)
      \/ (required = true
          /\ exists e t ts rest_toks rest,
               m = Parser.ExpectedToken e t
               /\ remaining p = ts ++ t :: rest_toks /\ remaining p' = t :: rest_toks
               /\ enums = map Lexer.t_enum ts ++ e :: rest /\ Lexer.t_enum t <> e)).
Proof.
  unfold Parser.match_token_stream. intros Hrun.
  pose proof (stream_loop_spec enums p required [] (Parser.token_ptr p)
                (Parser.curr_token p) (Parser.next_token p)) as Hs.
  rewrite Hrun in Hs. destruct m as [|s e t|e t].
  - destruct Hs as (Hr & Ht & Hrest). split; [exact Ht|]. left. auto.
  - contradiction.
  - destruct Hs as (Hreq & Ht & ts & rt & rest & Hr & Hr' & Hen & Hne).
    split; [exact Ht|]. right. split; [exact Hreq|].
    exists e, t, ts, rt, rest. auto.
Qed.

Lemma stream_loop_complete (ts : list (Lexer.Token E)) :
  forall p (required : bool) ta mark ct nt rest,
    remaining p = ts ++ rest ->
    exists p', Parser.stream_loop p (map Lexer.t_enum ts) required ta mark ct nt
               = (Parser.Ok (ta ++ map Some ts), p')
               /\ remaining p' = rest.
Proof.
  induction ts as [|t ts IH]; intros p required ta mark ct nt rest Hrem; simpl.
  - exists p. rewrite app_nil_r. auto.
  - assert (Hn : Parser.next_token p = Some t).
    { unfold remaining in Hrem. destruct (Parser.next_token p); simpl in Hrem; congruence. }
    destruct (remaining_advance p t Hn) as (Hrem' & Hcur & _).
    unfold Parser.match_token. rewrite Hn, bool_decide_eq_true_2 by reflexivity. simpl.
    destruct (IH (snd (Parser.advance_token p)) required
                 (ta ++ [Parser.curr_token (snd (Parser.advance_token p))])
                 mark ct nt rest) as (p' & Hrun & Hrest).
    { rewrite Hrem' in Hrem. simpl in Hrem. congruence. }
    exists p'. rewrite Hrun, Hcur, <- app_assoc. auto.
Qed.

(** X12: when the remaining input begins with tokens whose enums are the
    entries of [enum_list], in order, [match_token_stream] returns exactly
    these tokens and leaves exactly the rest of the input to read. *)
Theorem match_token_stream_matches p (ts rest : list (Lexer.Token E)) (required : bool) :
  remaining p = ts ++ rest ->
  exists p', Parser.match_token_stream p (map Lexer.t_enum ts) required
             = (Parser.Ok (map Some ts), p')
             /\ remaining p' = rest.
Proof.
  intros Hrem. unfold Parser.match_token_stream.
  apply (stream_loop_complete ts p required [] _ _ _ rest Hrem).
Qed.

(** X13: [start] on a new parser returns exactly when the lexer returns a
    token list (and raises [TypeError] when the lexer returns [None], as it
    does for empty data); the input left to read is then the whole token
    list, no token is current, and [has_next] tells whether the list has a
    token. *)
Theorem start_new (rules : list (Lexer.Rule E)) (lx : Lexer.State E) (data : string) :
  match fst (Lexer.parse rules lx data) with
  | Return (Some ts) =>
      exists p, fst (Parser.start rules lx Parser.new data) = Return p
                /\ remaining p = ts /\ Parser.tokens p = ts
                /\ Parser.curr_token p = None
                /\ Parser.has_next p = bool_decide (ts <> [])
  | Return None => fst (Parser.start rules lx Parser.new data) = Raise TypeError
  | Raise e => fst (Parser.start rules lx Parser.new data) = Raise e
  | Stuck => fst (Parser.start rules lx Parser.new data) = Stuck
  end.
Proof.
  unfold Parser.start. destruct (Lexer.parse rules lx data) as [[[ts|]|e|] lx']; simpl; auto.
  eexists; split; [reflexivity|].
  destruct ts as [|t ts]; unfold remaining; simpl; rewrite ?drop_0; auto.
Qed.

End ParserProps.

Lemma match_token_stream_all_or_nothing_witness :
  let a := Lexer.mkToken 1%nat "a" 1 1 in
  let b := Lexer.mkToken 2%nat "b" 1 2 in
  let p := Parser.mkState [a; b] 1 None (Some a) in
  ([Some a] = [] /\ Parser.mkState [a; b] 2 (Some a) (Some b) = p)
  \/ (exists ts, ts <> [] /\ [Some a] = map Some ts /\ map Lexer.t_enum ts = [1%nat]
                 /\ remaining p = ts ++ remaining (Parser.mkState [a; b] 2 (Some a) (Some b))
                 /\ Parser.tokens (Parser.mkState [a; b] 2 (Some a) (Some b)) = Parser.tokens p
                 /\ Parser.curr_token (Parser.mkState [a; b] 2 (Some a) (Some b)) = last ts).
Proof.
  intros a b p.
  apply (match_token_stream_all_or_nothing p [1%nat] false). reflexivity.
Defined.

Lemma match_token_stream_raises_witness :
  let a := Lexer.mkToken 1%nat "a" 1 1 in
  let p := Parser.mkState [a] 1 None (Some a) in
  let p' := Parser.mkState [a] 1 (Some a) None in
  Parser.tokens p' = Parser.tokens p
  /\ ((@Parser.UnexpectedEndOfInput nat = Parser.UnexpectedEndOfInput /\ remaining p' = []
       /\ exists rest, rest <> [] /\ [1%nat; 2%nat] = map Lexer.t_enum (remaining p) ++ rest)
      \/ (false = true
          /\ exists e t ts rest_toks rest,
               Parser.UnexpectedEndOfInput = Parser.ExpectedToken e t
               /\ remaining p = ts ++ t :: rest_toks /\ remaining p' = t :: rest_toks
               /\ [1%nat; 2%nat] = map Lexer.t_enum ts ++ e :: rest /\ Lexer.t_enum t <> e)).
Proof.
  intros a p p'.
  apply (match_token_stream_raises p [1%nat; 2%nat] false). reflexivity.
Defined.

Lemma match_token_stream_matches_witness :
  let a := Lexer.mkToken 1%nat "a" 1 1 in
  let b := Lexer.mkToken 2%nat "b" 1 2 in
  let p := Parser.mkState [a; b] 1 None (Some a) in
  exists p', Parser.match_token_stream p (map Lexer.t_enum [a]) true
             = (Parser.Ok (map Some [a]), p')
             /\ remaining p' = [b].
Proof.
  intros a b p.
  apply (match_token_stream_matches p [a] [b] true). reflexivity.
Defined.

(** ** The copybook tokenizer drops blanks only *)

Lemma all_chars_app p (a b : string) :
  all_chars p (a +:+ b) = all_chars p a && all_chars p b.
Proof. induction a as [|x a IH]; simpl; [reflexivity | rewrite IH, andb_assoc; reflexivity]. Qed.

Lemma run_of_ok cur : all_chars word_char cur = true -> Forall run_ok (run_of cur).
Proof.
  intros H. destruct cur; simpl; constructor; [|constructor].
  left. simpl. repeat split; [discriminate | exact H].
Qed.

Lemma text_runs_from_ok s : forall cur,
  all_chars word_char cur = true -> Forall run_ok (text_runs_from s cur).
Proof.
  induction s as [|c r IH]; intros cur Hcur; simpl.
  - apply run_of_ok, Hcur.
  - destruct (Tokenize.is_blank c) eqn:Hb; [| destruct (Tokenize.is_period c) eqn:Hp].
    + apply Forall_app. split; [apply run_of_ok, Hcur | apply IH; reflexivity].
    + apply Forall_app. split; [apply run_of_ok, Hcur|].
      constructor; [right; reflexivity | apply IH; reflexivity].
    + apply IH. rewrite all_chars_app, Hcur. simpl. unfold word_char. rewrite Hb, Hp. reflexivity.
Qed.

Lemma join_app (a b : list string) : join (a ++ b) = join a +:+ join b.
Proof.
  induction a as [|x a IH]; simpl; [reflexivity|].
  unfold join in *. simpl. rewrite IH, append_assoc. reflexivity.
Qed.

Lemma join_run_of cur : join (snd <$> run_of cur) = cur.
Proof. destruct cur; simpl; [reflexivity|]. unfold join. simpl. rewrite append_nil_r. reflexivity. Qed.

Lemma text_runs_from_join s : forall cur,
  join (snd <$> text_runs_from s cur) = cur +:+ remove_blanks s.
Proof.
  induction s as [|c r IH]; intros cur; simpl.
  - rewrite join_run_of, append_nil_r. reflexivity.
  - destruct (Tokenize.is_blank c) eqn:Hb; [| destruct (Tokenize.is_period c) eqn:Hp].
    + rewrite fmap_app, join_app, join_run_of, IH. reflexivity.
    + rewrite fmap_app, join_app, join_run_of. simpl.
      unfold join at 1. simpl. fold (join (snd <$> text_runs_from r "")). rewrite IH.
      apply Ascii.eqb_eq in Hp. subst c. reflexivity.
    + rewrite IH, append_assoc. reflexivity.
Qed.

(** The kinds and texts of the tokens that the loop of [tokenize] and the
    last flush produce. *)
Lemma tokenize_kinds (s : string) :
  exists v', Tokenize.run s Tokenize.init = Return v'
    /\ kind_text <$> Tokenize.v_tokens (Tokenize.flush v') = text_runs_from s "".
Proof.
  destruct (run_refines s Tokenize.init (or_introl eq_refl)) as (v' & Hrun & Hfin).
  exists v'. split; [exact Hrun|].
  unfold Tokenize.finish in Hfin. rewrite fmap_app in Hfin. simpl in Hfin.
  apply app_inj_tail in Hfin as [Hbody _]. exact Hbody.
Qed.

Lemma word_or_period_runs (body : list Token) (s : string) :
  kind_text <$> body = text_runs_from s "" -> Forall word_or_period body.
Proof.
  intros Hbody. pose proof (text_runs_from_ok s "" eq_refl) as Hok.
  rewrite <- Hbody in Hok. rewrite Forall_fmap in Hok.
  eapply Forall_impl; [exact Hok|]. intros t Ht. unfold run_ok, kind_text in Ht. simpl in Ht.
  destruct Ht as [Ht|Ht]; [left; exact Ht | right; inversion Ht; auto].
Qed.

(** X14: [tokenize] drops blanks and nothing else.  For every text it
    returns a list that ends in the one EOF token; each token before it is a
    word (a TEXT token, not empty, without blank or period) or a period (a
    PERIOD token with text '.'), and joining the texts of these tokens gives
    the text with its spaces, tabs and newlines removed. *)
Theorem tokenize_lossless (s : string) :
  exists body eof,
    tokenize s = Return (body ++ [eof])
    /\ enum eof = T_EOF /\ text eof = "(eof)"
    /\ Forall word_or_period body
    /\ join (text <$> body) = remove_blanks s.
Proof.
  destruct (tokenize_kinds s) as (v' & Hrun & Hbody).
  unfold tokenize. rewrite Hrun. simpl. unfold Tokenize.finish.
  exists (Tokenize.v_tokens (Tokenize.flush v')), (mkToken T_EOF "(eof)"
            (Tokenize.v_line (Tokenize.flush v')) (Tokenize.v_col (Tokenize.flush v'))).
  split; [reflexivity|]. split; [reflexivity|]. split; [reflexivity|].
  split.
  - exact (word_or_period_runs _ s Hbody).
  - pose proof (text_runs_from_join s "") as Hj. rewrite <- Hbody in Hj.
    rewrite <- list_fmap_compose in Hj. exact Hj.
Qed.

(** No token of [tokenize] has an empty text. *)
Lemma tokenize_texts (s : string) toks :
  tokenize s = Return toks -> Forall (fun t => text t <> "") toks.
Proof.
  destruct (tokenize_kinds s) as (v' & Hrun & Hbody).
  unfold tokenize. rewrite Hrun. simpl. unfold Tokenize.finish.
  intros H. inversion H; subst toks; clear H.
  apply Forall_app. split.
  - eapply Forall_impl; [exact (word_or_period_runs _ s Hbody)|].
    intros t [(_ & Hne & _)|(_ & Ht)]; [exact Hne|]. rewrite Ht. discriminate.
  - constructor; [|constructor]. discriminate.
Qed.

(** ** The positions that the tokens carry *)

Lemma count_newlines_app (a b : string) :
  count_newlines (a +:+ b) = count_newlines a + count_newlines b.
Proof. induction a as [|c a IH]; simpl; [reflexivity | rewrite IH; lia]. Qed.















(** ** What the copybook parser returns and raises *)

Lemma rev_onto_app (a b acc : string) :
  Py.rev_onto (a +:+ b) acc = Py.rev_onto b (Py.rev_onto a acc).
Proof. revert acc. induction a as [|x a IH]; intros acc; simpl; [reflexivity | apply IH]. Qed.

Lemma rev_onto_acc (s acc : string) : Py.rev_onto s acc = Py.rev_onto s "" +:+ acc.
Proof.
  revert acc. induction s as [|x s IH]; intros acc; simpl; [reflexivity|].
  rewrite IH, (IH (String x "")), append_assoc. reflexivity.
Qed.

(** What [int] skips does not reach a first character that is not white
    space. *)
Lemma int_strip_head (d : ascii) (r : string) :
  Py.is_int_space d = false -> exists r', Py.int_strip (String d r) = String d r'.
Proof.
  intros Hd. unfold Py.int_strip.
  assert (Hl : snd (Py.span Py.is_int_space (String d r)) = String d r).
  { simpl. rewrite Hd. reflexivity. }
  rewrite Hl. set (w := Py.rev_onto (String d r) "").
  destruct (Py.span Py.is_int_space w) as [pre w'] eqn:Hspan. simpl.
  destruct (span_spec Py.is_int_space w pre w' Hspan) as (Hw & Hpre).
  assert (Hrev : Py.rev_onto w "" = String d r).
  { unfold w. rewrite rev_onto_rev_onto. simpl. rewrite append_nil_r. reflexivity. }
  rewrite Hw, rev_onto_app, rev_onto_acc in Hrev.
  destruct w' as [|c w''].
  - simpl in Hrev.
    assert (Hall : all_chars Py.is_int_space (Py.rev_onto pre "") = true)
      by (apply all_chars_rev_onto; [exact Hpre | reflexivity]).
    rewrite Hrev in Hall. simpl in Hall. rewrite Hd in Hall. discriminate.
  - destruct (Py.rev_onto (String c w'') "") as [|x y] eqn:Hx.
    + simpl in Hx. rewrite rev_onto_acc in Hx. destruct (Py.rev_onto w'' ""); discriminate.
    + simpl in Hrev. inversion Hrev; subst. eexists; reflexivity.
Qed.

(** [int] of a text that begins with a digit is not negative. *)
Lemma int_leading_digit (s : string) (v : Z) :
  is_Some (Parse.re_int s) -> Py.int s = Return v -> 0 <= v.
Proof.
  unfold Parse.re_int, Re.plus. intros Hm Hint.
  destruct s as [|d r]; [simpl in Hm; destruct Hm; discriminate|].
  assert (Hd : Py.is_digit d = true).
  { simpl in Hm. destruct (Py.is_digit d); [reflexivity|]. destruct Hm; discriminate. }
  destruct (int_strip_head d r (digit_not_int_space d Hd)) as (r' & Hs).
  unfold Py.int in Hint. rewrite Hs, (digit_no_sign d r' Hd) in Hint.
  destruct (Py.int_max_str_digits <? Py.count_digits (String d r'))%nat; [discriminate|].
  destruct (Py.int_digits (String d r') 0 false) as [x|] eqn:Hx; [|discriminate].
  inversion Hint; subst.
  assert (H0 : 0 <= x) by (eapply int_digits_nonneg; [|exact Hx]; lia). lia.
Qed.

Lemma re_identifier_nonempty (s : string) : is_Some (Parse.re_identifier s) -> s <> "".
Proof. intros [m Hm] ->. discriminate. Qed.

Lemma value_text_returns t : exists vt, Parse.value_text t = Return vt.
Proof.
  unfold Parse.value_text. destruct (Parse.re_string (text t)); eexists; reflexivity.
Qed.

Lemma upper_nonempty (s : string) : s <> "" -> Py.upper s <> "".
Proof. destruct s; [congruence | discriminate]. Qed.

Lemma parser_error_at mk t :
  (forall s a b, mk s a b <> UnhandledState) ->
  (forall s a b x y z w, mk s a b <> CouldNotFindParent x y z w) ->
  parser_error (Parse.at_ mk t).
Proof. intros H1 H2. left. eexists. split; [reflexivity|]. split; [apply H1 | intros; apply H2]. Qed.

Lemma parser_error_pos mk t :
  (forall a b, mk a b <> UnhandledState) ->
  (forall a b x y z w, mk a b <> CouldNotFindParent x y z w) ->
  parser_error (Parse.pos mk t).
Proof. intros H1 H2. left. eexists. split; [reflexivity|]. split; [apply H1 | intros; apply H2]. Qed.

Ltac parser_raise :=
  first [ apply parser_error_at; intros; discriminate
        | apply parser_error_pos; intros; discriminate
        | right; left; reflexivity
        | right; right; left; reflexivity ].

(** Changing a field that [node_ok] does not read. *)
Lemma node_ok_redefines n r : node_ok n -> node_ok (set_redefines n r).
Proof. intros H. exact H. Qed.

Lemma node_ok_usage n u : node_ok n -> node_ok (set_usage n u).
Proof. intros H. exact H. Qed.

Lemma node_ok_indexed_by n i : node_ok n -> node_ok (set_indexed_by n i).
Proof. intros H. exact H. Qed.

Lemma node_ok_occurs n k : 0 <= k -> node_ok n -> node_ok (set_occurs n k).
Proof.
  intros Hk (H1 & H2 & H3 & H4 & H5). split; [exact H1|]. split; [exact H2|].
  split; [exact Hk|]. split; [exact H4 | exact H5].
Qed.

Lemma node_ok_picture n p : picture_ok p -> node_ok n -> node_ok (set_node_picture n p).
Proof.
  intros Hp (H1 & H2 & H3 & H4 & H5). split; [exact H1|]. split; [exact H2|].
  split; [exact H3|]. split; [|exact H5].
  simpl. intros q Hq. inversion Hq; subst. exact Hp.
Qed.

Lemma node_ok_enum_set n l :
  l <> [] -> node_level n = 88 -> node_ok n -> node_ok (set_enum_set n l).
Proof.
  intros Hl Hlv (H1 & H2 & H3 & H4 & H5). split; [exact H1|]. split; [exact H2|].
  split; [exact H3|]. split; [exact H4|].
  simpl. intros l' Hl'. inversion Hl'; subst. split; [exact Hl | exact Hlv].
Qed.

Lemma node_ok_new name lv : name <> "" -> 0 <= lv -> node_ok (new_node name lv N_NONE).
Proof.
  intros Hn Hl. split; [exact Hn|]. split; [exact Hl|]. split; [simpl; lia|].
  split; simpl; intros; discriminate.
Qed.

Lemma listed_ok_set_type n :
  node_ok n ->
  listed_ok (set_node_type n match node_picture n, enum_set n with
                             | Some _, _ => N_PICTURE
                             | None, Some (_ :: _) => N_ENUM
                             | None, _ => N_RECORD
                             end).
Proof.
  intros Hok. split; [exact Hok|]. simpl.
  destruct Hok as (_ & _ & _ & _ & H5).
  destruct (node_picture n); [reflexivity|].
  destruct (enum_set n) as [[|x l]|] eqn:He; try reflexivity.
  destruct (H5 [] eq_refl) as [Hne _]. congruence.
Qed.

Lemma int_raises s e : Py.int s = Raise e -> e = ValueError.
Proof.
  unfold Py.int.
  destruct (match Py.int_strip s with
            | String "-" r => (-1, r)
            | String "+" r => (1, r)
            | _ => (1, Py.int_strip s)
            end) as [sign body].
  destruct (Py.int_max_str_digits <? Py.count_digits body)%nat;
    [intros H; inversion H; reflexivity|].
  destruct (Py.int_digits body 0 false); intros H; inversion H; reflexivity.
Qed.

Lemma parse_inv_intro st lv nd dec nl :
  Forall listed_ok nl -> 0 <= lv ->
  match st with
  | Parse.S_START | Parse.S_SENTENCE => True
  | Parse.S_VALUE =>
      exists n, nd = Some n /\ (node_picture n = None -> node_ok n /\ node_level n = lv)
  | Parse.S_ENUM =>
      exists n, nd = Some n /\ node_ok n /\ node_level n = lv /\ is_Some (enum_set n)
  | _ => exists n, nd = Some n /\ node_ok n /\ node_level n = lv
  end ->
  parse_inv (Parse.mkVars st lv nd dec nl).
Proof. intros H1 H2 H3. split; [exact H1|]. split; [exact H2|]. exact H3. Qed.

(** One pass of [consume] keeps the invariant, and raises nothing but the
    exceptions of [parser_error]. *)
Lemma parse_pass_inv v t rest :
  parse_inv v -> text t <> "" ->
  match Parse.pass v t rest with
  | Return Parse.Finished => True
  | Return (Parse.Continue v' _) => parse_inv v'
  | Raise e => parser_error e
  | Stuck => False
  end.
Proof.
  intros (Hl & Hlv & Hst) Hne. unfold Parse.pass.
  destruct (Parse.state v) eqn:Hs.
  - (* S_START *)
    destruct (String.eqb (up_text t) "EJECT").
    { apply parse_inv_intro; auto. }
    destruct (bool_decide (enum t = T_TEXT) && bool_decide (is_Some (Parse.re_int (text t))))
      eqn:Hc.
    + apply andb_true_iff in Hc as [_ Hre]. apply bool_decide_eq_true in Hre.
      destruct (Py.int (text t)) as [lv'|e|] eqn:Hint; simpl.
      * apply parse_inv_intro; auto. exact (int_leading_digit _ _ Hre Hint).
      * rewrite (int_raises _ _ Hint). parser_raise.
      * exact (int_not_stuck _ Hint).
    + destruct (bool_decide (enum t = T_EOF)); [exact I | parser_raise].
  - (* S_SENTENCE *)
    destruct (bool_decide (enum t = T_TEXT)
              && bool_decide (is_Some (Parse.re_identifier (text t)))) eqn:Hc;
      [|parser_raise].
    apply parse_inv_intro; auto. eexists. split; [reflexivity|].
    split; [|reflexivity]. apply node_ok_new; [exact Hne | exact Hlv].
  - (* S_CLAUSE *)
    destruct Hst as (n & Hn & Hok & Hnl).
    unfold Parse.the_node. rewrite Hn.
    destruct (bool_decide (enum t = T_PERIOD)).
    { simpl. apply parse_inv_intro; auto.
      apply Forall_app. split; [exact Hl|]. constructor; [|constructor].
      apply listed_ok_set_type, Hok. }
    destruct (String.eqb (up_text t) "REDEFINES").
    { apply parse_inv_intro; auto. rewrite Hn. eauto. }
    destruct (String.eqb (up_text t) "OCCURS").
    { apply parse_inv_intro; auto. rewrite Hn. eauto. }
    destruct (String.eqb (up_text t) "PIC" || String.eqb (up_text t) "PICTURE").
    { apply parse_inv_intro; auto. rewrite Hn. eauto. }
    destruct (String.eqb (up_text t) "VALUE").
    { apply parse_inv_intro; auto. rewrite Hn. eauto. }
    destruct (String.eqb (up_text t) "USAGE").
    { apply parse_inv_intro; auto. rewrite Hn. eauto. }
    destruct (String.eqb (up_text t) "DISPLAY" || String.eqb (up_text t) "BINARY"
              || String.eqb (up_text t) "COMP-3" || String.eqb (up_text t) "COMPUTATIONAL-3").
    { destruct (Parse.decode_usage (up_text t)); [|parser_raise].
      simpl. apply parse_inv_intro; auto. eexists. split; [reflexivity|].
      split; [apply node_ok_usage, Hok | exact Hnl]. }
    destruct (String.eqb (text t) "INDEXED"); [|parser_raise].
    apply parse_inv_intro; auto. rewrite Hn. eauto.
  - (* S_REDEFINES *)
    destruct Hst as (n & Hn & Hok & Hnl).
    unfold Parse.the_node. rewrite Hn.
    destruct (bool_decide (enum t = T_TEXT)); [|parser_raise].
    simpl. apply parse_inv_intro; auto. eexists. split; [reflexivity|].
    split; [apply node_ok_redefines, Hok | exact Hnl].
  - (* S_OCCURS *)
    destruct Hst as (n & Hn & Hok & Hnl).
    unfold Parse.the_node. rewrite Hn.
    destruct (bool_decide (enum t = T_TEXT) && bool_decide (is_Some (Parse.re_int (text t))))
      eqn:Hc; [|parser_raise].
    apply andb_true_iff in Hc as [_ Hre]. apply bool_decide_eq_true in Hre.
    destruct (Py.int (text t)) as [k|e|] eqn:Hint; simpl.
    + destruct rest as [|nxt rest']; simpl; [parser_raise|].
      apply parse_inv_intro; auto. eexists. split; [reflexivity|].
      split; [apply node_ok_occurs; [exact (int_leading_digit _ _ Hre Hint) | exact Hok]
             | exact Hnl].
    + rewrite (int_raises _ _ Hint). parser_raise.
    + exact (int_not_stuck _ Hint).
  - (* S_PICTURE *)
    destruct Hst as (n & Hn & Hok & Hnl).
    unfold Parse.the_node. rewrite Hn.
    pose proof (decode_ok (Parse.decoder v) (up_text t) (upper_nonempty _ Hne)) as Hd.
    destruct (PictureDecoder.decode (Parse.decoder v) (up_text t)) as [r lx].
    simpl in Hd. destruct r as [[p|]|e|]; simpl.
    + apply parse_inv_intro; auto. eexists. split; [reflexivity|].
      split; [apply node_ok_picture; [exact Hd | exact Hok] | exact Hnl].
    + parser_raise.
    + destruct Hd as [Hd|[-> _]]; [right; right; right; exact Hd | parser_raise].
    + exact Hd.
  - (* S_VALUE *)
    destruct Hst as (n & Hn & Hok).
    destruct (value_text_returns t) as (vt & Hvt). rewrite Hvt.
    unfold Parse.the_node. rewrite Hn. simpl.
    destruct (node_picture n) as [p|] eqn:Hp.
    + apply parse_inv_intro; auto. rewrite Hs. eexists. split; [reflexivity|].
      simpl. intros; discriminate.
    + destruct (Hok eq_refl) as (Hnok & Hnl).
      destruct (Z.eqb_spec (Parse.level v) 88) as [H88|_]; [|parser_raise].
      destruct rest as [|nxt rest']; simpl; [parser_raise|].
      assert (Hnew : node_ok (set_enum_set n [vt]))
        by (apply node_ok_enum_set; [discriminate | congruence | exact Hnok]).
      destruct (bool_decide (enum nxt = T_PERIOD)); apply parse_inv_intro; auto;
        eexists; (split; [reflexivity|]); (split; [exact Hnew|]);
        first [exact Hnl | split; [exact Hnl | simpl; eauto]].
  - (* S_USAGE *)
    destruct Hst as (n & Hn & Hok & Hnl).
    unfold Parse.the_node. rewrite Hn.
    destruct (String.eqb (up_text t) "IS").
    { apply parse_inv_intro; auto. rewrite Hn. eauto. }
    destruct (Parse.decode_usage (up_text t)); [|parser_raise].
    simpl. apply parse_inv_intro; auto. eexists. split; [reflexivity|].
    split; [apply node_ok_usage, Hok | exact Hnl].
  - (* S_ENUM *)
    destruct Hst as (n & Hn & Hok & Hnl & l & Hset).
    destruct (value_text_returns t) as (vt & Hvt). rewrite Hvt.
    unfold Parse.the_node. rewrite Hn. simpl. rewrite Hset.
    destruct rest as [|nxt rest']; simpl; [parser_raise|].
    assert (Hnew : node_ok (set_enum_set n (l ++ [vt]))).
    { apply node_ok_enum_set; [|apply (proj2 (proj2 (proj2 (proj2 Hok))) l Hset)|exact Hok].
      destruct l; discriminate. }
    destruct (bool_decide (enum nxt = T_PERIOD)); apply parse_inv_intro; auto;
      eexists; (split; [reflexivity|]); (split; [exact Hnew|]);
      first [exact Hnl | split; [exact Hnl | simpl; eauto]].
  - (* S_INDEXED *)
    destruct Hst as (n & Hn & Hok & Hnl).
    unfold Parse.the_node. rewrite Hn.
    destruct (String.eqb (text t) "BY").
    { apply parse_inv_intro; auto. rewrite Hn. eauto. }
    destruct (bool_decide (enum t = T_TEXT)); [|parser_raise].
    simpl. apply parse_inv_intro; auto. eexists. split; [reflexivity|].
    split; [apply node_ok_indexed_by, Hok | exact Hnl].
Qed.

Lemma parse_loop_inv toks : forall skip v,
  Forall (fun t => text t <> "") toks -> parse_inv v ->
  match Parse.loop toks skip v with
  | Return l => Forall listed_ok l
  | Raise e => parser_error e
  | Stuck => False
  end.
Proof.
  induction toks as [|t rest IH]; intros skip v Hts Hv; simpl.
  - exact (proj1 Hv).
  - inversion Hts as [|? ? Ht Hrest]; subst.
    destruct skip; [apply IH; assumption|].
    pose proof (parse_pass_inv v t rest Hv Ht) as Hp.
    destruct (Parse.pass v t rest) as [[|v' sk]|e|].
    + exact (proj1 Hv).
    + apply IH; assumption.
    + exact Hp.
    + exact Hp.
Qed.

Lemma parse_inv_init : parse_inv Parse.init.
Proof. split; [constructor|]. split; [simpl; lia | exact I]. Qed.

(** X15: every node that [parse_copybook] returns for an ASCII text has a
    name that is not empty, a level and an occurs count that are not
    negative, and a type that tells what it holds: N_PICTURE with a
    picture, else N_ENUM with a value list, else N_RECORD with neither
    (never N_NONE).  A picture is as the decoder makes it, with an empty
    default (a VALUE clause never reaches a returned node), and a value
    list is not empty and is found on level 88 only. *)
Theorem parse_copybook_nodes (copybook : string) (nodes : list Node) :
  Py.is_ascii copybook = true ->
  parse_copybook copybook = Return nodes -> Forall listed_ok nodes.
Proof.
  unfold parse_copybook. intros _ Hrun.
  destruct (tokenize copybook) as [toks|e|] eqn:Htok; simpl in Hrun; try discriminate.
  pose proof (parse_loop_inv toks false Parse.init (tokenize_texts _ _ Htok) parse_inv_init) as H.
  rewrite Hrun in H. exact H.
Qed.

Lemma parse_copybook_nodes_witness :
  Py.is_ascii "05 A PIC X(3)." = true
  /\ parse_copybook "05 A PIC X(3)."
     = Return [mkNode "A" N_PICTURE 5 None 1 (Some (mkPicture P_STRING 3 0 "" false))
                      U_NONE None None]
  /\ Forall listed_ok [mkNode "A" N_PICTURE 5 None 1 (Some (mkPicture P_STRING 3 0 "" false))
                               U_NONE None None].
Proof.
  split; [reflexivity|]. split; [vm_compute; reflexivity|].
  apply (parse_copybook_nodes "05 A PIC X(3)."); [reflexivity|]. vm_compute. reflexivity.
Defined.

(** X16: for every ASCII text [parse_copybook] ends, and its exceptions are
    the grammar errors of the parser (a CopybookException), the
    [ValueError] of [int], the [IndexError] of the look-ahead
    [tokens[token_idx+1]], and the [ParserError] of the picture lexer.  It
    never fails on a missing node ([AttributeError]) or on an empty picture
    text ([TypeError]). *)
Theorem parse_copybook_raises (copybook : string) :
  Py.is_ascii copybook = true ->
  match parse_copybook copybook with
  | Return _ => True
  | Raise e => parser_error e
  | Stuck => False
  end.
Proof.
  intros _. unfold parse_copybook.
  destruct (tokenize_kinds copybook) as (v' & Hrun & _).
  assert (Htok : tokenize copybook = Return (Tokenize.finish v'))
    by (unfold tokenize; rewrite Hrun; reflexivity).
  rewrite Htok. simpl.
  pose proof (parse_loop_inv _ false Parse.init (tokenize_texts _ _ Htok) parse_inv_init) as H.
  destruct (Parse.loop (Tokenize.finish v') false Parse.init); auto.
Qed.

Lemma parse_copybook_raises_witness :
  Py.is_ascii "01A REC." = true
  /\ parse_copybook "01A REC." = Raise ValueError
  /\ parser_error ValueError.
Proof.
  split; [reflexivity|]. split; [vm_compute; reflexivity|].
  exact (parse_copybook_raises "01A REC." eq_refl).
Defined.

(** ** Loading a copybook file *)

Lemma char_at_spec (n : nat) (s : string) :
  match char_at n s with
  | Return _ => (n < Py.len s)%nat
  | Raise e => e = IndexError /\ (Py.len s <= n)%nat
  | Stuck => False
  end.
Proof.
  unfold char_at, Py.len. revert n. induction s as [|c r IH]; intros n; simpl.
  - destruct n; simpl; split; auto; lia.
  - destruct n as [|n']; simpl; [lia|].
    specialize (IH n'). destruct (String.get n' r); simpl in *; [lia|].
    split; [reflexivity | lia].
Qed.

(** X17: [load_file] raises [IndexError] exactly when the file has a line
    of fewer than 7 characters (the newline included, so an empty line is
    enough): [line[6]] is read before anything else.  It raises nothing
    else in its loop, and returns when every line has 7 characters or
    more. *)
Theorem load_file_short_line (lines : list string) :
  match load_file lines with
  | Return _ => Forall (fun l => (7 <= Py.len l)%nat) lines
  | Raise e => e = IndexError /\ Exists (fun l => (Py.len l < 7)%nat) lines
  | Stuck => False
  end.
Proof.
  unfold load_file. generalize EmptyString as s.
  induction lines as [|line rest IH]; intros s; simpl.
  - constructor.
  - unfold load_line. pose proof (char_at_spec 6 line) as Hc.
    destruct (char_at 6 line) as [c|e|]; simpl.
    + assert (Hgo : forall s', match load_lines rest s' with
                               | Return _ => Forall (fun l => (7 <= Py.len l)%nat) (line :: rest)
                               | Raise e => e = IndexError
                                            /\ Exists (fun l => (Py.len l < 7)%nat) (line :: rest)
                               | Stuck => False
                               end).
      { intros s'. specialize (IH s'). destruct (load_lines rest s').
        - constructor; [lia | exact IH].
        - destruct IH as [-> Hex]. split; [reflexivity|]. apply Exists_cons_tl, Hex.
        - exact IH. }
      destruct (Ascii.eqb c "*"); simpl; apply Hgo.
    + destruct Hc as [-> Hlen]. split; [reflexivity|]. apply Exists_cons_hd. lia.
    + exact Hc.
Qed.

Lemma count_newlines_none (s : string) :
  all_chars not_newline s = true -> count_newlines s = 0.
Proof.
  induction s as [|c r IH]; simpl; [reflexivity|]. intros H.
  apply andb_true_iff in H as [Hc Hr]. unfold not_newline in Hc.
  destruct (Tokenize.is_newline c); [discriminate|]. rewrite (IH Hr). reflexivity.
Qed.

Lemma one_line_snoc (l : string) :
  one_line l = true ->
  l = "" \/ exists body c, l = body +:+ String c "" /\ all_chars not_newline body = true.
Proof.
  induction l as [|c r IH]; intros H; [left; reflexivity|]. right.
  destruct r as [|c' r'].
  - exists "", c. split; reflexivity.
  - change (not_newline c && one_line (String c' r') = true) in H.
    apply andb_true_iff in H as [Hc Hr].
    destruct (IH Hr) as [Hnil|(body & x & Hb & Hall)]; [discriminate|].
    exists (String c body), x. rewrite Hb. split; [reflexivity|]. simpl. rewrite Hc, Hall. reflexivity.
Qed.

Lemma one_line_drop (n : nat) (l : string) : one_line l = true -> one_line (Py.drop n l) = true.
Proof.
  revert l. induction n as [|n IH]; intros l H; [destruct l; exact H|].
  destruct l as [|c r]; [reflexivity|]. simpl. apply IH.
  destruct r as [|c' r']; [reflexivity|].
  change (not_newline c && one_line (String c' r') = true) in H.
  apply andb_true_iff in H as [_ Hr]. exact Hr.
Qed.

Lemma one_line_take (n : nat) (l : string) : one_line l = true -> one_line (Py.take n l) = true.
Proof.
  revert l. induction n as [|n IH]; intros l H; [destruct l; reflexivity|].
  destruct l as [|c r]; [reflexivity|]. simpl.
  destruct r as [|c' r']; [destruct n; reflexivity|].
  change (not_newline c && one_line (String c' r') = true) in H.
  apply andb_true_iff in H as [Hc Hr]. specialize (IH _ Hr).
  destruct (Py.take n (String c' r')) as [|x y] eqn:Ht; [reflexivity|].
  change (not_newline c && one_line (String x y) = true). rewrite Hc, IH. reflexivity.
Qed.

Lemma newline_is_space c : Py.is_space c = false -> not_newline c = true.
Proof.
  unfold not_newline, Tokenize.is_newline. intros H.
  destruct (Ascii.eqb_spec c "010") as [->|_]; [vm_compute in H; discriminate | reflexivity].
Qed.

(** [rstrip] takes the newline off the end of a line. *)
Lemma rstrip_one_line (l : string) :
  one_line l = true -> all_chars not_newline (rstrip l) = true.
Proof.
  intros H. unfold rstrip.
  destruct (one_line_snoc l H) as [->|(body & c & -> & Hall)]; [reflexivity|].
  rewrite rev_onto_app. simpl.
  assert (Hrev : all_chars not_newline (Py.rev_onto body "") = true)
    by (apply all_chars_rev_onto; [exact Hall | reflexivity]).
  unfold Py.lstrip. simpl. destruct (Py.is_space c) eqn:Hc.
  - destruct (Py.span Py.is_space (Py.rev_onto body "")) as [a b] eqn:Hspan. simpl.
    destruct (span_spec _ _ _ _ Hspan) as [Hab _].
    rewrite Hab, all_chars_app in Hrev. apply andb_true_iff in Hrev as [_ Hb].
    apply all_chars_rev_onto; [exact Hb | reflexivity].
  - simpl. apply all_chars_rev_onto; [exact Hrev|].
    simpl. rewrite (newline_is_space c Hc). reflexivity.
Qed.

#[local] Arguments Py.take : simpl never.
#[local] Arguments Py.drop : simpl never.

Lemma load_line_newlines (s line s' : string) :
  one_line line = true -> load_line s line = Return s' ->
  count_newlines s' = count_newlines s + 1.
Proof.
  intros Hl. unfold load_line. destruct (char_at 6 line) as [c|e|]; simpl; try discriminate.
  destruct (Ascii.eqb c "*"); intros H; inversion H; subst s'; clear H.
  - rewrite count_newlines_app. reflexivity.
  - rewrite count_newlines_app.
    change (count_newlines s + (0 + (0 + (0 + (0 + (0 + (0 + (0 + count_newlines
             (rstrip (Py.take 65 (Py.drop 7 line)) +:+ String "010" "")))))))) =
            count_newlines s + 1).
    rewrite count_newlines_app.
    rewrite (count_newlines_none (rstrip _)); [reflexivity|].
    apply rstrip_one_line, one_line_take, one_line_drop, Hl.
Qed.

Lemma load_lines_newlines (lines : list string) : forall s s',
  Forall (fun l => one_line l = true) lines -> load_lines lines s = Return s' ->
  count_newlines s' = count_newlines s + Z.of_nat (List.length lines).
Proof.
  induction lines as [|line rest IH]; intros s s' Hall Hrun; simpl in Hrun.
  - inversion Hrun; subst. simpl. lia.
  - inversion Hall as [|? ? Hl Hrest]; subst.
    destruct (load_line s line) as [s1|e|] eqn:H1; simpl in Hrun; try discriminate.
    rewrite (IH s1 s' Hrest Hrun), (load_line_newlines s line s1 Hl H1).
    simpl List.length. lia.
Qed.

(** X18: [load_file] keeps the line numbers of the file.  When each line
    has its newline, if any, as its last character (as [readlines] gives
    them) and [load_file] returns, the text has exactly one newline for each
    line of the file: a comment line becomes an empty line, and the trailing
    white space that [rstrip] removes includes the newline of the line,
    which is put back once. *)
Theorem load_file_keeps_lines (lines : list string) (s : string) :
  Forall (fun l => one_line l = true) lines ->
  load_file lines = Return s ->
  count_newlines s = Z.of_nat (List.length lines).
Proof.
  intros Hall Hrun. unfold load_file in Hrun.
  rewrite (load_lines_newlines lines "" s Hall Hrun). reflexivity.
Qed.

Lemma load_file_keeps_lines_witness :
  count_newlines ("       01 REC." +:+ nl +:+ nl) = Z.of_nat (List.length
    ["000100 01 REC.   " +:+ nl; "000200* comment" +:+ nl]).
Proof.
  apply (load_file_keeps_lines ["000100 01 REC.   " +:+ nl; "000200* comment" +:+ nl]).
  - repeat constructor.
  - reflexivity.
Defined.

(** ** The dictionary of a node *)

Ltac map_lookup :=
  repeat first [ rewrite lookup_insert_eq
               | rewrite lookup_insert_ne by discriminate
               | rewrite lookup_singleton_eq
               | rewrite lookup_singleton_ne by discriminate ].

Lemma update_if_str_lookup (k k' : string) s (m : gmap string Value) :
  k <> k' -> update_if_str k s m !! k' = m !! k'.
Proof.
  intros Hne. unfold update_if_str. destruct s as [[|c r]|]; try reflexivity.
  apply lookup_insert_ne. exact Hne.
Qed.

(** What the end of [to_dict] adds to [output]. *)
Lemma Node_to_dict_tail (n : Node) (m : gmap string Value) (k : string) :
  k <> "occurs" -> k <> "redefines" -> k <> "indexed_by" ->
  update_if_str "indexed_by" (indexed_by n)
    (update_if_str "redefines" (redefines n)
       (if 1 <? occurs n then <["occurs" := VInt (occurs n)]> m else m)) !! k
  = m !! k.
Proof.
  intros H1 H2 H3. rewrite !update_if_str_lookup by congruence.
  destruct (1 <? occurs n); [|reflexivity]. apply lookup_insert_ne. congruence.
Qed.

Lemma Node_to_dict_occurs (n : Node) (m : gmap string Value) :
  m !! "occurs" = None ->
  update_if_str "indexed_by" (indexed_by n)
    (update_if_str "redefines" (redefines n)
       (if 1 <? occurs n then <["occurs" := VInt (occurs n)]> m else m)) !! "occurs"
  = if 1 <? occurs n then Some (VInt (occurs n)) else None.
Proof.
  intros Hm. rewrite !update_if_str_lookup by discriminate.
  destruct (1 <? occurs n); [apply lookup_insert_eq | exact Hm].
Qed.

(** The dictionary of a node that satisfies [listed_ok]. *)
Lemma listed_to_dict (n : Node) :
  listed_ok n ->
  exists d, Node_to_dict n = Return d
    /\ d !! "level" = Some (VInt (node_level n))
    /\ d !! "occurs" = (if 1 <? occurs n then Some (VInt (occurs n)) else None)
    /\ match node_picture n with
       | Some p =>
           d !! "length" = Some (VInt (length p))
           /\ d !! "type" = Some (VStr match picture_type p with
                                       | P_STRING => "string"
                                       | _ => "numeric"
                                       end)
       | None =>
           d !! "length" = None
           /\ d !! "type" = Some (VStr match enum_set n with
                                       | Some _ => "enum"
                                       | None => "record"
                                       end)
       end.
Proof.
  intros [(Hname & Hlv & Hocc & Hpic & Hen) Hty]. unfold Node_to_dict. rewrite Hty.
  destruct (node_picture n) as [p|] eqn:Hp.
  - destruct (Hpic p eq_refl) as (Hpt & Hsc & Hdef & _). rewrite Hdef.
    eexists. split; [reflexivity|]. cbv zeta.
    split; [|split; [|split]].
    + rewrite Node_to_dict_tail by discriminate.
      destruct (picture_type p); [congruence| |];
        destruct (usage n); try destruct (scale p =? 0); map_lookup; reflexivity.
    + apply Node_to_dict_occurs.
      destruct (picture_type p); [congruence| |];
        destruct (usage n); try destruct (scale p =? 0); map_lookup; reflexivity.
    + rewrite Node_to_dict_tail by discriminate.
      destruct (picture_type p); [congruence| |];
        destruct (usage n); try destruct (scale p =? 0); map_lookup; reflexivity.
    + rewrite Node_to_dict_tail by discriminate.
      destruct (picture_type p); [congruence| |];
        destruct (usage n); try destruct (scale p =? 0); map_lookup; reflexivity.
  - destruct (enum_set n) as [l|] eqn:Hl.
    + eexists. split; [reflexivity|]. cbv zeta.
      split; [|split; [|split]]; try apply Node_to_dict_occurs;
        try rewrite Node_to_dict_tail by discriminate; map_lookup; reflexivity.
    + eexists. split; [reflexivity|]. cbv zeta.
      split; [|split; [|split]]; try apply Node_to_dict_occurs;
        try rewrite Node_to_dict_tail by discriminate; map_lookup; reflexivity.
Qed.

(** X19: [Node.to_dict] on the nodes that [parse_copybook] returns for an
    ASCII text, as the flat output of the program applies it.  It never raises; the dictionary has
    the level of the node under 'level'; 'type' is 'string' or 'numeric'
    for a node with a picture, else 'enum' for a node with a value list,
    else 'record'; 'length' is the integer length of the picture (the
    branch that puts the default under 'length' is never taken) and is
    absent without a picture; 'occurs' is present exactly when the count is
    greater than 1. *)
Theorem parsed_node_to_dict (copybook : string) (nodes : list Node) (n : Node) :
  Py.is_ascii copybook = true ->
  parse_copybook copybook = Return nodes -> n ∈ nodes ->
  exists d, Node_to_dict n = Return d
    /\ d !! "level" = Some (VInt (node_level n))
    /\ d !! "occurs" = (if 1 <? occurs n then Some (VInt (occurs n)) else None)
    /\ match node_picture n with
       | Some p =>
           d !! "length" = Some (VInt (length p))
           /\ d !! "type" = Some (VStr match picture_type p with
                                       | P_STRING => "string"
                                       | _ => "numeric"
                                       end)
       | None =>
           d !! "length" = None
           /\ d !! "type" = Some (VStr match enum_set n with
                                       | Some _ => "enum"
                                       | None => "record"
                                       end)
       end.
Proof.
  unfold parse_copybook. intros _ Hrun Hin.
  destruct (tokenize copybook) as [toks|e|] eqn:Htok; simpl in Hrun; try discriminate.
  pose proof (parse_loop_inv toks false Parse.init (tokenize_texts _ _ Htok) parse_inv_init) as H.
  rewrite Hrun in H. rewrite Forall_forall in H.
  apply listed_to_dict, H, Hin.
Qed.

Lemma parsed_node_to_dict_witness :
  exists d, Node_to_dict sample_field = Return d
    /\ d !! "level" = Some (VInt 5)
    /\ d !! "occurs" = None
    /\ d !! "length" = Some (VInt 3)
    /\ d !! "type" = Some (VStr "string").
Proof.
  apply (parsed_node_to_dict "05 A PIC X(3)." [sample_field] sample_field).
  - reflexivity.
  - vm_compute. reflexivity.
  - constructor.
Defined.

(** X20: the exceptions and the edge of [Node.to_dict] on any node.  It
    raises [AttributeError] exactly for a node of type N_PICTURE without a
    picture and [TypeError] exactly for a node of type N_ENUM without a
    value list, and nothing else.  For a node of type N_PICTURE whose
    picture has a default that is not empty, 'length' holds that default
    text in place of the length. *)
Theorem Node_to_dict_edges (n : Node) :
  match Node_to_dict n with
  | Return d =>
      (node_type n = N_PICTURE -> exists p, node_picture n = Some p
         /\ d !! "length" = Some (match default p with
                                  | EmptyString => VInt (length p)
                                  | s => VStr s
                                  end))
      /\ (node_type n = N_ENUM -> exists l, enum_set n = Some l
            /\ d !! "values" = Some (VStr (join_with "," l)))
  | Raise e =>
      (e = AttributeError /\ node_type n = N_PICTURE /\ node_picture n = None)
      \/ (e = TypeError /\ node_type n = N_ENUM /\ enum_set n = None)
  | Stuck => False
  end.
Proof.
  unfold Node_to_dict. destruct (node_type n) eqn:Hty.
  - split; intros; discriminate.
  - split; intros; discriminate.
  - destruct (node_picture n) as [p|] eqn:Hp; [|left; auto].
    cbv zeta. change (Return ?x ≫= ?f) with (f x). cbv beta.
    split; [|intros; discriminate]. intros _. exists p. split; [reflexivity|].
    rewrite Node_to_dict_tail by discriminate.
    destruct (default p); destruct (picture_type p); destruct (usage n);
      try destruct (scale p =? 0); map_lookup; reflexivity.
  - destruct (enum_set n) as [l|] eqn:Hl; [|right; auto].
    change (Return ?x ≫= ?f) with (f x). cbv beta zeta.
    split; [intros; discriminate|]. intros _. exists l. split; [reflexivity|].
    rewrite Node_to_dict_tail by discriminate. map_lookup. reflexivity.
Qed.
